(** * simanneal: the annealing driver of [simanneal/anneal.py]

    A shallow embedding of [time_string], [round_figures] and the
    [Annealer] class ([copy_state], [default_update], [anneal], [auto]),
    and the properties of the driver that the specification states.

    Conventions of the embedding.
    - Python floats are idealised as real numbers ([R]); [math.exp] and
      [math.log] are the real [exp] and [ln], [round] rounds a tie to the
      even neighbour.  Python ints are [Z].
    - An [Annealer] object is a record of the fields [__init__] creates.
      What a subclass adds (its [move], [energy], possibly [revert],
      possibly other attributes) is a [Problem] record.  The methods of
      the subclass run on the state object and on an environment of an
      abstract type, which stands for the subclass's own data, the shared
      pseudorandom stream and the clock; they do not assign the fields
      [params], [best_state], [best_energy] and [start] of the object.
    - States are values: a move yields a new value of [self.state], and a
      copy of a state is whatever the problem's copy operation returns.
    - Methods are computations in a state-and-exception monad whose state
      (the object, the environment, the trace of effects) survives a
      raised exception, as a Python object survives it.  Opening and
      writing the trace file and logging do not fail.
    - The [while] loops of [auto] have no bound in the source; here they
      are given a number of turns and answer [Diverge] when it is used
      up. *)

From Stdlib Require Import Reals ZArith List String Ascii Bool Lia Lra RelationClasses.
From Stdlib Require Import DecimalString.
Import ListNotations.

Local Open Scope Z_scope.
Local Open Scope string_scope.

(** ** Numbers *)

Module Num.

Definition Rltb (x y : R) : bool := if Rlt_dec x y then true else false.
Definition Rleb (x y : R) : bool := if Rle_dec x y then true else false.
Definition Reqb (x y : R) : bool := if Req_dec_T x y then true else false.

(** [round(x)]: to the nearest integer, a tie going to the even one. *)
Definition py_round (x : R) : Z :=
  let f := Zfloor x in
  let d := (x - IZR f)%R in
  if Rltb d (1 / 2) then f
  else if Rltb (1 / 2) d then f + 1
  else if Z.even f then f else f + 1.

(** [round(x, ndigits)]. *)
Definition py_round_to (x : R) (ndigits : Z) : R :=
  (IZR (py_round (x * powerRZ 10 ndigits)) / powerRZ 10 ndigits)%R.

(** [int(x)]: truncation toward zero. *)
Definition py_int (x : R) : Z :=
  if Rltb x 0 then Zceil x else Zfloor x.

(** [divmod(a, b)] on ints: floor division, the remainder has the sign
    of the divisor. *)
Definition divmod (a b : Z) : Z * Z := (a / b, a mod b).

End Num.
Import Num.

(** ** [%]-formatting of ints *)

Module Fmt.

Definition repeat_char (c : ascii) (n : nat) : string :=
  string_of_list_ascii (List.repeat c n).

(** [str(z)] for an int. *)
Definition dec (z : Z) : string := NilZero.string_of_int (Z.to_int z).

(** ["%<w>i" % z]: right-justified in [w] columns, padded with spaces. *)
Definition pct_i (w : nat) (z : Z) : string :=
  let s := dec z in
  repeat_char " "%char (w - String.length s) ++ s.

(** ["%0<w>i" % z]: padded with zeros, after the sign if there is one. *)
Definition pct_0i (w : nat) (z : Z) : string :=
  let s := dec (Z.abs z) in
  let sign := if Z.ltb z 0 then "-" else "" in
  sign ++ repeat_char "0"%char (w - String.length sign - String.length s) ++ s.

End Fmt.

(** ** [time_string] (anneal.py, lines 34-39) *)

Definition time_string (seconds : R) : string :=
  let s := py_round seconds in
  let '(h, s) := divmod s 3600 in
  let '(m, s) := divmod s 60 in
  Fmt.pct_i 4 h ++ ":" ++ Fmt.pct_0i 2 m ++ ":" ++ Fmt.pct_0i 2 s.

(** ** [round_figures] (lines 29-31) *)

(** Exceptions the embedded code can raise.  Message texts are not kept:
    each constructor stands for one [raise] site or one runtime error. *)
Inductive exn : Type :=
| AttributeError (attr : string)   (* the object has no attribute [attr] *)
| RuntimeError (strategy : string) (* line 82: no implementation for the copy strategy *)
| Exception                        (* line 156: cooling needs tmin > 0 *)
| ValueError                       (* math domain error *)
| ZeroDivisionError
| TypeError                        (* arithmetic or comparison on None *)
| UnboundLocalError
| Raised (name : string).          (* an exception of the caller's own *)

(** Outcome of a call: a value, an exception, or no answer within the
    iterations allowed to an unbounded [while] loop. *)
Inductive result (A : Type) : Type :=
| Ok (a : A)
| Raise (e : exn)
| Diverge.
Arguments Ok {A} a.
Arguments Raise {A} e.
Arguments Diverge {A}.

Module Py.

(** [a / b] with [from __future__ import division]. *)
Definition truediv (a b : R) : result R :=
  if Reqb b 0 then Raise ZeroDivisionError else Ok (a / b)%R.

(** [a // b] on floats. *)
Definition floordiv (a b : R) : result R :=
  if Reqb b 0 then Raise ZeroDivisionError else Ok (IZR (Zfloor (a / b))).

(** [math.log(x)]. *)
Definition math_log (x : R) : result R :=
  if Rleb x 0 then Raise ValueError else Ok (ln x).

(** [math.log10(x)]. *)
Definition math_log10 (x : R) : result R :=
  if Rleb x 0 then Raise ValueError else Ok (ln x / ln 10)%R.

(** Arithmetic on a value that may be [None]. *)
Definition number {A : Type} (v : option A) : result A :=
  match v with Some x => Ok x | None => Raise TypeError end.

End Py.
Import Py.

Definition round_figures (x : R) (n : Z) : result R :=
  match math_log10 (Rabs x) with
  | Ok lg => Ok (py_round_to x (n - Zceil lg))
  | Raise e => Raise e
  | Diverge => Diverge
  end.

(** ** [AnnealerParams] (lines 18-26) *)

Record AnnealerParams : Type := {
  steps : Z;
  tmax : R;
  tmin : R;
  copy_strategy : string;
  pos : Z;
  updates : Z;
  output_file : string
}.

(** [AnnealerParams(steps, tmax, tmin)] with the defaults of the dataclass. *)
Definition mkParams (steps : Z) (tmax tmin : R) : AnnealerParams :=
  {| steps := steps; tmax := tmax; tmin := tmin; copy_strategy := "deepcopy";
     pos := 0; updates := 100; output_file := "" |}.

(** ** Effects *)

Inductive verdict : Type := REJ | ACC.

(** What is written to the trace file. *)
Inductive text : Type :=
| Header                              (* line 147 *)
| Row (step : Z) (T prevE E : R)      (* line 183: step, T to 4 places, energies to 3 *)
| Best (b : R)                        (* line 184 *)
| Accepted (b : bool).                (* lines 188 and 196 *)

(** What is handed to the logger. *)
Inductive record : Type :=
| StartEnergy (E : R)                               (* line 165 *)
| ColumnNames                                       (* line 174 *)
| StepLine (step : Z) (prevE E : R) (v : verdict)   (* lines 186 and 194 *)
| Progress (T E acc imp : R) (elapsed remain : string). (* line 122 *)

Inductive method : Type := Move | Energy | Revert.

(** The trace of a run: file operations, logger records and calls of the
    problem's methods, oldest first.  [Close] belongs to the file
    interface; whether the driver performs it is a property of the code. *)
Inductive event : Type :=
| Open (path : string)
| Write (path : string) (t : text)
| Close (path : string)
| Debug (r : record)
| Info (r : record)
| Call (m : method).

(** ** The [Annealer] object and the monad of its methods *)

Section Model.

(** [St]: the state object.  [Env]: what else the problem's methods can
    read and change (attributes the subclass adds to the object), the
    shared pseudorandom stream, and the clock. *)
Context {St Env : Type}.

(** The fields [__init__] creates (lines 50-55). *)
Record Annealer : Type := {
  params : AnnealerParams;
  best_state : option St;
  best_energy : option R;
  start : option R;
  state : St
}.

(** A method of the subclass: it runs on the state object and the
    environment and hands both back, changed as it pleases, with the value
    it returns or the exception it raises. *)
Definition hook (A : Type) : Type := St -> Env -> result A * St * Env.

(** What the driver calls but the class [Annealer] does not define. *)
Record Problem : Type := {
  move : hook R;                        (* abstract, line 58 *)
  energy : hook R;                      (* abstract, line 63 *)
  revert : option (hook unit);          (* an attribute [revert] of the subclass, if it has one *)
  updates_attr : option Z;              (* an attribute [updates] of the subclass, if it has one *)
  deepcopy : St -> result St;           (* copy.deepcopy(state) *)
  slice : St -> result St;              (* state[:] *)
  copy_method : St -> result St;        (* state.copy() *)
  random : Env -> R * Env;              (* random.random() *)
  time : Env -> R * Env                 (* time.time() *)
}.

Record World : Type := {
  self : Annealer;
  env : Env;
  trace : list event
}.

Definition M (A : Type) : Type := World -> result A * World.

Definition ret {A} (a : A) : M A := fun w => (Ok a, w).

Definition bind {A B} (m : M A) (k : A -> M B) : M B := fun w =>
  match m w with
  | (Ok a, w') => k a w'
  | (Raise e, w') => (Raise e, w')
  | (Diverge, w') => (Diverge, w')
  end.

Definition raise {A} (e : exn) : M A := fun w => (Raise e, w).

Definition lift {A} (r : result A) : M A := fun w => (r, w).

Definition gets {A} (f : Annealer -> A) : M A := fun w => (Ok (f (self w)), w).

Definition assign (f : Annealer -> Annealer) : M unit := fun w =>
  (Ok tt, {| self := f (self w); env := env w; trace := trace w |}).

Definition emit (e : event) : M unit := fun w =>
  (Ok tt, {| self := self w; env := env w; trace := trace w ++ [e] |}).

(** An ambient source ([random.random], [time.time]). *)
Definition draw (src : Env -> R * Env) : M R := fun w =>
  let '(x, e') := src (env w) in
  (Ok x, {| self := self w; env := e'; trace := trace w |}).

(** A call [self.m()] of a method the subclass defines. *)
Definition call {A} (m : method) (h : hook A) : M A := fun w =>
  let '(r, s', e') := h (state (self w)) (env w) in
  (r, {| self := {| params := params (self w);
                    best_state := best_state (self w);
                    best_energy := best_energy (self w);
                    start := start (self w);
                    state := s' |};
         env := e';
         trace := trace w ++ [Call m] |}).

Definition set_params (p : AnnealerParams) (a : Annealer) : Annealer :=
  {| params := p; best_state := best_state a; best_energy := best_energy a;
     start := start a; state := state a |}.
Definition set_best_state (b : option St) (a : Annealer) : Annealer :=
  {| params := params a; best_state := b; best_energy := best_energy a;
     start := start a; state := state a |}.
Definition set_best_energy (b : option R) (a : Annealer) : Annealer :=
  {| params := params a; best_state := best_state a; best_energy := b;
     start := start a; state := state a |}.
Definition set_start (t : option R) (a : Annealer) : Annealer :=
  {| params := params a; best_state := best_state a; best_energy := best_energy a;
     start := t; state := state a |}.
Definition set_state (s : St) (a : Annealer) : Annealer :=
  {| params := params a; best_state := best_state a; best_energy := best_energy a;
     start := start a; state := s |}.

End Model.

Arguments Annealer : clear implicits.
Arguments Problem : clear implicits.
Arguments World : clear implicits.
Arguments M : clear implicits.

Declare Scope py_scope.
Delimit Scope py_scope with py.
Notation "x <- m ;; k" := (bind m (fun x => k))
  (at level 61, m at next level, right associativity) : py_scope.
Notation "m ;; k" := (bind m (fun _ => k))
  (at level 61, right associativity) : py_scope.

(** ** The methods of [Annealer] *)

Section Driver.

Context {St Env : Type}.
Variable P : Problem St Env.

Local Abbreviation M := (M St Env).
Local Open Scope py_scope.

(** [copy_state] (lines 67-85). *)
Definition copy_state (s : St) : M St :=
  strategy <- gets (fun a => copy_strategy (params a)) ;;
  if strategy =? "deepcopy" then lift (deepcopy P s)
  else if strategy =? "slice" then lift (slice P s)
  else if strategy =? "method" then lift (copy_method P s)
  else raise (RuntimeError strategy).

(** [self.copy_state(self.state)]. *)
Definition copy_own_state : M St :=
  s <- gets state ;; copy_state s.

(** [default_update] (lines 96-132); [update] (line 94) delegates to it. *)
Definition default_update (step : Z) (T E : R) (acceptance improvement : option R)
  : M unit :=
  now <- draw (time P) ;;
  began <- gets start ;;
  began <- lift (number began) ;;
  let elapsed := (now - began)%R in
  if (step =? 0)%Z then ret tt
  else
    total <- gets (fun a => steps (params a)) ;;
    rate <- lift (truediv elapsed (IZR step)) ;;
    let remain := (IZR (total - step) * rate)%R in
    acc <- lift (number acceptance) ;;
    imp <- lift (number improvement) ;;
    emit (Info (Progress T E (100 * acc) (100 * imp)
                  (time_string elapsed) (time_string remain))).

Definition update := default_update.

(** [self.revert()]: the class defines no such method, so the attribute
    is found only if the subclass supplies it. *)
Definition call_revert : M unit :=
  match revert P with
  | Some h => call Revert h
  | None => raise (AttributeError "revert")
  end.

(** The condition of lines 185 and 234:
    [dE > 0.0 and math.exp(-dE / T) < random.random()]. *)
Definition metropolis (dE T : R) : M bool :=
  if Rltb 0 dE then
    x <- lift (truediv (- dE) T) ;;
    r <- draw (random P) ;;
    ret (Rltb (exp x) r)
  else ret false.

(** Line 160. *)
Definition cooling_factor (tmax tmin : R) : result R :=
  match truediv tmax tmin with
  | Ok q => match math_log q with
            | Ok lg => Ok (- lg)%R
            | Raise e => Raise e
            | Diverge => Diverge
            end
  | Raise e => Raise e
  | Diverge => Diverge
  end.

(** Line 178. *)
Definition temperature (tmax Tfactor : R) (step steps : Z) : result R :=
  match truediv (Tfactor * IZR step) (IZR steps) with
  | Ok x => Ok (tmax * exp x)%R
  | Raise e => Raise e
  | Diverge => Diverge
  end.

(** The local variables of [anneal] that the loop reads and writes. *)
Record Locals : Type := {
  f : option string;            (* the path of the open trace file, or None *)
  Tfactor : R;
  updateWavelength : option R;  (* bound only when updates > 0 *)
  step : Z;
  T : R;
  E : R;
  prevState : St;
  prevEnergy : R;
  trials : Z;
  accepts : Z;
  improves : Z
}.

(** [if f is not None: f.write(t)]. *)
Definition trace_write (f : option string) (t : text) : M unit :=
  match f with
  | Some path => emit (Write path t)
  | None => ret tt
  end.

(** Lines 186-192. *)
Definition reject (l : Locals) (step : Z) (T E : R) (trials : Z) : M Locals :=
  emit (Debug (StepLine step (py_round_to (prevEnergy l) 2) (py_round_to E 2) REJ)) ;;
  trace_write (f l) (Accepted false) ;;
  s <- copy_state (prevState l) ;;
  assign (set_state s) ;;
  call_revert ;;
  ret {| f := f l; Tfactor := Tfactor l; updateWavelength := updateWavelength l;
         step := step; T := T; E := prevEnergy l;
         prevState := prevState l; prevEnergy := prevEnergy l;
         trials := trials; accepts := accepts l; improves := improves l |}.

(** Lines 203-205. *)
Definition keep_best (E : R) : M unit :=
  best <- gets best_energy ;;
  best <- lift (number best) ;;
  if Rltb E best then
    b <- copy_own_state ;;
    assign (set_best_state (Some b)) ;;
    assign (set_best_energy (Some E))
  else ret tt.

(** Lines 194-205. *)
Definition accept (l : Locals) (step : Z) (T E dE : R) (trials : Z) : M Locals :=
  emit (Debug (StepLine step (py_round_to (prevEnergy l) 2) (py_round_to E 2) ACC)) ;;
  trace_write (f l) (Accepted true) ;;
  let accepts := accepts l + 1 in
  let improves := if Rltb dE 0 then improves l + 1 else improves l in
  prevState <- copy_own_state ;;
  let prevEnergy := E in
  keep_best E ;;
  ret {| f := f l; Tfactor := Tfactor l; updateWavelength := updateWavelength l;
         step := step; T := T; E := E;
         prevState := prevState; prevEnergy := prevEnergy;
         trials := trials; accepts := accepts; improves := improves |}.

(** Lines 206-209. *)
Definition report (l : Locals) : M Locals :=
  n <- gets (fun a => updates (params a)) ;;
  if (1 <? n)%Z then
    wavelength <- lift (match updateWavelength l with
                        | Some x => Ok x
                        | None => Raise UnboundLocalError
                        end) ;;
    here <- lift (floordiv (IZR (step l)) wavelength) ;;
    before <- lift (floordiv (IZR (step l - 1)) wavelength) ;;
    if Rltb before here then
      acc <- lift (truediv (IZR (accepts l)) (IZR (trials l))) ;;
      imp <- lift (truediv (IZR (improves l)) (IZR (trials l))) ;;
      update (step l) (T l) (E l) (Some acc) (Some imp) ;;
      ret {| f := f l; Tfactor := Tfactor l; updateWavelength := updateWavelength l;
             step := step l; T := T l; E := E l;
             prevState := prevState l; prevEnergy := prevEnergy l;
             trials := 0; accepts := 0; improves := 0 |}
    else ret l
  else ret l.

(** Lines 182-184. *)
Definition trace_row (l : Locals) (step : Z) (T E : R) : M unit :=
  match f l with
  | Some path =>
      emit (Write path (Row step (py_round_to T 4) (py_round_to (prevEnergy l) 3)
                          (py_round_to E 3))) ;;
      best <- gets best_energy ;;
      best <- lift (number best) ;;
      emit (Write path (Best (py_round_to best 2)))
  | None => ret tt
  end.

(** One turn of the loop (lines 177-209). *)
Definition anneal_step (l : Locals) : M Locals :=
  let step := step l + 1 in
  p <- gets params ;;
  T <- lift (temperature (tmax p) (Tfactor l) step (steps p)) ;;
  dE <- call Move (move P) ;;
  let E := (E l + dE)%R in
  let trials := trials l + 1 in
  trace_row l step T E ;;
  rejected <- metropolis dE T ;;
  l' <- (if rejected : bool then reject l step T E trials
         else accept l step T E dE trials) ;;
  report l'.

(** [while step < self.params.steps] (line 176).  [step] grows by one
    each turn, so [steps] turns are enough; [n] counts the turns left. *)
Fixpoint anneal_loop (n : nat) (l : Locals) : M Locals :=
  total <- gets (fun a => steps (params a)) ;;
  if (step l <? total)%Z then
    match n with
    | O => lift Diverge
    | S n' => l' <- anneal_step l ;; anneal_loop n' l'
    end
  else ret l.

(** Lines 145-149. *)
Definition open_trace (out : string) : M (option string) :=
  if negb (out =? "") then
    emit (Open out) ;; emit (Write out Header) ;; ret (Some out)
  else ret None.

(** Lines 171-173: [updateWavelength] is bound only in this branch. *)
Definition first_update (p : AnnealerParams) (step : Z) (T E : R) : M (option R) :=
  if (0 <? updates p)%Z then
    x <- lift (truediv (IZR (steps p)) (IZR (updates p))) ;;
    update step T E None None ;;
    ret (Some x)
  else ret None.

(** Lines 151-174: from the start of the clock to the loop. *)
Definition anneal_start (f : option string) : M Locals :=
  let step := 0 in
  now <- draw (time P) ;;
  assign (set_start (Some now)) ;;
  p <- gets params ;;
  if Rleb (tmin p) 0 then raise Exception
  else
    Tfactor <- lift (cooling_factor (tmax p) (tmin p)) ;;
    let T := tmax p in
    E <- call Energy (energy P) ;;
    emit (Debug (StartEnergy (py_round_to E 2))) ;;
    prevState <- copy_own_state ;;
    let prevEnergy := E in
    b <- copy_own_state ;;
    assign (set_best_state (Some b)) ;;
    assign (set_best_energy (Some E)) ;;
    wavelength <- first_update p step T E ;;
    emit (Debug ColumnNames) ;;
    ret {| f := f; Tfactor := Tfactor; updateWavelength := wavelength;
           step := step; T := T; E := E;
           prevState := prevState; prevEnergy := prevEnergy;
           trials := 0; accepts := 0; improves := 0 |}.

(** Lines 143-174: everything before the loop. *)
Definition anneal_init (params' : option AnnealerParams) : M Locals :=
  match params' with
  | Some p => assign (set_params p)
  | None => ret tt
  end ;;
  out <- match params' with
         | Some p => ret (output_file p)
         | None => raise (AttributeError "output_file")
         end ;;
  f <- open_trace out ;;
  anneal_start f.

(** Lines 211-214.  The pair returned is
    [(self.best_state, self.best_energy)]. *)
Definition anneal_finish : M (option St * option R) :=
  best <- gets best_state ;;
  match best with
  | Some b =>
      s <- copy_state b ;;
      assign (set_state s) ;;
      bs <- gets best_state ;;
      be <- gets best_energy ;;
      ret (bs, be)
  | None => raise TypeError   (* not reached: line 168 has assigned it *)
  end.

(** [anneal] (lines 134-214). *)
Definition anneal (params' : option AnnealerParams) : M (option St * option R) :=
  l <- anneal_init params' ;;
  total <- gets (fun a => steps (params a)) ;;
  _ <- anneal_loop (Z.to_nat total) l ;;
  anneal_finish.

(** *** [auto] (lines 216-288) *)

(** The local variables of [run] that its loop reads and writes. *)
Record RunLocals : Type := {
  run_E : R;
  run_prevState : St;
  run_prevEnergy : R;
  run_accepts : Z;
  run_improves : Z
}.

(** One turn of the loop of [run] (lines 231-243). *)
Definition run_step (T : R) (l : RunLocals) : M RunLocals :=
  _ <- call Move (move P) ;;
  E <- call Energy (energy P) ;;
  let dE := (E - run_prevEnergy l)%R in
  rejected <- metropolis dE T ;;
  if rejected : bool then
    s <- copy_state (run_prevState l) ;;
    assign (set_state s) ;;
    call_revert ;;
    ret {| run_E := run_prevEnergy l; run_prevState := run_prevState l;
           run_prevEnergy := run_prevEnergy l;
           run_accepts := run_accepts l; run_improves := run_improves l |}
  else
    let accepts := run_accepts l + 1 in
    let improves := if Rltb dE 0 then run_improves l + 1 else run_improves l in
    prevState <- copy_own_state ;;
    ret {| run_E := E; run_prevState := prevState; run_prevEnergy := E;
           run_accepts := accepts; run_improves := improves |}.

(** [for _ in range(steps)]. *)
Fixpoint run_loop (n : nat) (T : R) (l : RunLocals) : M RunLocals :=
  match n with
  | O => ret l
  | S n' => l' <- run_step T l ;; run_loop n' T l'
  end.

(** [run(T, steps)] (lines 223-244): energy, acceptance, improvement. *)
Definition run (T : R) (steps : Z) : M (R * R * R) :=
  E <- call Energy (energy P) ;;
  prevState <- copy_own_state ;;
  l <- run_loop (Z.to_nat steps) T
         {| run_E := E; run_prevState := prevState; run_prevEnergy := E;
            run_accepts := 0; run_improves := 0 |} ;;
  acceptance <- lift (truediv (IZR (run_accepts l)) (IZR steps)) ;;
  improvement <- lift (truediv (IZR (run_improves l)) (IZR steps)) ;;
  ret (run_E l, acceptance, improvement).

(** [while T == 0.0] (lines 254-257); [fuel] bounds the turns. *)
Fixpoint seed_temperature (fuel : nat) (E : R) (step : Z) (T : R) : M (Z * R) :=
  if Reqb T 0 then
    match fuel with
    | O => lift Diverge
    | S fuel' =>
        _ <- call Move (move P) ;;
        E' <- call Energy (energy P) ;;
        seed_temperature fuel' E (step + 1) (Rabs (E' - E))
    end
  else ret (step, T).

(** The variables the three searches of [auto] share. *)
Record Search : Type := {
  s_step : Z;
  s_T : R;
  s_E : R;
  s_acceptance : R;
  s_improvement : R
}.

(** The body the three search loops share (lines 264-267, 269-272,
    277-280), for [T / 1.5] or [T * 1.5]. *)
Definition probe (scale : R -> R) (steps : Z) (s : Search) : M Search :=
  T <- lift (round_figures (scale (s_T s)) 2) ;;
  r <- run T steps ;;
  let '(E, acceptance, improvement) := r in
  let step := s_step s + steps in
  update step T E (Some acceptance) (Some improvement) ;;
  ret {| s_step := step; s_T := T; s_E := E;
         s_acceptance := acceptance; s_improvement := improvement |}.

(** [while continue: probe]; [fuel] bounds the turns. *)
Fixpoint search (fuel : nat) (continue : Search -> bool) (scale : R -> R)
    (steps : Z) (s : Search) : M Search :=
  if continue s then
    match fuel with
    | O => lift Diverge
    | S fuel' => s' <- probe scale steps s ;; search fuel' continue scale steps s'
    end
  else ret s.

(** The dictionary [auto] returns. *)
Record Schedule : Type := {
  sched_tmax : R;
  sched_tmin : R;
  sched_steps : R;
  sched_updates : Z
}.

Definition auto (fuel : nat) (minutes : R) (steps : Z) : M Schedule :=
  let step := 0 in
  now <- draw (time P) ;;
  assign (set_start (Some now)) ;;
  let T := 0%R in
  E <- call Energy (energy P) ;;
  update step T E None None ;;
  seeded <- seed_temperature fuel E step T ;;
  let '(step, T) := seeded in
  r <- run T steps ;;
  let '(E, acceptance, improvement) := r in
  let step := step + steps in
  s <- search fuel (fun s => Rltb (98 / 100) (s_acceptance s)) (fun T => (T / (15 / 10))%R)
         steps {| s_step := step; s_T := T; s_E := E;
                  s_acceptance := acceptance; s_improvement := improvement |} ;;
  s <- search fuel (fun s => Rltb (s_acceptance s) (98 / 100)) (fun T => (T * (15 / 10))%R)
         steps s ;;
  let Tmax := s_T s in
  s <- search fuel (fun s => Rltb 0 (s_improvement s)) (fun T => (T / (15 / 10))%R)
         steps s ;;
  let Tmin := s_T s in
  now <- draw (time P) ;;
  began <- gets start ;;
  began <- lift (number began) ;;
  let elapsed := (now - began)%R in
  per_run <- lift (truediv (60 * minutes * IZR (s_step s)) elapsed) ;;
  duration <- lift (round_figures (IZR (py_int per_run)) 2) ;;
  updates <- match updates_attr P with
             | Some u => ret u
             | None => raise (AttributeError "updates")
             end ;;
  ret {| sched_tmax := Tmax; sched_tmin := Tmin; sched_steps := duration;
         sched_updates := updates |}.

End Driver.

Arguments Locals : clear implicits.
Arguments RunLocals : clear implicits.

(** ** The specification's wording of the Metropolis test *)

(** "[dE > 0] and the random value drawn is not less than
    [exp(-dE / T)]". *)
Definition claimed_rejection (dE T r : R) : Prop :=
  (0 < dE)%R /\ ~ (r < exp (- dE / T))%R.

(** ** What the driver expects of the problem *)

(** The three ways of copying a state give, when they give anything, a
    state equal to the one copied (docstring of [copy_state]). *)
Definition exact_copies {St Env : Type} (P : Problem St Env) : Prop :=
  forall s s',
    (deepcopy P s = Ok s' -> s' = s) /\
    (slice P s = Ok s' -> s' = s) /\
    (copy_method P s = Ok s' -> s' = s).

(** [revert], where the subclass has it, leaves the state object alone. *)
Definition revert_keeps_state {St Env : Type} (P : Problem St Env) : Prop :=
  forall h s e, revert P = Some h -> snd (fst (h s e)) = s.

(** At the head of the loop: the working state is the last accepted
    snapshot and the running energy the last accepted one. *)
Definition synced {St Env : Type} (l : Locals St) (w : World St Env) : Prop :=
  state (self w) = prevState l /\ E l = prevEnergy l.

(** The problem's methods and copy operations always answer. *)
Definition terminating {St Env : Type} (P : Problem St Env) : Prop :=
  (forall s e, fst (fst (move P s e)) <> Diverge) /\
  (forall s e, fst (fst (energy P s e)) <> Diverge) /\
  (forall h s e, revert P = Some h -> fst (fst (h s e)) <> Diverge) /\
  (forall s, deepcopy P s <> Diverge /\ slice P s <> Diverge /\
             copy_method P s <> Diverge).

(** A computation that answers, with a value or an exception. *)
Definition total {St Env A : Type} (m : M St Env A) : Prop :=
  forall w, fst (m w) <> Diverge.

(** ** What a trace shows *)

(** Neither the opening nor the closing of a file. *)
Definition no_file_event (e : event) : Prop :=
  forall path, e <> Open path /\ e <> Close path.

(** Every file the trace opens, it also closes. *)
Definition closes_its_files (tr : list event) : Prop :=
  forall path, In (Open path) tr -> In (Close path) tr.

(** Not the logger's line for a rejected move. *)
Definition no_REJ (e : event) : Prop :=
  forall n a b, e <> Debug (StepLine n a b REJ).

(** The trace holds the logger's line for a rejected move. *)
Definition logs_REJ (tr : list event) : Prop :=
  exists n a b, In (Debug (StepLine n a b REJ)) tr.

(** ** Relations between the worlds of a run *)

Section WorldRelations.

Context {St Env : Type}.
Local Abbreviation World := (World St Env).

(** The world a computation ends in, whether it returns, raises or runs
    out of turns, is related to the one it started in. *)
Definition always (Rel : World -> World -> Prop) {A : Type} (m : M St Env A) : Prop :=
  forall w, Rel w (snd (m w)).

(** The trace has grown by events that all satisfy [Q]. *)
Definition emits (Q : event -> Prop) (w w' : World) : Prop :=
  exists d, trace w' = (trace w ++ d)%list /\ Forall Q d.

(** The object is as it was. *)
Definition same_self (w w' : World) : Prop := self w' = self w.

(** [self.params] is as it was. *)
Definition same_params (w w' : World) : Prop := params (self w') = params (self w).

(** [self.state] is as it was. *)
Definition same_state (w w' : World) : Prop := state (self w') = state (self w).

(** [self.best_energy], once a number, stays one and does not rise. *)
Definition best_down (w w' : World) : Prop :=
  forall b, best_energy (self w) = Some b ->
            exists b', best_energy (self w') = Some b' /\ (b' <= b)%R.

(** The world in which [anneal(p)] raises for [tmin <= 0]: [self.params]
    and [self.start] are set, the clock has been read, and the trace
    file, if one is configured, has been opened and given its header. *)
Definition refused (P : Problem St Env) (p : AnnealerParams) (w : World) : World :=
  let '(now, e) := time P (env w) in
  {| self := set_start (Some now) (set_params p (self w));
     env := e;
     trace := if negb (output_file p =? "")
              then (trace w ++ [Open (output_file p)])
                     ++ [Write (output_file p) Header]
              else trace w |}.

End WorldRelations.

(** ** Checks over a range of ints *)

(** [f] holds of every int from 0 up to [n], [n] excluded. *)
Fixpoint below (n : nat) (f : Z -> bool) : bool :=
  match n with
  | O => true
  | S n' => f (Z.of_nat n') && below n' f
  end.

(** ** What a completed run shows in its trace *)

Definition is_call (m : method) (e : event) : bool :=
  match e, m with
  | Call Move, Move | Call Energy, Energy | Call Revert, Revert => true
  | _, _ => false
  end.

Definition is_write (e : event) : bool :=
  match e with Write _ _ => true | _ => false end.

Definition is_step_line (e : event) : bool :=
  match e with Debug (StepLine _ _ _ _) => true | _ => false end.

Definition is_REJ_line (e : event) : bool :=
  match e with Debug (StepLine _ _ _ REJ) => true | _ => false end.

(** How many events of a trace satisfy [Q]. *)
Definition count (Q : event -> bool) (tr : list event) : nat :=
  List.length (filter Q tr).

(** [if f is not None: f.write(t)] for each [t] in turn. *)
Definition file_records (f : option string) (ts : list text) : list event :=
  match f with
  | Some path => map (Write path) ts
  | None => []
  end.

(** The flag lines 188 and 196 write. *)
Definition flag (v : verdict) : bool :=
  match v with ACC => true | REJ => false end.

(** The events of one turn of the loop of [anneal] that completes: the
    move, the row of the trace file, the logger's line, the flag in the
    file, the call of [revert] after a rejection, and what [update]
    logged. *)
Definition turn_events (f : option string) (row best : text) (line : record)
    (v : verdict) (info : list event) : list event :=
  ([Call Move] ++ file_records f [row; best] ++ [Debug line]
   ++ file_records f [Accepted (flag v)]
   ++ (match v with REJ => [Call Revert] | ACC => [] end) ++ info)%list.

(** Nothing, or one record of the logger at level INFO. *)
Definition at_most_one_info (info : list event) : Prop :=
  info = [] \/ exists r, info = [Info r].

(** The events of turn number [n] with trace file [f]. *)
Definition turn (f : option string) (n : Z) (d : list event) : Prop :=
  exists T prevE E b v info,
    d = turn_events f
          (Row n (py_round_to T 4) (py_round_to prevE 3) (py_round_to E 3))
          (Best (py_round_to b 2))
          (StepLine n (py_round_to prevE 2) (py_round_to E 2) v) v info /\
    at_most_one_info info.

(** The events before the loop: the file opened and given its header, the
    initial energy computed and logged, the column names logged. *)
Definition prologue (f : option string) (E0 : R) : list event :=
  ((match f with Some path => [Open path] | None => [] end)
   ++ file_records f [Header]
   ++ [Call Energy; Debug (StartEnergy (py_round_to E0 2)); Debug ColumnNames])%list.

(** ** Loop invariants of [anneal] *)

(** The counters of the acceptance statistics. *)
Definition counters_ok {St : Type} (l : Locals St) : Prop :=
  0 <= improves l <= accepts l /\ accepts l <= trials l.

(** The running energy is the last accepted one, and the best energy on
    record is no greater. *)
Definition best_tracks {St Env : Type} (l : Locals St) (w : World St Env) : Prop :=
  E l = prevEnergy l /\
  exists b, best_energy (self w) = Some b /\ (b <= prevEnergy l)%R.

(** ** A problem whose methods return *)

(** The copy operation the strategy [c] selects, if [c] names one. *)
Definition copier {St Env : Type} (P : Problem St Env) (c : string)
  : option (St -> result St) :=
  if c =? "deepcopy" then Some (deepcopy P)
  else if c =? "slice" then Some (slice P)
  else if c =? "method" then Some (copy_method P)
  else None.

(** [move], [energy] and [revert] are defined and return, and so does the
    copy operation of strategy [c]. *)
Definition returns {St Env : Type} (P : Problem St Env) (c : string) : Prop :=
  (forall s e, exists dE s' e', move P s e = (Ok dE, s', e')) /\
  (forall s e, exists E0 s' e', energy P s e = (Ok E0, s', e')) /\
  (exists h, revert P = Some h /\ forall s e, exists s' e', h s e = (Ok tt, s', e')) /\
  (exists copy, copier P c = Some copy /\ forall s, exists s', copy s = Ok s').

(** The events of consecutive turns, numbered from [n + 1]. *)
Fixpoint turns (f : option string) (n : Z) (ds : list (list event)) : Prop :=
  match ds with
  | [] => True
  | d :: ds' => turn f (n + 1) d /\ turns f (n + 1) ds'
  end.

(** What a trace wrote into files, in order. *)
Definition written (tr : list event) : list text :=
  flat_map (fun e => match e with Write _ t => [t] | _ => [] end) tr.

(** The records of consecutive turns in the trace file, numbered from
    [n + 1]: the row, the best energy, the flag. *)
Fixpoint rows_from (n : Z) (rows : list (list text)) : Prop :=
  match rows with
  | [] => True
  | r :: rows' =>
      (exists T prevE E b a, r = [Row (n + 1) T prevE E; Best b; Accepted a]) /\
      rows_from (n + 1) rows'
  end.

(** Percentages the logger can show: the improvement within the
    acceptance, the acceptance within 100. *)
Definition rates_ok (e : event) : Prop :=
  match e with
  | Info (Progress _ _ acc imp _ _) => (0 <= imp <= acc)%R /\ (acc <= 100)%R
  | _ => True
  end.

(** What a turn of the loop of [anneal(p)] relies on at its head. *)
Definition loop_ready {St Env : Type} (p : AnnealerParams) (l : Locals St)
    (w : World St Env) : Prop :=
  params (self w) = p /\ start (self w) <> None /\
  best_energy (self w) <> None /\ best_state (self w) <> None /\
  updateWavelength l
  = (if (0 <? updates p)%Z then Some (IZR (steps p) / IZR (updates p))%R else None) /\
  0 <= step l /\ counters_ok l.

(** A landscape without relief: every state has the energy [E0]; [move]
    and [energy] return. *)
Definition plateau {St Env : Type} (P : Problem St Env) (E0 : R) : Prop :=
  (forall s e, exists dE s' e', move P s e = (Ok dE, s', e')) /\
  (forall s e, exists s' e', energy P s e = (Ok E0, s', e')).

(** ** A problem to run the driver on

    The one-dimensional walk of the specification's scenarios: the state
    is an integer [x], the energy is [x * x], a move steps one up or one
    down.  The subclass defines [move] and [energy] and nothing else. *)

Module Walk.

(** The pseudorandom stream, as the values still to be handed out: the
    directions [move] will take and the numbers [random.random()] will
    return; and the clock. *)
Record Env : Type := {
  coins : list bool;
  draws : list R;
  clock : R
}.

Definition go : hook R := fun (x : Z) (e : Env) =>
  let up := match coins e with c :: _ => c | [] => true end in
  let x' := if up then x + 1 else x - 1 in
  (Ok (IZR (x' * x' - x * x)), x',
   {| coins := tl (coins e); draws := draws e; clock := clock e |}).

Definition square : hook R := fun (x : Z) (e : Env) => (Ok (IZR (x * x)), x, e).

Definition next_draw (e : Env) : R * Env :=
  (match draws e with r :: _ => r | [] => 0%R end,
   {| coins := coins e; draws := tl (draws e); clock := clock e |}).

Definition now (e : Env) : R * Env :=
  (clock e, {| coins := coins e; draws := draws e; clock := (clock e + 1)%R |}).

(** The subclass; [undo] is what it defines under the name [revert], if
    anything.  An int can be deep-copied; it has no slices and no [copy]
    method. *)
Definition subclass (undo : option (hook unit)) : Problem Z Env := {|
  move := go;
  energy := square;
  revert := undo;
  updates_attr := None;
  deepcopy := fun x => Ok x;
  slice := fun _ => Raise TypeError;
  copy_method := fun _ => Raise (AttributeError "copy");
  random := next_draw;
  time := now
|}.

(** The walk as a subclass with [move] and [energy] only. *)
Definition problem : Problem Z Env := subclass None.

(** The walk in a subclass that also defines [revert], as a method that
    does nothing. *)
Definition with_revert : Problem Z Env :=
  subclass (Some (fun x e => (Ok tt, x, e))).

(** [Annealer.__init__(x)] (lines 50-55). *)
Definition init (x : Z) : Annealer Z := {|
  params := mkParams 50000 25000 (25 / 10);
  best_state := None;
  best_energy := None;
  start := None;
  state := x
|}.

Definition world (x : Z) (coins : list bool) (draws : list R) : World Z Env := {|
  self := init x;
  env := {| coins := coins; draws := draws; clock := 0 |};
  trace := []
|}.

(** One step at constant temperature 1, no progress updates, no trace file. *)
Definition one_step : AnnealerParams := {|
  steps := 1; tmax := 1; tmin := 1; copy_strategy := "deepcopy";
  pos := 0; updates := 0; output_file := ""
|}.

(** No step at all, and a trace file. *)
Definition traced : AnnealerParams := {|
  steps := 0; tmax := 1; tmin := 1; copy_strategy := "deepcopy";
  pos := 0; updates := 0; output_file := "trace.csv"
|}.

(** Where [anneal(one_step)] stands when it reaches its loop from
    [world x coins draws]: the local variables and the world. *)
Definition at_loop (x : Z) : Locals Z := {|
  f := None; Tfactor := (- ln (1 / 1))%R; updateWavelength := None;
  step := 0; T := 1; E := IZR (x * x);
  prevState := x; prevEnergy := IZR (x * x);
  trials := 0; accepts := 0; improves := 0
|}.

Definition started (x : Z) (coins : list bool) (draws : list R) : World Z Env := {|
  self := {| params := one_step; best_state := Some x;
             best_energy := Some (IZR (x * x)); start := Some 0%R; state := x |};
  env := {| coins := coins; draws := draws; clock := 0 + 1 |};
  trace := [Call Energy; Debug (StartEnergy (py_round_to (IZR (x * x)) 2));
            Debug ColumnNames]
|}.

(** A world in the middle of [auto]: the parameters are those of
    [__init__], the clock was started at 0. *)
Definition probing (x : Z) (coins : list bool) (draws : list R) (clock : R)
    (trace : list event) : World Z Env := {|
  self := {| params := mkParams 50000 25000 (25 / 10); best_state := None;
             best_energy := None; start := Some 0%R; state := x |};
  env := {| coins := coins; draws := draws; clock := clock |};
  trace := trace
|}.

(** A world whose parameters name a copy strategy that does not exist. *)
Definition misconfigured : World Z Env := {|
  self := {| params := {| steps := 1; tmax := 1; tmin := 1; copy_strategy := "shallow";
                          pos := 0; updates := 0; output_file := "" |};
             best_state := None; best_energy := None; start := None; state := 0 |};
  env := {| coins := []; draws := []; clock := 0 |};
  trace := []
|}.

(** Parameters with a minimum temperature of zero. *)
Definition frozen : AnnealerParams := {|
  steps := 1; tmax := 1; tmin := 0; copy_strategy := "deepcopy";
  pos := 0; updates := 0; output_file := ""
|}.

(** One step, with a trace file and two progress updates. *)
Definition logged : AnnealerParams := {|
  steps := 1; tmax := 1; tmin := 1; copy_strategy := "deepcopy";
  pos := 0; updates := 2; output_file := "trace.csv"
|}.

(** Parameters with a maximum temperature of zero. *)
Definition cold : AnnealerParams := {|
  steps := 1; tmax := 0; tmin := 1; copy_strategy := "deepcopy";
  pos := 0; updates := 0; output_file := ""
|}.

(** The walk on level ground: every position has the energy 0. *)
Definition level : Problem Z Env := {|
  move := go;
  energy := fun (x : Z) (e : Env) => (Ok 0%R, x, e);
  revert := None;
  updates_attr := None;
  deepcopy := fun x => Ok x;
  slice := fun _ => Raise TypeError;
  copy_method := fun _ => Raise (AttributeError "copy");
  random := next_draw;
  time := now
|}.

(** The walk in a subclass that defines [revert], as a method that does
    nothing, and an attribute [updates]. *)
Definition scheduled : Problem Z Env := {|
  move := go;
  energy := square;
  revert := Some (fun x e => (Ok tt, x, e));
  updates_attr := Some 100;
  deepcopy := fun x => Ok x;
  slice := fun _ => Raise TypeError;
  copy_method := fun _ => Raise (AttributeError "copy");
  random := next_draw;
  time := now
|}.

End Walk.

(** * Properties *)

(** ** Comparisons and rounding *)

Module NumFacts.

Lemma Rltb_true x y : Rltb x y = true <-> (x < y)%R.
Proof. unfold Rltb; destruct (Rlt_dec x y); split; intros; try easy. Qed.

Lemma Rltb_false x y : Rltb x y = false <-> (y <= x)%R.
Proof.
  unfold Rltb; destruct (Rlt_dec x y); split; intros; try easy; lra.
Qed.

Lemma Rleb_true x y : Rleb x y = true <-> (x <= y)%R.
Proof. unfold Rleb; destruct (Rle_dec x y); split; intros; try easy. Qed.

Lemma Rleb_false x y : Rleb x y = false <-> (y < x)%R.
Proof.
  unfold Rleb; destruct (Rle_dec x y); split; intros; try easy; lra.
Qed.

Lemma Reqb_true x y : Reqb x y = true <-> x = y.
Proof. unfold Reqb; destruct (Req_dec_T x y); split; intros; try easy. Qed.

Lemma Reqb_false x y : Reqb x y = false <-> x <> y.
Proof. unfold Reqb; destruct (Req_dec_T x y); split; intros; try easy. Qed.

Lemma py_round_IZR (z : Z) : py_round (IZR z) = z.
Proof.
  unfold py_round. rewrite ZfloorZ.
  assert (H : Rltb (IZR z - IZR z) (1 / 2) = true) by (apply Rltb_true; lra).
  now rewrite H.
Qed.

End NumFacts.
Import NumFacts.

(** ** How computations in the monad run *)

Section MonadFacts.

Context {St Env : Type}.
Local Abbreviation M := (M St Env).
Local Abbreviation World := (World St Env).

Lemma bind_Ok {A B} (m : M A) (k : A -> M B) (w w' : World) (b : B) :
  bind m k w = (Ok b, w') ->
  exists a w1, m w = (Ok a, w1) /\ k a w1 = (Ok b, w').
Proof.
  unfold bind. destruct (m w) as [[a | e |] w1]; intros H; try discriminate.
  now exists a, w1.
Qed.

Lemma bind_run_Ok {A B} (m : M A) (k : A -> M B) (w w1 : World) (a : A) :
  m w = (Ok a, w1) -> bind m k w = k a w1.
Proof. unfold bind. now intros ->. Qed.

Lemma bind_run_Raise {A B} (m : M A) (k : A -> M B) (w w1 : World) (e : exn) :
  m w = (Raise e, w1) -> bind m k w = (Raise e, w1).
Proof. unfold bind. now intros ->. Qed.

Lemma lift_Ok {A} (r : result A) (w w' : World) (a : A) :
  lift r w = (Ok a, w') -> r = Ok a /\ w' = w.
Proof. unfold lift. intros H. now inversion H. Qed.

End MonadFacts.

(** A run that returned is taken apart into the runs of its parts. *)
Ltac invert_run H :=
  cbv beta in H;
  lazymatch type of H with
  | bind _ _ _ = (Ok _, _) =>
      let a := fresh "a" in
      let w := fresh "w" in
      let H1 := fresh "Hm" in
      let H2 := fresh "Hk" in
      apply bind_Ok in H; destruct H as (a & w & H1 & H2);
      invert_run H1; invert_run H2
  | gets _ _ = (Ok _, _) => unfold gets in H; injection H as <- <-
  | ret _ _ = (Ok _, _) => unfold ret in H; injection H as <- <-
  | assign _ _ = (Ok _, _) => unfold assign in H; injection H as H; subst
  | emit _ _ = (Ok _, _) => unfold emit in H; injection H as H; subst
  | raise _ _ = (Ok _, _) => discriminate H
  | lift _ _ = (Ok _, _) => apply lift_Ok in H; destruct H as [H ?]; subst
  | draw ?src ?w = (Ok _, _) =>
      unfold draw in H; destruct (src (env w)) eqn:?; injection H as <- <-
  | call _ ?h ?w = (Ok _, _) =>
      unfold call in H; destruct (h (state (self w)) (env w)) as [[? ?] ?] eqn:?;
      injection H as -> <-
  | _ => idtac
  end.

(** All the runs among the hypotheses that returned are taken apart. *)
Ltac invert_runs :=
  repeat match goal with
         | H : bind _ _ _ = (Ok _, _) |- _ => invert_run H
         | H : gets _ _ = (Ok _, _) |- _ => invert_run H
         | H : ret _ _ = (Ok _, _) |- _ => invert_run H
         | H : assign _ _ = (Ok _, _) |- _ => invert_run H
         | H : emit _ _ = (Ok _, _) |- _ => invert_run H
         | H : raise _ _ = (Ok _, _) |- _ => invert_run H
         | H : lift _ _ = (Ok _, _) |- _ => invert_run H
         | H : draw _ _ = (Ok _, _) |- _ => invert_run H
         | H : call _ _ _ = (Ok _, _) |- _ => invert_run H
         end.

(** ** What every outcome of a method respects *)

Section Always.

Context {St Env : Type}.
Variable P : Problem St Env.
Variable Rel : World St Env -> World St Env -> Prop.
Context {Rel_refl : Reflexive Rel} {Rel_trans : Transitive Rel}.


Lemma always_ret {A} (a : A) : always Rel (ret a).
Proof. intros w. apply Rel_refl. Qed.

Lemma always_raise {A} (e : exn) : always Rel (@raise St Env A e).
Proof. intros w. apply Rel_refl. Qed.

Lemma always_lift {A} (r : result A) : always Rel (lift r).
Proof. intros w. apply Rel_refl. Qed.

Lemma always_gets {A} (f : Annealer St -> A) : always Rel (gets f).
Proof. intros w. apply Rel_refl. Qed.

Lemma always_bind {A B} (m : M St Env A) (k : A -> M St Env B) :
  always Rel m -> (forall a, always Rel (k a)) -> always Rel (bind m k).
Proof.
  intros Hm Hk w. unfold bind. specialize (Hm w).
  destruct (m w) as [[a | e |] w1]; cbn in *; try assumption.
  eapply Rel_trans; [eassumption | apply Hk].
Qed.

(** The effects of the driver; a relation allows some of them. *)
Hypothesis Rel_draw : forall src, always Rel (draw src).
Hypothesis Rel_call : forall A m (h : hook A), always Rel (call m h).
Hypothesis Rel_write : forall path t, always Rel (emit (Write path t)).
Hypothesis Rel_log : forall r, always Rel (emit (Info r)).
Hypothesis Rel_start_energy : forall E, always Rel (emit (Debug (StartEnergy E))).
Hypothesis Rel_column_names : always Rel (emit (Debug ColumnNames)).
Hypothesis Rel_ACC : forall n a b, always Rel (emit (Debug (StepLine n a b ACC))).
Hypothesis Rel_REJ : forall n a b, always Rel (emit (Debug (StepLine n a b REJ))).
Hypothesis Rel_set_state : forall s, always Rel (assign (set_state s)).
Hypothesis Rel_set_start : forall t, always Rel (assign (set_start t)).
Hypothesis Rel_set_best_state : forall b, always Rel (assign (set_best_state b)).
Hypothesis Rel_set_best_energy : forall b, always Rel (assign (set_best_energy b)).
Hypothesis Rel_keep_best : forall E, always Rel (keep_best P E).

Ltac always_step :=
  first [ apply always_ret | apply always_raise | apply always_lift | apply always_gets
        | apply Rel_draw | apply Rel_call | apply Rel_write | apply Rel_log
        | apply Rel_start_energy | apply Rel_column_names | apply Rel_ACC | apply Rel_REJ
        | apply Rel_set_state | apply Rel_set_start | apply Rel_set_best_state
        | apply Rel_set_best_energy | apply Rel_keep_best ].

Ltac always_seq tac :=
  repeat first
    [ apply always_bind; [first [always_step | tac] | intros]
    | always_step | tac ].

Lemma always_copy_state (s : St) : always Rel (copy_state P s).
Proof.
  unfold copy_state. apply always_bind; [apply always_gets |].
  intros c. repeat (destruct (_ =? _)%string; [apply always_lift |]).
  apply always_raise.
Qed.

Lemma always_copy_own_state : always Rel (copy_own_state P).
Proof.
  unfold copy_own_state. apply always_bind; [apply always_gets |].
  apply always_copy_state.
Qed.

Lemma always_keep_best' E : always Rel (keep_best P E).
Proof.
  unfold keep_best. always_seq fail.
  destruct (Rltb _ _); always_seq ltac:(apply always_copy_own_state).
Qed.

Lemma always_update step T E acc imp : always Rel (update P step T E acc imp).
Proof.
  unfold update, default_update. always_seq fail.
  destruct (step =? 0)%Z; always_seq fail.
Qed.

Lemma always_call_revert : always Rel (call_revert P).
Proof. unfold call_revert. destruct (revert P); always_step. Qed.

Lemma always_metropolis dE T : always Rel (metropolis P dE T).
Proof. unfold metropolis. destruct (Rltb 0 dE); always_seq fail. Qed.

Lemma always_trace_write f t : always Rel (@trace_write St Env f t).
Proof. destruct f; always_step. Qed.

Lemma always_report l : always Rel (report P l).
Proof.
  unfold report. always_seq fail.
  destruct (1 <? _)%Z; always_seq fail.
  destruct (Rltb _ _); always_seq ltac:(apply always_update).
Qed.

Lemma always_reject l step T E trials : always Rel (reject P l step T E trials).
Proof.
  unfold reject.
  always_seq ltac:(first [apply always_trace_write | apply always_copy_state
                         | apply always_call_revert]).
Qed.

Lemma always_accept l step T E dE trials : always Rel (accept P l step T E dE trials).
Proof.
  unfold accept.
  always_seq ltac:(first [apply always_trace_write | apply always_copy_own_state]).
Qed.

Lemma always_trace_row l step T E : always Rel (trace_row l step T E).
Proof. unfold trace_row. destruct (f l); always_seq fail. Qed.

Lemma always_anneal_step l : always Rel (anneal_step P l).
Proof.
  unfold anneal_step.
  always_seq ltac:(first [apply always_trace_row | apply always_metropolis
                         | apply always_report]).
  apply always_bind; [| intros; apply always_report].
  match goal with |- always Rel (if ?b then _ else _) => destruct b end;
    [apply always_reject | apply always_accept].
Qed.

Lemma always_anneal_loop n : forall l, always Rel (anneal_loop P n l).
Proof.
  induction n as [| n IH]; intros l; cbn [anneal_loop];
    (apply always_bind; [apply always_gets | intros total]);
    destruct (_ <? _)%Z; try apply always_ret.
  - apply always_lift.
  - apply always_bind; [apply always_anneal_step | apply IH].
Qed.

Lemma always_anneal_finish : always Rel (anneal_finish P).
Proof.
  unfold anneal_finish. apply always_bind; [apply always_gets | intros [b |]].
  - always_seq ltac:(apply always_copy_state).
  - apply always_raise.
Qed.

Lemma always_first_update p step T E : always Rel (first_update P p step T E).
Proof.
  unfold first_update. destruct (0 <? _)%Z; always_seq ltac:(apply always_update).
Qed.

Lemma always_anneal_start f : always Rel (anneal_start P f).
Proof.
  unfold anneal_start. always_seq fail.
  destruct (Rleb _ _); [apply always_raise |].
  always_seq ltac:(first [apply always_copy_own_state | apply always_first_update]).
Qed.

End Always.

(** ** [time_string] *)

Lemma time_string_int (z : Z) :
  time_string (IZR z) =
  Fmt.pct_i 4 (z / 3600) ++ ":" ++ Fmt.pct_0i 2 (z mod 3600 / 60) ++ ":"
    ++ Fmt.pct_0i 2 ((z mod 3600) mod 60).
Proof. unfold time_string. now rewrite py_round_IZR. Qed.

Example time_string_59 : time_string 59 = "   0:00:59".
Proof. now rewrite time_string_int. Qed.

Example time_string_360000 : time_string 360000 = " 100:00:00".
Proof. now rewrite time_string_int. Qed.

(** C9, as the code has it: 3661 seconds are one hour, one minute and one
    second, so [time_string(3661)] is ["   1:01:01"]: the hours field holds
    1, right-justified with spaces in four columns; minutes and seconds
    are padded with zeros to two digits. *)
Theorem time_string_3661 : time_string 3661 = "   1:01:01".
Proof.
  unfold time_string. rewrite py_round_IZR.
  unfold divmod. change (3661 / 3600) with 1. change (3661 mod 3600) with 61.
  change (61 / 60) with 1. change (61 mod 60) with 1.
  reflexivity.
Qed.

(** C9, as the claim states it, fails: the string returned for 3661 is not
    ["   0:01:01"]. *)
Lemma time_string_3661_not_zero_hours : time_string 3661 <> "   0:01:01".
Proof. rewrite time_string_int. discriminate. Qed.

(** ** The cooling schedule *)

Section Schedule.

Local Open Scope R_scope.

Lemma cooling_factor_Ok (tmax tmin : R) :
  0 < tmax -> 0 < tmin -> cooling_factor tmax tmin = Ok (- ln (tmax / tmin)).
Proof.
  intros Hmax Hmin. unfold cooling_factor, truediv, math_log.
  assert (Hq : 0 < tmax / tmin) by now apply Rdiv_lt_0_compat.
  rewrite (proj2 (Reqb_false tmin 0)) by lra.
  now rewrite (proj2 (Rleb_false (tmax / tmin) 0)).
Qed.

Lemma temperature_Ok (tmax k : R) (step steps : Z) :
  (steps <> 0)%Z ->
  temperature tmax k step steps = Ok (tmax * exp (k * IZR step / IZR steps)).
Proof.
  intros Hs. unfold temperature, truediv.
  rewrite (proj2 (Reqb_false (IZR steps) 0)); [reflexivity |].
  intros H. now apply eq_IZR_R0 in H.
Qed.

Lemma exp_cooling (tmax tmin : R) :
  0 < tmax -> 0 < tmin -> exp (- ln (tmax / tmin)) = tmin / tmax.
Proof.
  intros Hmax Hmin.
  rewrite exp_Ropp, exp_ln by now apply Rdiv_lt_0_compat.
  field. lra.
Qed.

End Schedule.

(** ** Errors raised before the run starts *)

Section Configuration.

Context {St Env : Type}.
Variable P : Problem St Env.

(** C10: [anneal()] without its argument raises at line 145, where
    [params.output_file] is read from the argument, whatever
    [self.params] holds; the object, the environment and the trace are
    as they were: no file, no clock reading, no call of [energy] or
    [move]. *)
Theorem anneal_without_params (w : World St Env) :
  anneal P None w = (Raise (AttributeError "output_file"), w).
Proof. reflexivity. Qed.

Lemma copy_state_unknown_strategy (s : St) (w : World St Env) :
  let c := copy_strategy (params (self w)) in
  c <> "deepcopy" -> c <> "slice" -> c <> "method" ->
  copy_state P s w = (Raise (RuntimeError c), w).
Proof.
  intros c H1 H2 H3. unfold copy_state, bind, gets. fold c.
  apply String.eqb_neq in H1, H2, H3. now rewrite H1, H2, H3.
Qed.

Lemma anneal_refuses_tmin (p : AnnealerParams) (w : World St Env) :
  (tmin p <= 0)%R -> anneal P (Some p) w = (Raise Exception, refused P p w).
Proof.
  intros H. apply Rleb_true in H.
  unfold anneal, anneal_init, anneal_start, open_trace, refused, bind, assign, ret, gets,
    emit, draw, raise.
  cbn. destruct (negb (output_file p =? "")); cbn;
    destruct (time P (env w)) as [now e]; cbn; now rewrite H.
Qed.

(** C6: [copy_state] raises its [RuntimeError] for every copy strategy
    other than "deepcopy", "slice" and "method", changing nothing; and
    [anneal(p)] with [tmin <= 0] raises the exception of line 156 with
    [state], [best_state] and [best_energy] as they were and without a
    call of [energy], [move] or [revert]: the trace gains at most the
    opening of the trace file and its header. *)
Theorem configuration_errors (w : World St Env) :
  (forall s,
      let c := copy_strategy (params (self w)) in
      c <> "deepcopy" -> c <> "slice" -> c <> "method" ->
      copy_state P s w = (Raise (RuntimeError c), w)) /\
  (forall p,
      (tmin p <= 0)%R ->
      exists w',
        anneal P (Some p) w = (Raise Exception, w') /\
        state (self w') = state (self w) /\
        best_state (self w') = best_state (self w) /\
        best_energy (self w') = best_energy (self w) /\
        exists files,
          trace w' = (trace w ++ files)%list /\
          forall m, ~ In (Call m) files).
Proof.
  split.
  - intros s. apply copy_state_unknown_strategy.
  - intros p H. exists (refused P p w).
    split; [now apply anneal_refuses_tmin |].
    unfold refused. destruct (time P (env w)) as [now e]. cbn.
    repeat split.
    destruct (negb (output_file p =? "")).
    + exists [Open (output_file p); Write (output_file p) Header].
      split; [now rewrite <- app_assoc |].
      intros m [H1 | [H1 | []]]; discriminate.
    + exists []. split; [now rewrite app_nil_r | intros m []].
Qed.

End Configuration.

Lemma configuration_errors_witness :
  copy_state Walk.problem 7 Walk.misconfigured
  = (Raise (RuntimeError "shallow"), Walk.misconfigured) /\
  exists w',
    anneal Walk.problem (Some Walk.frozen) (Walk.world 3 [true] [])
    = (Raise Exception, w') /\
    state (self w') = 3 /\ best_state (self w') = None /\ best_energy (self w') = None.
Proof.
  split.
  - apply (proj1 (configuration_errors Walk.problem Walk.misconfigured) 7);
      discriminate.
  - destruct (proj2 (configuration_errors Walk.problem (Walk.world 3 [true] []))
                Walk.frozen) as (w' & H & Hs & Hbs & Hbe & _).
    + cbn. lra.
    + exists w'. repeat split; assumption.
Defined.

(** ** Three relations between the worlds of a run *)

Section Relations.

Context {St Env : Type}.
Local Abbreviation World := (World St Env).

#[export] Instance emits_refl Q : Reflexive (@emits St Env Q).
Proof. intros w. exists []. split; [now rewrite app_nil_r | constructor]. Qed.

#[export] Instance emits_trans Q : Transitive (@emits St Env Q).
Proof.
  intros w1 w2 w3 (d1 & H1 & F1) (d2 & H2 & F2). exists (d1 ++ d2)%list.
  split; [now rewrite H2, H1, app_assoc | now apply Forall_app].
Qed.

#[export] Instance same_self_refl : Reflexive (@same_self St Env).
Proof. now intros w. Qed.

#[export] Instance same_self_trans : Transitive (@same_self St Env).
Proof. unfold same_self. intros w1 w2 w3 H1 H2. now rewrite H2. Qed.

#[export] Instance same_params_refl : Reflexive (@same_params St Env).
Proof. now intros w. Qed.

#[export] Instance same_params_trans : Transitive (@same_params St Env).
Proof. unfold same_params. intros w1 w2 w3 H1 H2. now rewrite H2. Qed.

#[export] Instance same_state_refl : Reflexive (@same_state St Env).
Proof. now intros w. Qed.

#[export] Instance same_state_trans : Transitive (@same_state St Env).
Proof. unfold same_state. intros w1 w2 w3 H1 H2. now rewrite H2. Qed.

#[export] Instance best_down_refl : Reflexive (@best_down St Env).
Proof. intros w b H. exists b. split; [assumption | lra]. Qed.

#[export] Instance best_down_trans : Transitive (@best_down St Env).
Proof.
  intros w1 w2 w3 H1 H2 b Hb.
  destruct (H1 b Hb) as (b' & Hb' & Hle).
  destruct (H2 b' Hb') as (b'' & Hb'' & Hle').
  exists b''. split; [assumption | lra].
Qed.

Lemma emits_emit Q e : Q e -> always (@emits St Env Q) (emit e).
Proof. intros H w. exists [e]. split; [reflexivity | now constructor]. Qed.

Lemma emits_assign Q f : always (@emits St Env Q) (assign f).
Proof. intros w. exists []. cbn. now rewrite app_nil_r. Qed.

Lemma emits_draw Q src : always (@emits St Env Q) (draw src).
Proof.
  intros w. unfold draw. destruct (src (env w)) as [x e].
  exists []. cbn. now rewrite app_nil_r.
Qed.

Lemma emits_call Q A m (h : hook A) : Q (Call m) -> always (@emits St Env Q) (call m h).
Proof.
  intros H w. unfold call. destruct (h _ _) as [[r s] e].
  exists [Call m]. split; [reflexivity | now constructor].
Qed.

Lemma same_self_emit e : always (@same_self St Env) (emit e).
Proof. now intros w. Qed.

Lemma same_self_draw src : always (@same_self St Env) (draw src).
Proof. intros w. unfold draw. now destruct (src (env w)). Qed.

Lemma same_state_emit e : always (@same_state St Env) (emit e).
Proof. now intros w. Qed.

Lemma same_state_draw src : always (@same_state St Env) (draw src).
Proof. intros w. unfold draw. now destruct (src (env w)). Qed.

Lemma same_state_set_best_state b : always (@same_state St Env) (assign (set_best_state b)).
Proof. now intros w. Qed.

Lemma same_state_set_best_energy b : always (@same_state St Env) (assign (set_best_energy b)).
Proof. now intros w. Qed.

Lemma best_down_emit e : always (@best_down St Env) (emit e).
Proof. intros w. apply (best_down_refl w). Qed.

Lemma best_down_draw src : always (@best_down St Env) (draw src).
Proof.
  intros w. unfold draw. destruct (src (env w)). apply (best_down_refl w).
Qed.

Lemma best_down_call A m (h : hook A) : always (@best_down St Env) (call m h).
Proof.
  intros w. unfold call. destruct (h _ _) as [[r s] e]. apply (best_down_refl w).
Qed.

Lemma best_down_set_state s : always (@best_down St Env) (assign (set_state s)).
Proof. intros w. apply (best_down_refl w). Qed.

End Relations.

(** ** The best energy of a run *)

Section BestEnergy.

Context {St Env : Type}.
Variable P : Problem St Env.
Local Open Scope R_scope.

(** Copying a state changes nothing in the world. *)
Lemma copy_state_world (s : St) (w : World St Env) : snd (copy_state P s w) = w.
Proof.
  unfold copy_state, bind, gets, lift, raise.
  repeat (destruct (_ =? _)%string; [reflexivity |]). reflexivity.
Qed.

Lemma copy_own_state_world (w : World St Env) : snd (copy_own_state P w) = w.
Proof. unfold copy_own_state, bind, gets. apply copy_state_world. Qed.

Lemma best_down_keep_best (E : R) : always best_down (keep_best P E).
Proof.
  intros w b Hb. unfold keep_best, bind, gets, lift, number.
  rewrite Hb. destruct (Rltb E b) eqn:Hlt.
  - pose proof (copy_own_state_world w) as Hw.
    destruct (copy_own_state P w) as [[s | e |] w1]; cbn in Hw; subst w1; cbn.
    + exists E. apply Rltb_true in Hlt. split; [reflexivity | lra].
    + exists b. split; [assumption | lra].
    + exists b. split; [assumption | lra].
  - cbn. exists b. split; [assumption | lra].
Qed.

Lemma best_down_anneal_step (l : Locals St) : always best_down (anneal_step P l).
Proof.
  apply always_anneal_step;
    auto using best_down_emit, best_down_draw, best_down_call, best_down_set_state,
      best_down_keep_best with typeclass_instances.
Qed.

Lemma best_down_anneal_loop (n : nat) (l : Locals St) :
  always best_down (anneal_loop P n l).
Proof.
  apply always_anneal_loop;
    auto using best_down_emit, best_down_draw, best_down_call, best_down_set_state,
      best_down_keep_best with typeclass_instances.
Qed.

End BestEnergy.

Section BestEnergyOfARun.

Context {St Env : Type}.
Variable P : Problem St Env.
Local Open Scope R_scope.

Lemma same_self_update step T E acc imp :
  always same_self (update P step T E acc imp).
Proof.
  apply always_update;
    auto using same_self_emit, same_self_draw with typeclass_instances.
Qed.

Lemma copy_own_state_Ok (w w' : World St Env) (s : St) :
  copy_own_state P w = (Ok s, w') -> w' = w.
Proof. intros H. pose proof (copy_own_state_world P w) as Hw. now rewrite H in Hw. Qed.

Lemma copy_state_Ok (w w' : World St Env) (s s' : St) :
  copy_state P s w = (Ok s', w') -> w' = w.
Proof. intros H. pose proof (copy_state_world P s w) as Hw. now rewrite H in Hw. Qed.

Lemma same_self_first_update p step T E :
  always same_self (first_update P p step T E).
Proof.
  apply always_first_update;
    auto using same_self_emit, same_self_draw with typeclass_instances.
Qed.

(** When the lines before the loop complete, [self.best_energy] and the
    running energy are the value [energy()] gave for the state the run
    started from, at the only call made so far. *)
Lemma anneal_start_Ok f w l0 w0 :
  anneal_start P f w = (Ok l0, w0) ->
  best_energy (self w0) = Some (E l0) /\
  fst (fst (energy P (state (self w)) (snd (time P (env w))))) = Ok (E l0).
Proof.
  unfold anneal_start. intros H.
  invert_run H.
  destruct (Rleb _ _); [discriminate |].
  invert_run Hk. subst.
  repeat match goal with
         | H : copy_own_state _ _ = (Ok _, _) |- _ =>
             apply copy_own_state_Ok in H; subst
         end.
  match goal with
  | H : first_update _ ?p ?n ?T ?E ?w1 = (Ok _, _) |- _ =>
      pose proof (same_self_first_update p n T E w1) as Hself;
      rewrite H in Hself; unfold same_self in Hself
  end.
  cbn in *. rewrite Hself. cbn. split; [reflexivity |].
  match goal with H : energy P _ _ = _ |- _ => now rewrite H end.
Qed.

Lemma anneal_init_Ok p w l0 w0 :
  anneal_init P (Some p) w = (Ok l0, w0) ->
  best_energy (self w0) = Some (E l0) /\
  fst (fst (energy P (state (self w)) (snd (time P (env w))))) = Ok (E l0).
Proof.
  unfold anneal_init, open_trace. intros H. invert_run H.
  destruct (negb _); invert_run Hm; now apply anneal_start_Ok in Hk.
Qed.

Lemma anneal_finish_Ok w bs be w' :
  anneal_finish P w = (Ok (bs, be), w') ->
  be = best_energy (self w) /\ best_energy (self w') = best_energy (self w).
Proof.
  unfold anneal_finish. intros H. invert_run H.
  destruct (best_state (self w)); invert_run Hk.
  apply copy_state_Ok in Hm. subst. now split.
Qed.

(** C4: when [anneal(p)] returns [(best_state, best_energy)], the energy
    returned is a number not above [E0], the value [energy()] gave for
    the state the run started from (its first call, before any move);
    and [self.best_energy <= E0] holds when the loop is reached and
    after any number [n] of its turns, however the [n]-th turn ended. *)
Theorem best_energy_le_initial p w bs be w' :
  anneal P (Some p) w = (Ok (bs, be), w') ->
  exists E0 b,
    fst (fst (energy P (state (self w)) (snd (time P (env w))))) = Ok E0 /\
    be = Some b /\ best_energy (self w') = Some b /\ b <= E0 /\
    exists l0 w0,
      anneal_init P (Some p) w = (Ok l0, w0) /\
      best_energy (self w0) = Some E0 /\
      forall n, exists bn,
        best_energy (self (snd (anneal_loop P n l0 w0))) = Some bn /\ bn <= E0.
Proof.
  unfold anneal. intros H. invert_run H.
  match goal with
  | Hinit : anneal_init _ _ _ = (Ok ?l0, ?w0),
    Hloop : anneal_loop _ ?n _ _ = (Ok _, ?w1),
    Hfin : anneal_finish _ _ = _ |- _ =>
      destruct (anneal_init_Ok _ _ _ _ Hinit) as [Hbest HE0];
      pose proof (best_down_anneal_loop P n l0 w0 _ Hbest) as (b & Hb & Hle);
      rewrite Hloop in Hb; cbn in Hb;
      apply anneal_finish_Ok in Hfin; destruct Hfin as [-> Hfin];
      exists (E l0), b; repeat split; try assumption;
      [ now rewrite Hfin
      | exists l0, w0; repeat split; try assumption;
        intros k; exact (best_down_anneal_loop P k l0 w0 _ Hbest) ]
  end.
Qed.

End BestEnergyOfARun.

(** ** Runs of the walk *)

Ltac unfold_M := unfold bind, assign, ret, gets, emit, draw, raise, lift, call.

Section WalkRuns.

Local Open Scope R_scope.

Lemma one_step_temperature : 1 * exp (- ln (1 / 1) * 1 / 1) = 1.
Proof.
  replace (1 / 1) with 1 by field. rewrite ln_1.
  replace (- 0 * 1 / 1) with 0 by field. rewrite exp_0. ring.
Qed.

Lemma exp_minus_3 : exp (- (3) / 1) < 1 / 2.
Proof.
  replace (- (3) / 1) with (- (3)) by field. rewrite exp_Ropp.
  pose proof (exp_ineq1 3 ltac:(lra)) as H.
  apply Rlt_trans with (/ 4); [| lra].
  apply Rinv_lt_contravar; [| lra].
  apply Rmult_lt_0_compat; [lra | apply exp_pos].
Qed.

Lemma walk_reaches_loop undo x coins draws :
  anneal_init (Walk.subclass undo) (Some Walk.one_step) (Walk.world x coins draws)
  = (Ok (Walk.at_loop x), Walk.started x coins draws).
Proof.
  unfold anneal_init, open_trace, anneal_start, copy_own_state, copy_state,
    first_update.
  unfold_M. cbn.
  rewrite (proj2 (Rleb_false 1 0)) by lra.
  rewrite cooling_factor_Ok by lra. reflexivity.
Qed.

(** A step down from [x = 1] lowers the energy by 1 and is accepted. *)
Lemma walk_step_down undo draws :
  anneal_step (Walk.subclass undo) (Walk.at_loop 1) (Walk.started 1 [false] draws)
  = (Ok {| f := None; Tfactor := - ln (1 / 1); updateWavelength := None;
           step := 1; T := 1; E := 1 + -1;
           prevState := 0%Z; prevEnergy := 1 + -1;
           trials := 1; accepts := 1; improves := 1 |},
     {| self := {| params := Walk.one_step; best_state := Some 0%Z;
                   best_energy := Some (1 + -1); start := Some 0; state := 0%Z |};
        env := {| Walk.coins := []; Walk.draws := draws; Walk.clock := 0 + 1 |};
        trace := [Call Energy; Debug (StartEnergy (py_round_to 1 2));
                  Debug ColumnNames; Call Move;
                  Debug (StepLine 1 (py_round_to 1 2) (py_round_to (1 + -1) 2) ACC)]
     |}).
Proof.
  unfold anneal_step. unfold_M. cbn.
  rewrite temperature_Ok by lia. cbn. rewrite one_step_temperature.
  unfold trace_row, metropolis. unfold_M. cbn.
  rewrite (proj2 (Rltb_false 0 (-1))) by lra.
  unfold accept, trace_write, copy_own_state, copy_state, keep_best, report.
  unfold_M. cbn.
  rewrite (proj2 (Rltb_true (1 + -1) 1)) by lra.
  rewrite (proj2 (Rltb_true (-1) 0)) by lra.
  reflexivity.
Qed.

Lemma walk_loop_down undo draws :
  exists l' w',
    anneal_loop (Walk.subclass undo) 1 (Walk.at_loop 1) (Walk.started 1 [false] draws)
    = (Ok l', w') /\
    best_state (self w') = Some 0%Z /\ best_energy (self w') = Some (1 + -1).
Proof.
  do 2 eexists. cbn [anneal_loop].
  erewrite bind_run_Ok by reflexivity.
  cbn [Z.ltb Z.compare step Walk.at_loop steps params self Walk.started Walk.one_step].
  erewrite bind_run_Ok by apply walk_step_down.
  erewrite bind_run_Ok by reflexivity. cbn. repeat split.
Qed.

(** From [x = 1], one step down: the run returns the state 0 and the
    energy [1 + -1]. *)
Lemma walk_down_run undo draws :
  exists w',
    anneal (Walk.subclass undo) (Some Walk.one_step) (Walk.world 1 [false] draws)
    = (Ok (Some 0%Z, Some (1 + -1)), w').
Proof.
  destruct (walk_loop_down undo draws) as (l' & w1 & Hloop & Hbs & Hbe).
  eexists. unfold anneal.
  erewrite bind_run_Ok by apply walk_reaches_loop.
  erewrite bind_run_Ok by reflexivity.
  erewrite bind_run_Ok by exact Hloop.
  unfold anneal_finish, copy_state. unfold_M. rewrite Hbs.
  assert (Hp : params (self w1) = Walk.one_step).
  { pose proof Hloop as H. cbn [anneal_loop] in H.
    erewrite bind_run_Ok in H by reflexivity.
    cbn [Z.ltb Z.compare step Walk.at_loop steps params self Walk.started
           Walk.one_step] in H.
    erewrite bind_run_Ok in H by apply walk_step_down.
    erewrite bind_run_Ok in H by reflexivity. cbn in H.
    injection H as _ <-. reflexivity. }
  rewrite Hp. cbn. rewrite Hbs, Hbe. reflexivity.
Qed.

Lemma best_energy_le_initial_witness :
  exists w' E0 b,
    anneal Walk.problem (Some Walk.one_step) (Walk.world 1 [false] [])
    = (Ok (Some 0%Z, Some b), w') /\
    fst (fst (Walk.square 1%Z (snd (Walk.now (env (Walk.world 1 [false] []))))))
    = Ok E0 /\
    b <= E0.
Proof.
  destruct (walk_down_run None []) as [w' H].
  destruct (best_energy_le_initial Walk.problem _ _ _ _ _ H)
    as (E0 & b & HE0 & Hbe & _ & Hle & _).
  exists w', E0, b. injection Hbe as <-. repeat split; assumption.
Defined.

End WalkRuns.

(** ** The trace file *)

Section TraceFile.

Context {St Env : Type}.
Variable P : Problem St Env.

Lemma emits_keep_best Q E : always (emits Q) (keep_best P E).
Proof. apply always_keep_best'; try typeclasses eauto; intros; apply emits_assign. Qed.

(** The effects of the driver, for a property [Q] of events. *)
Ltac emits_effects :=
  try typeclasses eauto;
  intros;
  first [ apply emits_draw | apply emits_assign | apply emits_keep_best
        | apply emits_call | apply emits_emit ].

Lemma no_file_event_anneal_start f : always (emits no_file_event) (anneal_start P f).
Proof.
  apply always_anneal_start; emits_effects; intros ?; split; discriminate.
Qed.

Lemma no_file_event_anneal_loop n l : always (emits no_file_event) (anneal_loop P n l).
Proof.
  apply always_anneal_loop; emits_effects; intros ?; split; discriminate.
Qed.

Lemma no_file_event_anneal_finish : always (emits no_file_event) (anneal_finish P).
Proof. apply always_anneal_finish; try typeclasses eauto. intros; apply emits_assign. Qed.

(** C7, as the code has it: with a trace file configured, [anneal(p)]
    opens it once, before anything else, and writes the header; after
    that the run performs no other opening and no closing of a file,
    whether it returns, raises its own exception or lets one of
    [energy()], [move()] or [revert()] through: the file is left open on
    every exit path. *)
Theorem trace_file_opened_once_never_closed (p : AnnealerParams) (w : World St Env) :
  output_file p <> "" ->
  exists rest,
    trace (snd (anneal P (Some p) w))
    = (trace w ++ Open (output_file p) :: Write (output_file p) Header :: rest)%list /\
    Forall no_file_event rest.
Proof.
  intros Hout. apply String.eqb_neq in Hout.
  set (w1 := {| self := set_params p (self w); env := env w;
                trace := (trace w ++ [Open (output_file p)])
                           ++ [Write (output_file p) Header] |}).
  set (rest := fun l : Locals St =>
                 bind (gets (fun a => steps (params a)))
                   (fun total => bind (anneal_loop P (Z.to_nat total) l)
                                   (fun _ => anneal_finish P))).
  assert (Heq : anneal P (Some p) w = bind (anneal_start P (Some (output_file p))) rest w1).
  { unfold anneal, anneal_init, open_trace, bind, assign, ret. cbv beta iota.
    rewrite Hout. reflexivity. }
  assert (Hrest : always (emits no_file_event)
                    (bind (anneal_start P (Some (output_file p))) rest)).
  { apply always_bind;
      [typeclasses eauto | apply no_file_event_anneal_start | intros l].
    unfold rest. apply always_bind;
      [typeclasses eauto | apply always_gets; typeclasses eauto | intros total].
    apply always_bind;
      [typeclasses eauto | apply no_file_event_anneal_loop | intros _].
    apply no_file_event_anneal_finish. }
  destruct (Hrest w1) as (d & Hd & HF). rewrite <- Heq in Hd.
  exists d. split; [| assumption].
  rewrite Hd. unfold w1. cbn. now rewrite <- !app_assoc.
Qed.

End TraceFile.

Section TraceFileOfTheWalk.

Lemma walk_traced_run :
  anneal Walk.problem (Some Walk.traced) (Walk.world 0 [] [])
  = (Ok (Some 0, Some 0%R),
     {| self := {| params := Walk.traced; best_state := Some 0;
                   best_energy := Some 0%R; start := Some 0%R; state := 0 |};
        env := {| Walk.coins := []; Walk.draws := []; Walk.clock := 0 + 1 |};
        trace := [Open "trace.csv"; Write "trace.csv" Header; Call Energy;
                  Debug (StartEnergy (py_round_to 0 2)); Debug ColumnNames] |}).
Proof.
  unfold anneal, anneal_init, open_trace, anneal_start, copy_own_state, copy_state,
    first_update.
  unfold_M. cbn.
  rewrite (proj2 (Rleb_false 1 0)) by lra.
  rewrite cooling_factor_Ok by lra. reflexivity.
Qed.

(** C7, as the claim states it, fails: this run returns, and the file it
    opened is not closed. *)
Lemma trace_file_not_closed :
  fst (anneal Walk.problem (Some Walk.traced) (Walk.world 0 [] []))
  = Ok (Some 0, Some 0%R) /\
  ~ closes_its_files
      (trace (snd (anneal Walk.problem (Some Walk.traced) (Walk.world 0 [] [])))).
Proof.
  rewrite walk_traced_run. split; [reflexivity |].
  intros H. specialize (H "trace.csv" (or_introl eq_refl)). cbn in H.
  repeat (destruct H as [H | H]; [discriminate |]). exact H.
Qed.

Lemma trace_file_opened_once_never_closed_witness :
  exists rest,
    trace (snd (anneal Walk.problem (Some Walk.traced) (Walk.world 0 [] [])))
    = Open "trace.csv" :: Write "trace.csv" Header :: rest /\
    Forall no_file_event rest.
Proof.
  apply (trace_file_opened_once_never_closed Walk.problem Walk.traced
           (Walk.world 0 [] [])).
  discriminate.
Defined.

End TraceFileOfTheWalk.

(** ** The Metropolis test *)

Section Metropolis.

Context {St Env : Type}.
Variable P : Problem St Env.
Local Open Scope R_scope.

Lemma always_run (Rel : World St Env -> World St Env -> Prop) {A}
    (m : M St Env A) (w w' : World St Env) (r : result A) :
  always Rel m -> m w = (r, w') -> Rel w w'.
Proof. intros H Hrun. specialize (H w). now rewrite Hrun in H. Qed.

Lemma REJ_not_emitted (w w' : World St Env) (d : list event) :
  emits no_REJ w w' -> trace w' = (trace w ++ d)%list -> logs_REJ d -> False.
Proof.
  intros (d' & Hd' & HF) Htrace (n & a & b & Hin).
  rewrite Htrace in Hd'. apply app_inv_head in Hd'. subst d'.
  rewrite Forall_forall in HF. exact (HF _ Hin n a b eq_refl).
Qed.

Lemma metropolis_nonpositive (dE T : R) (w : World St Env) :
  dE <= 0 -> metropolis P dE T w = (Ok false, w).
Proof.
  intros H. unfold metropolis. now rewrite (proj2 (Rltb_false 0 dE)).
Qed.

Lemma metropolis_positive (dE T : R) (w : World St Env) :
  0 < dE -> T <> 0 ->
  metropolis P dE T w
  = (Ok (Rltb (exp (- dE / T)) (fst (random P (env w)))),
     {| self := self w; env := snd (random P (env w)); trace := trace w |}).
Proof.
  intros HdE HT. unfold metropolis, truediv.
  rewrite (proj2 (Rltb_true 0 dE)) by assumption.
  rewrite (proj2 (Reqb_false T 0)) by assumption.
  unfold_M. now destruct (random P (env w)).
Qed.

Lemma metropolis_zero_temperature (dE : R) (w : World St Env) :
  0 < dE -> metropolis P dE 0 w = (Raise ZeroDivisionError, w).
Proof.
  intros HdE. unfold metropolis, truediv.
  rewrite (proj2 (Rltb_true 0 dE)) by assumption.
  now rewrite (proj2 (Reqb_true 0 0)).
Qed.

(** The report at the end of a turn leaves the energies, the snapshot and
    the step counter of the turn alone. *)
Lemma report_Ok (l l' : Locals St) (w w' : World St Env) :
  report P l w = (Ok l', w') ->
  step l' = step l /\ T l' = T l /\ E l' = E l /\
  prevState l' = prevState l /\ prevEnergy l' = prevEnergy l.
Proof.
  unfold report. intros H. invert_runs.
  destruct (1 <? _)%Z; [| invert_runs; now repeat split].
  invert_runs.
  destruct (Rltb _ _); invert_runs; now repeat split.
Qed.

Lemma same_state_keep_best (E : R) : always same_state (keep_best P E).
Proof.
  apply always_keep_best'; try typeclasses eauto;
    auto using same_state_set_best_state, same_state_set_best_energy.
Qed.

Lemma same_state_accept l n T E dE k : always same_state (accept P l n T E dE k).
Proof.
  apply always_accept; try typeclasses eauto;
    auto using same_state_emit, same_state_keep_best.
Qed.

Lemma same_state_report l : always same_state (report P l).
Proof.
  apply always_report; try typeclasses eauto;
    auto using same_state_emit, same_state_draw.
Qed.

Lemma same_state_trace_row (l : Locals St) n T E :
  always (@same_state St Env) (trace_row l n T E).
Proof.
  apply always_trace_row; try typeclasses eauto; auto using same_state_emit.
Qed.

Ltac no_REJ_effects :=
  try typeclasses eauto;
  intros;
  first [ apply emits_draw | apply emits_assign | apply emits_keep_best
        | apply emits_call | apply emits_emit ];
  intros ? ? ?; discriminate.

Lemma no_REJ_accept l n T E dE k : always (emits no_REJ) (accept P l n T E dE k).
Proof. apply always_accept; no_REJ_effects. Qed.

Lemma no_REJ_report l : always (emits no_REJ) (report P l).
Proof. apply always_report; no_REJ_effects. Qed.

Lemma no_REJ_trace_row (l : Locals St) n T E :
  always (@emits St Env no_REJ) (trace_row l n T E).
Proof. apply always_trace_row; no_REJ_effects. Qed.

(** A turn whose move does not raise the energy: how it runs after the
    move has returned. *)
Lemma anneal_step_after_move (l : Locals St) (w : World St Env) dE s1 e1 :
  steps (params (self w)) <> 0%Z ->
  move P (state (self w)) (env w) = (Ok dE, s1, e1) ->
  let p := params (self w) in
  let n := (step l + 1)%Z in
  let T := tmax p * exp (Tfactor l * IZR n / IZR (steps p)) in
  let w1 := {| self := set_state s1 (self w); env := e1;
               trace := (trace w ++ [Call Move])%list |} in
  anneal_step P l w
  = bind (trace_row l n T (E l + dE))
      (fun _ =>
         bind (metropolis P dE T)
           (fun rejected : bool =>
              bind (if rejected
                    then reject P l n T (E l + dE) (trials l + 1)
                    else accept P l n T (E l + dE) dE (trials l + 1))
                (report P))) w1.
Proof.
  intros Hsteps Hmove p n T w1. unfold anneal_step.
  erewrite bind_run_Ok by reflexivity.
  erewrite bind_run_Ok
    by (unfold lift; rewrite temperature_Ok by assumption; reflexivity).
  erewrite bind_run_Ok by (unfold call; rewrite Hmove; reflexivity).
  reflexivity.
Qed.

Lemma anneal_step_accepting (l : Locals St) (w1 : World St Env) dE T n E k :
  dE <= 0 ->
  bind (trace_row l n T E)
    (fun _ =>
       bind (metropolis P dE T)
         (fun rejected : bool =>
            bind (if rejected then reject P l n T E k else accept P l n T E dE k)
              (report P))) w1
  = bind (trace_row l n T E) (fun _ => bind (accept P l n T E dE k) (report P)) w1.
Proof.
  intros HdE. unfold bind at 1 4.
  destruct (trace_row l n T E w1) as [[[] | e |] w2]; try reflexivity.
  now rewrite (bind_run_Ok _ _ _ _ _ (metropolis_nonpositive dE T w2 HdE)).
Qed.

Lemma same_state_accepting (l : Locals St) dE T n E k :
  always same_state
    (bind (trace_row l n T E) (fun _ => bind (accept P l n T E dE k) (report P))).
Proof.
  apply always_bind;
    [typeclasses eauto | apply same_state_trace_row | intros _].
  apply always_bind;
    [typeclasses eauto | apply same_state_accept | intros l'; apply same_state_report].
Qed.

Lemma no_REJ_accepting (l : Locals St) dE T n E k :
  always (emits no_REJ)
    (bind (trace_row l n T E) (fun _ => bind (accept P l n T E dE k) (report P))).
Proof.
  apply always_bind;
    [typeclasses eauto | apply no_REJ_trace_row | intros _].
  apply always_bind;
    [typeclasses eauto | apply no_REJ_accept | intros l'; apply no_REJ_report].
Qed.

Lemma accept_Ok (l l' : Locals St) (w w' : World St Env) n T E1 dE k :
  accept P l n T E1 dE k w = (Ok l', w') ->
  E l' = E1 /\ prevEnergy l' = E1 /\ step l' = n.
Proof.
  unfold accept. intros H. invert_runs. now repeat split.
Qed.

Lemma trace_row_runs (l : Locals St) n T1 E1 (w : World St Env) :
  f l = None \/ (exists b, best_energy (self w) = Some b) ->
  exists w2,
    trace_row l n T1 E1 w = (Ok tt, w2) /\
    self w2 = self w /\ env w2 = env w /\ emits no_REJ w w2.
Proof.
  intros Hrow. unfold trace_row.
  destruct (f l) as [path |] eqn:Hf.
  - destruct Hrow as [Hnone | [b Hb]]; [discriminate |].
    unfold_M. cbn. rewrite Hb. cbn. eexists. split; [reflexivity |].
    repeat split. eexists. split; [cbn; rewrite <- app_assoc; reflexivity |].
    repeat constructor; intros ? ? ?; discriminate.
  - exists w. repeat split. reflexivity.
Qed.

Lemma any_event_reject l n T1 E1 k :
  always (emits (fun _ => True)) (reject P l n T1 E1 k).
Proof.
  apply always_reject; try typeclasses eauto; intros;
    first [ apply emits_draw | apply emits_assign | apply emits_call
          | apply emits_emit ]; exact I.
Qed.

Lemma any_event_report l : always (emits (fun _ => True)) (report P l).
Proof.
  apply always_report; try typeclasses eauto; intros;
    first [ apply emits_draw | apply emits_emit ]; exact I.
Qed.

Lemma bind_emit_first {A B} (e : event) (k1 : unit -> M St Env A)
    (k2 : A -> M St Env B) (w : World St Env) :
  bind (bind (emit e) k1) k2 w
  = bind (k1 tt) k2 {| self := self w; env := env w; trace := (trace w ++ [e])%list |}.
Proof. reflexivity. Qed.

(** A rejection is logged before anything else is done about it. *)
Lemma reject_logs_first (l : Locals St) n T1 E1 k (w : World St Env) :
  exists d,
    trace (snd (bind (reject P l n T1 E1 k) (report P) w))
    = (trace w ++ Debug (StepLine n (py_round_to (prevEnergy l) 2)
                           (py_round_to E1 2) REJ) :: d)%list.
Proof.
  unfold reject. rewrite bind_emit_first.
  match goal with
  | |- context [snd (bind ?m ?k ?w1)] =>
      assert (H : always (emits (fun _ => True)) (bind m k))
  end.
  { apply always_bind; [typeclasses eauto | | intros; apply any_event_report].
    apply always_bind;
      [ typeclasses eauto
      | apply always_trace_write; try typeclasses eauto;
        intros; apply emits_emit; exact I
      | intros _ ].
    apply always_bind;
      [typeclasses eauto | apply always_copy_state; typeclasses eauto | intros s].
    apply always_bind; [typeclasses eauto | apply emits_assign | intros _].
    apply always_bind;
      [ typeclasses eauto
      | apply always_call_revert; try typeclasses eauto;
        intros; apply emits_call; exact I
      | intros _; apply always_ret; typeclasses eauto ]. }
  match goal with
  | |- context [snd (bind ?m ?k ?w1)] => destruct (H w1) as (d & Hd & _)
  end.
  exists d. rewrite Hd. cbn. now rewrite <- app_assoc.
Qed.

Lemma no_REJ_accept_report (l : Locals St) n T1 E1 dE k :
  always (emits no_REJ) (bind (accept P l n T1 E1 dE k) (report P)).
Proof.
  apply always_bind;
    [typeclasses eauto | apply no_REJ_accept | intros l'; apply no_REJ_report].
Qed.

(** In a turn that reaches the test, the logger gets the REJ line exactly
    when [dE > 0] and [exp(-dE / T)] is below the value drawn. *)
Lemma step_logs_REJ_iff (l : Locals St) (w : World St Env) dE T1 s1 e1 (d : list event) :
  steps (params (self w)) <> 0%Z ->
  move P (state (self w)) (env w) = (Ok dE, s1, e1) ->
  f l = None \/ (exists b, best_energy (self w) = Some b) ->
  T1 = tmax (params (self w))
       * exp (Tfactor l * IZR (step l + 1) / IZR (steps (params (self w)))) ->
  trace (snd (anneal_step P l w)) = (trace w ++ d)%list ->
  logs_REJ d <-> 0 < dE /\ T1 <> 0 /\ exp (- dE / T1) < fst (random P e1).
Proof.
  intros Hsteps Hmove Hrow HT1 Htrace.
  rewrite (anneal_step_after_move l w dE s1 e1 Hsteps Hmove) in Htrace.
  cbv zeta in Htrace. rewrite <- HT1 in Htrace.
  set (w1 := {| self := set_state s1 (self w); env := e1;
                trace := (trace w ++ [Call Move])%list |}) in *.
  assert (Hmoved : emits no_REJ w w1).
  { exists [Call Move]. split; [reflexivity |].
    constructor; [intros ? ? ?; discriminate | constructor]. }
  destruct (trace_row_runs l (step l + 1) T1 (E l + dE) w1 Hrow)
    as (w2 & Hrun & Hself & Henv & Hemit).
  rewrite (bind_run_Ok _ _ _ _ _ Hrun) in Htrace.
  assert (Hw2 : emits no_REJ w w2) by (etransitivity; eassumption).
  destruct (Rle_dec dE 0) as [HdE | HdE].
  { rewrite (bind_run_Ok _ _ _ _ _ (metropolis_nonpositive dE T1 w2 HdE)) in Htrace.
    split; [| intros (H0 & _); lra].
    intros HREJ. exfalso. eapply REJ_not_emitted; [| exact Htrace | exact HREJ].
    etransitivity; [exact Hw2 | apply no_REJ_accept_report]. }
  assert (Hpos : 0 < dE) by lra.
  destruct (Req_dec_T T1 0) as [HT0 | HT0].
  { split; [| intros (_ & H0 & _); contradiction].
    intros HREJ. exfalso. subst T1. rewrite HT0 in Htrace.
    rewrite (bind_run_Raise _ _ _ _ _ (metropolis_zero_temperature dE w2 Hpos))
      in Htrace.
    eapply REJ_not_emitted; [exact Hw2 | exact Htrace | exact HREJ]. }
  rewrite (bind_run_Ok _ _ _ _ _ (metropolis_positive dE T1 w2 Hpos HT0)) in Htrace.
  rewrite Henv in Htrace. change (env w1) with e1 in Htrace.
  destruct (Rltb (exp (- dE / T1)) (fst (random P e1))) eqn:Htest.
  - apply Rltb_true in Htest.
    split; [intros _; now repeat split | intros _].
    match type of Htrace with
    | trace (snd (bind (reject _ ?l0 ?n0 ?T0 ?E0 ?k0) _ ?w3)) = _ =>
        destruct (reject_logs_first l0 n0 T0 E0 k0 w3) as (d' & Hd')
    end.
    rewrite Hd' in Htrace. cbn [trace] in Htrace.
    destruct Hw2 as (d2 & Hd2 & _). rewrite Hd2, <- app_assoc in Htrace.
    apply app_inv_head in Htrace. subst d.
    eexists _, _, _. apply in_or_app. right. left. reflexivity.
  - apply Rltb_false in Htest.
    split; [| intros (_ & _ & H0); lra].
    intros HREJ. exfalso. eapply REJ_not_emitted; [| exact Htrace | exact HREJ].
    etransitivity; [exact Hw2 |].
    match goal with
    | |- emits no_REJ w2 (snd (bind ?m ?k ?w3)) =>
        assert (Hw3 : emits no_REJ w2 w3)
          by (exists []; cbn; split; [now rewrite app_nil_r | constructor]);
        etransitivity; [exact Hw3 | apply no_REJ_accept_report]
    end.
Qed.

(** C1, as the code has it.  The test of line 185 answers "reject" exactly
    when [dE > 0] and [exp(-dE / T)] is strictly below the value drawn: a
    draw equal to [exp(-dE / T)] accepts.  For [dE <= 0] it answers
    "accept" without drawing.  In a turn of the loop that reaches the test
    with the temperature [T] of that step, the logger gets the REJ line
    under exactly that condition.  And a turn whose move returns
    [dE <= 0] is an accepted one however it ends: [self.state] is left as
    the move made it, the logger gets no REJ line, and if the turn
    completes the new energy [E + dE] is both the running and the accepted
    energy. *)
Theorem metropolis_rejection (dE T : R) (w : World St Env) :
  let r := fst (random P (env w)) in
  (fst (metropolis P dE T w) = Ok true <-> 0 < dE /\ T <> 0 /\ exp (- dE / T) < r) /\
  (dE <= 0 -> metropolis P dE T w = (Ok false, w)) /\
  (forall l s1 e1 d,
      steps (params (self w)) <> 0%Z ->
      move P (state (self w)) (env w) = (Ok dE, s1, e1) ->
      f l = None \/ (exists b, best_energy (self w) = Some b) ->
      T = tmax (params (self w))
          * exp (Tfactor l * IZR (step l + 1) / IZR (steps (params (self w)))) ->
      trace (snd (anneal_step P l w)) = (trace w ++ d)%list ->
      (logs_REJ d <-> 0 < dE /\ T <> 0 /\ exp (- dE / T) < fst (random P e1))) /\
  (forall l s1 e1,
      steps (params (self w)) <> 0%Z ->
      move P (state (self w)) (env w) = (Ok dE, s1, e1) ->
      dE <= 0 ->
      let w' := snd (anneal_step P l w) in
      state (self w') = s1 /\
      (exists d, trace w' = (trace w ++ d)%list /\ Forall no_REJ d) /\
      (forall l', fst (anneal_step P l w) = Ok l' ->
                  E l' = E l + dE /\ prevEnergy l' = E l + dE)).
Proof.
  intros r. split; [| split; [| split]].
  - split.
    + intros H. destruct (Rlt_dec 0 dE) as [HdE | HdE].
      * destruct (Req_dec_T T 0) as [-> | HT].
        { rewrite metropolis_zero_temperature in H by assumption. discriminate. }
        rewrite metropolis_positive in H by assumption. cbn in H.
        injection H as H. apply Rltb_true in H. now repeat split.
      * rewrite metropolis_nonpositive in H by lra. discriminate.
    + intros (HdE & HT & Hr). rewrite metropolis_positive by assumption. cbn.
      f_equal. now apply Rltb_true.
  - apply metropolis_nonpositive.
  - intros l s1 e1 d Hsteps Hmove Hrow HT Htrace.
    exact (step_logs_REJ_iff l w dE T s1 e1 d Hsteps Hmove Hrow HT Htrace).
  - intros l s1 e1 Hsteps Hmove HdE w'. subst w'.
    rewrite (anneal_step_after_move l w dE s1 e1 Hsteps Hmove).
    rewrite anneal_step_accepting by assumption.
    split; [| split].
    + exact (same_state_accepting l dE _ _ _ _ _).
    + match goal with
      | |- context [snd (bind (trace_row _ ?n ?T1 ?E1) _ ?w1)] =>
          destruct (no_REJ_accepting l dE T1 n E1 (trials l + 1) w1) as (d & Hd & HF)
      end.
      exists (Call Move :: d). split.
      * rewrite Hd. cbn. now rewrite <- app_assoc.
      * constructor; [intros ? ? ?; discriminate | assumption].
    + intros l' Hl'.
      match type of Hl' with fst ?run = _ =>
        destruct run as [res w2] eqn:Hrun end.
      cbn in Hl'. subst res. invert_runs.
      match goal with
      | Ha : accept _ _ _ _ _ _ _ _ = (Ok _, _), Hr : report _ _ _ = (Ok _, _) |- _ =>
          apply accept_Ok in Ha; apply report_Ok in Hr;
          destruct Ha as (Ha1 & Ha2 & _); destruct Hr as (_ & _ & Hr1 & _ & Hr2)
      end.
      split; congruence.
Qed.

End Metropolis.

Section MetropolisOfTheWalk.

Local Open Scope R_scope.

(** C1, as the claim states it, fails: with [dE = ln 2], [T = 1] and the
    draw [1/2], which is [exp(-dE / T)], the draw is not less than
    [exp(-dE / T)] and yet the test answers "accept". *)
Lemma metropolis_accepts_a_tie :
  claimed_rejection (ln 2) 1 (/ 2) /\
  fst (metropolis Walk.problem (ln 2) 1 (Walk.world 0 [] [/ 2])) = Ok false.
Proof.
  assert (Hexp : exp (- ln 2 / 1) = / 2).
  { replace (- ln 2 / 1) with (- ln 2) by field.
    rewrite exp_Ropp, exp_ln by lra. reflexivity. }
  assert (Hln : 0 < ln 2).
  { rewrite <- ln_1. apply ln_increasing; lra. }
  split.
  - split; [assumption |]. rewrite Hexp. lra.
  - rewrite metropolis_positive by lra. cbn. rewrite Hexp.
    f_equal. apply Rltb_false. lra.
Qed.

Lemma metropolis_rejection_witness :
  metropolis Walk.problem (-1) (1 * exp (- ln (1 / 1) * 1 / 1))
    (Walk.started 1 [false] [])
  = (Ok false, Walk.started 1 [false] []) /\
  ~ logs_REJ [Call Move;
              Debug (StepLine 1 (py_round_to 1 2) (py_round_to (1 + -1) 2) ACC)] /\
  state (self (snd (anneal_step Walk.problem (Walk.at_loop 1)
                      (Walk.started 1 [false] [])))) = 0%Z.
Proof.
  destruct (metropolis_rejection Walk.problem (-1) (1 * exp (- ln (1 / 1) * 1 / 1))
              (Walk.started 1 [false] []))
    as (_ & Hacc & Hlog & Hstep).
  split; [apply Hacc; lra | split].
  - intros HREJ.
    apply (Hlog (Walk.at_loop 1) 0%Z
             {| Walk.coins := []; Walk.draws := []; Walk.clock := 0 + 1 |}) in HREJ.
    + lra.
    + discriminate.
    + reflexivity.
    + left. reflexivity.
    + reflexivity.
    + exact (f_equal (fun run => trace (snd run)) (walk_step_down None [])).
  - apply (Hstep (Walk.at_loop 1) 0%Z
             {| Walk.coins := []; Walk.draws := []; Walk.clock := 0 + 1 |}).
    + discriminate.
    + reflexivity.
    + lra.
Defined.

End MetropolisOfTheWalk.

(** ** Rejected moves *)

Section Rejection.

Context {St Env : Type}.
Variable P : Problem St Env.
Local Open Scope R_scope.

Lemma copy_state_exact (s s' : St) (w w' : World St Env) :
  exact_copies P -> copy_state P s w = (Ok s', w') -> s' = s /\ w' = w.
Proof.
  intros Hexact H. split; [| now apply copy_state_Ok in H].
  destruct (Hexact s s') as (Hdeep & Hslice & Hmethod).
  unfold copy_state in H. invert_runs.
  repeat match goal with
         | H : (if ?c then _ else _) _ = (Ok _, _) |- _ => destruct c
         end;
    invert_runs; auto.
Qed.

Lemma no_REJ_metropolis dE T : always (emits no_REJ) (metropolis P dE T).
Proof. apply always_metropolis; try typeclasses eauto. intros; apply emits_draw. Qed.

Lemma same_state_reported (l l' : Locals St) (w w' : World St Env) :
  report P l w = (Ok l', w') -> state (self w') = state (self w).
Proof. intros H. exact (always_run _ _ _ _ _ (same_state_report P l) H). Qed.

Lemma trace_write_Ok f t (w w' : World St Env) (u : unit) :
  trace_write f t w = (Ok u, w') -> self w' = self w /\ env w' = env w.
Proof.
  unfold trace_write. intros H. destruct f; invert_runs; now split.
Qed.

(** What a completed rejection leaves (lines 186-192). *)
Lemma reject_Ok (l l1 : Locals St) (w w' : World St Env) n T1 E1 k :
  exact_copies P -> revert_keeps_state P ->
  reject P l n T1 E1 k w = (Ok l1, w') ->
  state (self w') = prevState l /\ E l1 = prevEnergy l /\
  prevState l1 = prevState l /\ prevEnergy l1 = prevEnergy l.
Proof.
  intros Hexact Hrevert H. unfold reject in H. invert_runs.
  match goal with
  | Hw : trace_write _ _ _ = (Ok _, _) |- _ => apply trace_write_Ok in Hw
  end.
  match goal with
  | Hc : copy_state _ _ _ = (Ok _, _) |- _ =>
      apply (copy_state_exact _ _ _ _ Hexact) in Hc; destruct Hc as [-> ->]
  end.
  match goal with
  | Hr : call_revert _ _ = (Ok _, _) |- _ =>
      unfold call_revert in Hr; destruct (revert P) as [h |] eqn:Hh;
      [| discriminate Hr]
  end.
  invert_runs. cbn in *.
  match goal with
  | Hcall : h ?s ?e = (_, ?s', _) |- _ =>
      pose proof (Hrevert h s e Hh) as Hkeep; rewrite Hcall in Hkeep;
      cbn in Hkeep; subst s'
  end.
  now repeat split.
Qed.

(** C5: a turn of the loop that completes with its move rejected (the
    logger got the REJ line) ends with [self.state] equal to the snapshot
    [prevState] and [E] equal to [prevEnergy], both snapshots untouched;
    so, from a loop head where the working state and energy are the last
    accepted ones, the state and the energy after the turn are those from
    before the move.  It holds for a problem whose copies are exact and
    whose [revert] leaves the state object alone. *)
Theorem rejection_restores (l l' : Locals St) (w w' : World St Env) (d : list event) :
  exact_copies P -> revert_keeps_state P ->
  anneal_step P l w = (Ok l', w') ->
  trace w' = (trace w ++ d)%list -> logs_REJ d ->
  (state (self w') = prevState l /\ E l' = prevEnergy l /\
   prevState l' = prevState l /\ prevEnergy l' = prevEnergy l) /\
  (synced l w -> state (self w') = state (self w) /\ E l' = E l) /\
  synced l' w'.
Proof.
  intros Hexact Hrevert Hstep Htrace HREJ.
  unfold anneal_step in Hstep. invert_runs.
  match goal with
  | Hmove : move P _ _ = (Ok ?dE, ?s1, ?e1),
    Hrow : trace_row _ _ _ _ ?w1 = (Ok _, ?w2),
    Hmet : metropolis _ _ ?T1 _ = (Ok ?rej, ?w3),
    Hbranch : (if ?rej then _ else _) _ = (Ok ?l1, ?w4),
    Hrep : report _ _ _ = (Ok _, _) |- _ =>
      destruct rej;
      [ apply (reject_Ok _ _ _ _ _ _ _ _ Hexact Hrevert) in Hbranch;
        destruct Hbranch as (Hs & HE & HpS & HpE);
        pose proof (same_state_reported _ _ _ _ Hrep) as Hs';
        apply report_Ok in Hrep; destruct Hrep as (_ & _ & HrE & HrS & HrP)
      | exfalso;
        apply (always_run _ _ _ _ _ (no_REJ_trace_row _ _ _ _)) in Hrow;
        apply (always_run _ _ _ _ _ (no_REJ_metropolis dE T1)) in Hmet;
        apply (always_run _ _ _ _ _ (no_REJ_accept P _ _ _ _ _ _)) in Hbranch;
        apply (always_run _ _ _ _ _ (no_REJ_report P _)) in Hrep;
        assert (Hcall : emits no_REJ w w1)
          by (exists [Call Move]; split;
              [reflexivity | constructor; [intros ? ? ?; discriminate | constructor]]);
        apply (REJ_not_emitted w w' d); try assumption;
        etransitivity; [exact Hcall |];
        etransitivity; [exact Hrow |];
        etransitivity; [exact Hmet |];
        etransitivity; [exact Hbranch | exact Hrep] ]
  end.
  assert (H1 : state (self w') = prevState l) by congruence.
  assert (H2 : E l' = prevEnergy l) by congruence.
  assert (H3 : prevState l' = prevState l) by congruence.
  assert (H4 : prevEnergy l' = prevEnergy l) by congruence.
  repeat split; try assumption.
  - destruct H as [Hw _]. congruence.
  - destruct H as [_ Hw]. congruence.
  - congruence.
  - congruence.
Qed.

Lemma accept_synced (l l1 : Locals St) (w w' : World St Env) n T1 E1 dE k :
  exact_copies P -> accept P l n T1 E1 dE k w = (Ok l1, w') -> synced l1 w'.
Proof.
  intros Hexact H. unfold accept, copy_own_state in H. invert_runs.
  match goal with
  | Hw : trace_write _ _ _ = (Ok _, _) |- _ =>
      apply trace_write_Ok in Hw; destruct Hw as [Hself _]
  end.
  match goal with
  | Hc : copy_state _ _ _ = (Ok _, _) |- _ =>
      apply (copy_state_exact _ _ _ _ Hexact) in Hc; destruct Hc as [-> ->]
  end.
  match goal with
  | Hb : keep_best _ _ _ = (Ok _, _) |- _ =>
      apply (always_run _ _ _ _ _ (same_state_keep_best P E1)) in Hb
  end.
  split; [assumption | reflexivity].
Qed.

(** Every turn that completes ends at a loop head where the working state
    and energy are the last accepted ones. *)
Lemma anneal_step_synced (l l' : Locals St) (w w' : World St Env) :
  exact_copies P -> revert_keeps_state P ->
  anneal_step P l w = (Ok l', w') -> synced l' w'.
Proof.
  intros Hexact Hrevert Hstep. unfold anneal_step in Hstep. invert_runs.
  match goal with
  | Hbranch : (if ?rej then _ else _) _ = (Ok ?l1, ?w4),
    Hrep : report _ _ _ = (Ok _, _) |- _ =>
      pose proof (same_state_reported _ _ _ _ Hrep) as Hs';
      apply report_Ok in Hrep; destruct Hrep as (_ & _ & HrE & HrS & HrP);
      assert (Hsync : synced l1 w4)
        by (destruct rej;
            [ apply (reject_Ok _ _ _ _ _ _ _ _ Hexact Hrevert) in Hbranch;
              destruct Hbranch as (Hs & HE & HpS & HpE); split; congruence
            | now apply accept_synced in Hbranch ]);
      destruct Hsync as [Hs1 Hs2]
  end.
  split; congruence.
Qed.

Lemma anneal_start_synced f (l0 : Locals St) (w w0 : World St Env) :
  exact_copies P -> anneal_start P f w = (Ok l0, w0) -> synced l0 w0.
Proof.
  intros Hexact H. unfold anneal_start, copy_own_state in H. invert_runs.
  match goal with
  | H : (if ?c then _ else _) _ = (Ok _, _) |- _ =>
      destruct c; [discriminate H |]; invert_runs
  end.
  repeat match goal with
         | Hc : copy_state _ _ _ = (Ok _, _) |- _ =>
             apply (copy_state_exact _ _ _ _ Hexact) in Hc; destruct Hc as [-> ->]
         end.
  match goal with
  | Hu : first_update _ _ _ _ _ _ = (Ok _, _) |- _ =>
      apply (always_run _ _ _ _ _ (same_self_first_update P _ _ _ _)) in Hu;
      unfold same_self in Hu;
      split; cbn; [rewrite Hu; reflexivity | reflexivity]
  end.
Qed.

(** So does the code before the loop. *)
Lemma anneal_init_synced (p : AnnealerParams) (l0 : Locals St) (w w0 : World St Env) :
  exact_copies P -> anneal_init P (Some p) w = (Ok l0, w0) -> synced l0 w0.
Proof.
  intros Hexact H. unfold anneal_init, open_trace in H. invert_runs.
  match goal with
  | H : (if ?c then _ else _) _ = (Ok _, _) |- _ => destruct c; invert_runs
  end;
    eapply anneal_start_synced; eassumption.
Qed.

End Rejection.

Section RejectedStepOfTheWalk.

Local Open Scope R_scope.

(** From [x = 1] a step up raises the energy by 3; at temperature 1 the
    draw [1/2] is above [exp(-3)], so the move is rejected. *)
Lemma walk_step_up_without_revert :
  anneal_step Walk.problem (Walk.at_loop 1) (Walk.started 1 [true] [1 / 2])
  = (Raise (AttributeError "revert"),
     {| self := {| params := Walk.one_step; best_state := Some 1%Z;
                   best_energy := Some 1; start := Some 0; state := 1%Z |};
        env := {| Walk.coins := []; Walk.draws := []; Walk.clock := 0 + 1 |};
        trace := [Call Energy; Debug (StartEnergy (py_round_to 1 2));
                  Debug ColumnNames; Call Move;
                  Debug (StepLine 1 (py_round_to 1 2) (py_round_to (1 + 3) 2) REJ)]
     |}).
Proof.
  unfold anneal_step. unfold_M. cbn.
  rewrite temperature_Ok by lia. cbn. rewrite one_step_temperature.
  unfold trace_row, metropolis. unfold_M. cbn.
  rewrite (proj2 (Rltb_true 0 3)) by lra.
  unfold truediv. rewrite (proj2 (Reqb_false 1 0)) by lra. cbn.
  rewrite (proj2 (Rltb_true _ _) exp_minus_3).
  unfold reject, trace_write, copy_state, call_revert.
  unfold_M. cbn. reflexivity.
Qed.

Lemma walk_step_up_with_revert :
  anneal_step Walk.with_revert (Walk.at_loop 1) (Walk.started 1 [true] [1 / 2])
  = (Ok {| f := None; Tfactor := - ln (1 / 1); updateWavelength := None;
           step := 1; T := 1; E := 1;
           prevState := 1%Z; prevEnergy := 1;
           trials := 1; accepts := 0; improves := 0 |},
     {| self := {| params := Walk.one_step; best_state := Some 1%Z;
                   best_energy := Some 1; start := Some 0; state := 1%Z |};
        env := {| Walk.coins := []; Walk.draws := []; Walk.clock := 0 + 1 |};
        trace := [Call Energy; Debug (StartEnergy (py_round_to 1 2));
                  Debug ColumnNames; Call Move;
                  Debug (StepLine 1 (py_round_to 1 2) (py_round_to (1 + 3) 2) REJ);
                  Call Revert]
     |}).
Proof.
  unfold anneal_step. unfold_M. cbn.
  rewrite temperature_Ok by lia. cbn. rewrite one_step_temperature.
  unfold trace_row, metropolis. unfold_M. cbn.
  rewrite (proj2 (Rltb_true 0 3)) by lra.
  unfold truediv. rewrite (proj2 (Reqb_false 1 0)) by lra. cbn.
  rewrite (proj2 (Rltb_true _ _) exp_minus_3).
  unfold reject, trace_write, copy_state, call_revert, report.
  unfold_M. cbn. reflexivity.
Qed.

(** Without a [revert] in the subclass, no rejection completes. *)
Lemma reject_needs_revert {St Env : Type} (P : Problem St Env) (l l1 : Locals St)
    (w w' : World St Env) n T1 E1 k :
  revert P = None -> reject P l n T1 E1 k w <> (Ok l1, w').
Proof.
  intros Hnone H. unfold reject in H. invert_runs.
  match goal with
  | Hr : call_revert _ _ = (Ok _, _) |- _ =>
      unfold call_revert in Hr; rewrite Hnone in Hr; discriminate Hr
  end.
Qed.

(** C2, on the code: a subclass that defines [move] and [energy] only.
    The one move of this run is rejected; line 190 restores the state and
    line 191, [self.revert()], raises [AttributeError], which leaves
    [anneal]: the class [Annealer] has no [revert]. *)
Theorem rejection_without_revert_raises :
  exists w',
    anneal Walk.problem (Some Walk.one_step) (Walk.world 1 [true] [1 / 2])
    = (Raise (AttributeError "revert"), w') /\
    state (self w') = 1%Z /\
    logs_REJ (trace w').
Proof.
  eexists. split; [| split].
  - unfold anneal.
    erewrite bind_run_Ok by apply walk_reaches_loop.
    erewrite bind_run_Ok by reflexivity.
    erewrite bind_run_Raise; [reflexivity |].
    change (Z.to_nat _) with 1%nat. cbn [anneal_loop].
    erewrite bind_run_Ok by reflexivity.
    cbn [Z.ltb Z.compare step Walk.at_loop steps params self Walk.started Walk.one_step].
    erewrite bind_run_Raise by apply walk_step_up_without_revert. reflexivity.
  - reflexivity.
  - exists 1%Z, (py_round_to 1 2), (py_round_to (1 + 3) 2). cbn. tauto.
Qed.

Lemma walk_exact_copies undo : exact_copies (Walk.subclass undo).
Proof.
  intros s s'. cbn. repeat split; intros H; try discriminate.
  now injection H as <-.
Qed.

Lemma rejection_restores_witness :
  exists l' w',
    anneal_step Walk.with_revert (Walk.at_loop 1) (Walk.started 1 [true] [1 / 2])
    = (Ok l', w') /\
    state (self w') = 1%Z /\ E l' = 1 /\ synced l' w'.
Proof.
  pose proof walk_step_up_with_revert as Hstep.
  match type of Hstep with _ = (Ok ?l', ?w') => exists l', w' end.
  split; [exact Hstep |].
  destruct (rejection_restores Walk.with_revert _ _ _ _
              [Call Move;
               Debug (StepLine 1 (py_round_to 1 2) (py_round_to (1 + 3) 2) REJ);
               Call Revert]
              (walk_exact_copies _)
              (fun h s e H => match H in _ = o return
                                    match o with
                                    | Some g => snd (fst (g s e)) = s
                                    | None => True
                                    end
                              with eq_refl => eq_refl end)
              Hstep eq_refl)
    as ((Hs & HE & _) & _ & Hsync).
  - exists 1%Z, (py_round_to 1 2), (py_round_to (1 + 3) 2). cbn. tauto.
  - repeat split; assumption.
Defined.

End RejectedStepOfTheWalk.

(** ** [auto] *)

Section Auto.

Context {St Env : Type}.
Variable P : Problem St Env.

(** C3, on the code: [auto] reads [self.updates] at line 288, and the class
    [Annealer] has no such attribute (the update count is
    [self.params.updates]).  Unless the subclass happens to define
    [updates], no call of [auto] returns a record, whatever the problem,
    the arguments and the number of turns its searches are given. *)
Theorem auto_needs_updates_attribute (fuel : nat) (minutes : R) (steps : Z)
    (w : World St Env) :
  updates_attr P = None ->
  forall a w', auto P fuel minutes steps w <> (Ok a, w').
Proof.
  intros Hnone a w' H. unfold auto in H. rewrite Hnone in H.
  repeat (invert_runs;
          match goal with
          | H : (match ?x with _ => _ end) _ = (Ok _, _) |- _ => destruct x
          end).
Qed.

End Auto.

Section AutoOfTheWalk.

Local Open Scope R_scope.

Lemma ln_10_pos : 0 < ln 10.
Proof. rewrite <- ln_1. apply ln_increasing; lra. Qed.

(** [ceil(log10(x))] for [x] in (1/10, 1] and in (1, 10]. *)
Lemma ceil_log10_tenths (x : R) : 1 / 10 < x <= 1 -> Zceil (ln x / ln 10) = 0%Z.
Proof.
  intros [Hlo Hhi]. pose proof ln_10_pos as H10.
  apply Zceil_eq. cbn [IZR].
  assert (Hle : ln x <= 0).
  { rewrite <- ln_1. destruct Hhi as [Hhi | ->]; [| lra].
    left. apply ln_increasing; lra. }
  assert (Hgt : - ln 10 < ln x).
  { rewrite <- ln_Rinv by lra. apply ln_increasing; lra. }
  split.
  - apply Rmult_lt_reg_r with (ln 10); [assumption |].
    unfold Rdiv. rewrite Rmult_assoc, Rinv_l by lra. lra.
  - apply Rmult_le_reg_r with (ln 10); [assumption |].
    unfold Rdiv. rewrite Rmult_assoc, Rinv_l by lra. lra.
Qed.

Lemma ceil_log10_units (x : R) : 1 < x <= 10 -> Zceil (ln x / ln 10) = 1%Z.
Proof.
  intros [Hlo Hhi]. pose proof ln_10_pos as H10.
  apply Zceil_eq.
  assert (Hgt : 0 < ln x).
  { rewrite <- ln_1. apply ln_increasing; lra. }
  assert (Hle : ln x <= ln 10).
  { destruct Hhi as [Hhi | ->]; [| lra]. left. apply ln_increasing; lra. }
  split.
  - apply Rmult_lt_reg_r with (ln 10); [assumption |].
    unfold Rdiv. rewrite Rmult_assoc, Rinv_l by lra. lra.
  - apply Rmult_le_reg_r with (ln 10); [assumption |].
    unfold Rdiv. rewrite Rmult_assoc, Rinv_l by lra. lra.
Qed.

Lemma ten_squared : powerRZ 10 2 = 100.
Proof. unfold powerRZ. simpl. lra. Qed.

Lemma ten_to_one : powerRZ 10 1 = 10.
Proof. unfold powerRZ. simpl. lra. Qed.

Lemma py_round_up (x : R) (z : Z) :
  IZR z + 1 / 2 < x < IZR z + 1 -> py_round x = (z + 1)%Z.
Proof.
  intros [Hlo Hhi]. unfold py_round.
  rewrite (Zfloor_eq z x) by lra.
  rewrite (proj2 (Rltb_false (x - IZR z) (1 / 2))) by lra.
  now rewrite (proj2 (Rltb_true (1 / 2) (x - IZR z))) by lra.
Qed.

Lemma py_round_down (x : R) (z : Z) :
  IZR z <= x < IZR z + 1 / 2 -> py_round x = z.
Proof.
  intros [Hlo Hhi]. unfold py_round.
  rewrite (Zfloor_eq z x) by lra.
  now rewrite (proj2 (Rltb_true (x - IZR z) (1 / 2))) by lra.
Qed.

(** [round_figures(1 / 1.5, 2) == 0.67]. *)
Lemma round_figures_two_thirds (x : R) :
  x = 2 / 3 -> round_figures x 2 = Ok (67 / 100).
Proof.
  intros ->. unfold round_figures, math_log10.
  rewrite Rabs_pos_eq by lra.
  rewrite (proj2 (Rleb_false (2 / 3) 0)) by lra.
  rewrite ceil_log10_tenths by lra.
  unfold py_round_to. change (2 - 0)%Z with 2%Z.
  rewrite ten_squared.
  rewrite (py_round_up _ 66) by lra. reflexivity.
Qed.

(** [round_figures(0.67 * 1.5, 2) == 1.0]. *)
Lemma round_figures_1005 (x : R) :
  x = 1005 / 1000 -> round_figures x 2 = Ok 1.
Proof.
  intros ->. unfold round_figures, math_log10.
  rewrite Rabs_pos_eq by lra.
  rewrite (proj2 (Rleb_false (1005 / 1000) 0)) by lra.
  rewrite ceil_log10_units by lra.
  unfold py_round_to. change (2 - 1)%Z with 1%Z.
  rewrite ten_to_one.
  rewrite (py_round_down _ 10) by lra. f_equal. field.
Qed.

(** [round_figures(1, 2) == 1]. *)
Lemma round_figures_one (x : R) : x = 1 -> round_figures x 2 = Ok 1.
Proof.
  intros ->. unfold round_figures, math_log10.
  rewrite Rabs_pos_eq by lra.
  rewrite (proj2 (Rleb_false 1 0)) by lra.
  rewrite ceil_log10_tenths by lra.
  unfold py_round_to. change (2 - 0)%Z with 2%Z.
  rewrite ten_squared. replace (1 * 100) with (IZR 100) by lra.
  rewrite py_round_IZR. f_equal. field.
Qed.

Ltac decide_cmp :=
  match goal with
  | |- context [Rltb ?a ?b] =>
      first [ rewrite (proj2 (Rltb_true a b)) by lra
            | rewrite (proj2 (Rltb_false a b)) by lra ]
  | |- context [Rleb ?a ?b] =>
      first [ rewrite (proj2 (Rleb_true a b)) by lra
            | rewrite (proj2 (Rleb_false a b)) by lra ]
  | |- context [Reqb ?a ?b] =>
      first [ rewrite (proj2 (Reqb_true a b)) by lra
            | rewrite (proj2 (Reqb_false a b)) by lra ]
  end.

Ltac run_walk :=
  unfold run; change (Z.to_nat 1) with 1%nat; cbn [run_loop];
  unfold run_step, metropolis, copy_own_state, copy_state, call_revert, truediv;
  unfold_M; cbn -[time_string];
  repeat (decide_cmp; cbn -[time_string]).

(** A probe of one move at temperature [T]: down from [x = 1]. *)
Lemma walk_run_down T cs ds k tr :
  run Walk.with_revert T 1 (Walk.probing 1 (false :: cs) ds k tr)
  = (Ok (0, 1 / 1, 1 / 1),
     Walk.probing 0 cs ds k (tr ++ [Call Energy; Call Move; Call Energy])).
Proof.
  run_walk. unfold Walk.probing. now rewrite <- !app_assoc.
Qed.

(** Up from [x = 0] with the draw 0: accepted at any temperature but 0. *)
Lemma walk_run_up_accepted T cs ds k tr :
  T <> 0 ->
  run Walk.with_revert T 1 (Walk.probing 0 (true :: cs) (0 :: ds) k tr)
  = (Ok (1, 1 / 1, 0 / 1),
     Walk.probing 1 cs ds k (tr ++ [Call Energy; Call Move; Call Energy])).
Proof.
  intros HT. run_walk.
  rewrite (proj2 (Rltb_false (exp (- (1 - 0) / T)) 0))
    by (left; apply exp_pos).
  cbn. unfold Walk.probing. now rewrite <- !app_assoc.
Qed.

(** Up from [x = 0] with the draw [1/2] at a temperature of at most 1:
    rejected, and the state is put back. *)
Lemma walk_run_up_rejected T cs ds k tr :
  0 < T <= 1 ->
  run Walk.with_revert T 1 (Walk.probing 0 (true :: cs) (1 / 2 :: ds) k tr)
  = (Ok (0, 0 / 1, 0 / 1),
     Walk.probing 0 cs ds k
       (tr ++ [Call Energy; Call Move; Call Energy; Call Revert])).
Proof.
  intros [Hlo Hhi]. run_walk.
  assert (Hexp : exp (- (1 - 0) / T) < 1 / 2).
  { replace (- (1 - 0) / T) with (- / T) by (field; lra).
    rewrite exp_Ropp.
    assert (H1 : 1 <= / T).
    { apply Rmult_le_reg_l with T; [lra |]. rewrite Rinv_r by lra. lra. }
    assert (H0 : / T <> 0) by (intros Heq; rewrite Heq in H1; lra).
    pose proof (exp_ineq1 (/ T) H0) as H2.
    replace (1 / 2) with (/ 2) by lra.
    apply Rinv_lt_contravar; [| lra].
    apply Rmult_lt_0_compat; [lra | apply exp_pos]. }
  rewrite (proj2 (Rltb_true _ _) Hexp). cbn.
  unfold Walk.probing. now rewrite <- !app_assoc.
Qed.

(** The progress report of a probe. *)
Lemma walk_update n T E1 acc imp x cs ds k tr :
  n <> 0%Z ->
  update Walk.with_revert n T E1 (Some acc) (Some imp) (Walk.probing x cs ds k tr)
  = (Ok tt,
     Walk.probing x cs ds (k + 1)
       (tr ++ [Info (Progress T E1 (100 * acc) (100 * imp) (time_string (k - 0))
                       (time_string (IZR (50000 - n) * ((k - 0) / IZR n))))])).
Proof.
  intros Hn. unfold update, default_update, truediv. unfold_M. cbn -[time_string].
  rewrite (proj2 (Z.eqb_neq n 0) Hn).
  rewrite (proj2 (Reqb_false (IZR n) 0)); [reflexivity |].
  intros H. now apply eq_IZR_R0 in H.
Qed.

(** The search for a first temperature: one move up from [x = 0]. *)
Lemma walk_seed cs ds k tr :
  seed_temperature Walk.with_revert 1 0 0 0 (Walk.probing 0 (true :: cs) ds k tr)
  = (Ok (1%Z, 1), Walk.probing 1 cs ds k (tr ++ [Call Move; Call Energy])).
Proof.
  cbn [seed_temperature]. rewrite (proj2 (Reqb_true 0 0)) by reflexivity.
  unfold_M. cbn.
  replace (Rabs (1 - 0)) with 1 by (rewrite Rabs_pos_eq; lra).
  rewrite (proj2 (Reqb_false 1 0)) by lra.
  unfold Walk.probing. now rewrite <- !app_assoc.
Qed.

(** [auto(minutes=1/60, steps=1)] on the walk with a [revert]: the first
    probe accepts its move, the probe at 0.67 rejects, the probe at 1.0
    accepts without improving; the three searches end with
    [Tmax = Tmin = 1], and line 288 raises. *)
Lemma walk_auto_raises :
  exists w',
    auto Walk.with_revert 1 (1 / 60) 1
      (Walk.world 0 [true; false; true; true] [1 / 2; 0])
    = (Raise (AttributeError "updates"), w').
Proof.
  eexists. unfold auto.
  erewrite bind_run_Ok by reflexivity.
  erewrite bind_run_Ok by reflexivity.
  erewrite bind_run_Ok by reflexivity.
  erewrite bind_run_Ok
    by (unfold update, default_update; unfold_M; cbn -[time_string]; reflexivity).
  erewrite bind_run_Ok by (apply walk_seed).
  cbv beta iota.
  erewrite bind_run_Ok by (apply walk_run_down).
  cbv beta iota.
  (* while acceptance > 0.98: one probe, at 0.67, rejected *)
  erewrite bind_run_Ok.
  2:{ cbn [search s_acceptance].
      rewrite (proj2 (Rltb_true (98 / 100) (1 / 1))) by lra.
      erewrite bind_run_Ok.
      2:{ unfold probe. cbn [s_T s_step].
          erewrite bind_run_Ok
            by (unfold lift; rewrite round_figures_two_thirds by field; reflexivity).
          erewrite bind_run_Ok by (apply walk_run_up_rejected; lra).
          cbv beta iota.
          erewrite bind_run_Ok by (apply walk_update; lia).
          reflexivity. }
      cbn [s_acceptance].
      rewrite (proj2 (Rltb_false (98 / 100) (0 / 1))) by lra. reflexivity. }
  (* while acceptance < 0.98: one probe, at 1.0, accepted *)
  erewrite bind_run_Ok.
  2:{ cbn [search s_acceptance].
      rewrite (proj2 (Rltb_true (0 / 1) (98 / 100))) by lra.
      erewrite bind_run_Ok.
      2:{ unfold probe. cbn [s_T s_step].
          erewrite bind_run_Ok
            by (unfold lift; rewrite round_figures_1005 by field; reflexivity).
          erewrite bind_run_Ok by (apply walk_run_up_accepted; lra).
          cbv beta iota.
          erewrite bind_run_Ok by (apply walk_update; lia).
          reflexivity. }
      cbn [s_acceptance].
      rewrite (proj2 (Rltb_false (1 / 1) (98 / 100))) by lra. reflexivity. }
  (* while improvement > 0.0: no probe *)
  erewrite bind_run_Ok.
  2:{ cbn [search s_improvement].
      rewrite (proj2 (Rltb_false 0 (0 / 1))) by lra. reflexivity. }
  (* lines 284-288 *)
  erewrite bind_run_Ok by reflexivity.
  erewrite bind_run_Ok by reflexivity.
  erewrite bind_run_Ok by reflexivity.
  cbn [s_step]. change (1 + 1 + 1 + 1)%Z with 4%Z.
  assert (Hrate : 60 * (1 / 60) * 4 / (0 + 1 + 1 + 1 + 1 - 0) = 1) by field.
  erewrite bind_run_Ok.
  2:{ unfold lift, truediv. cbn [Walk.clock env Walk.probing].
      rewrite (proj2 (Reqb_false (0 + 1 + 1 + 1 + 1 - 0) 0)) by lra.
      rewrite Hrate. reflexivity. }
  erewrite bind_run_Ok.
  2:{ unfold lift. rewrite round_figures_one; [reflexivity |].
      unfold py_int. rewrite (proj2 (Rltb_false 1 0)) by lra.
      now rewrite (ZfloorZ 1). }
  reflexivity.
Qed.

Lemma auto_needs_updates_attribute_witness :
  (forall a w',
      auto Walk.with_revert 1 (1 / 60) 1
        (Walk.world 0 [true; false; true; true] [1 / 2; 0]) <> (Ok a, w')) /\
  exists w',
    auto Walk.with_revert 1 (1 / 60) 1
      (Walk.world 0 [true; false; true; true] [1 / 2; 0])
    = (Raise (AttributeError "updates"), w').
Proof.
  split.
  - apply (auto_needs_updates_attribute Walk.with_revert). reflexivity.
  - apply walk_auto_raises.
Defined.

End AutoOfTheWalk.

(** ** The schedule in the driver *)

Section ScheduleInTheDriver.

Context {St Env : Type}.
Variable P : Problem St Env.
Local Open Scope R_scope.

Lemma same_params_effects :
  (forall e, always (@same_params St Env) (emit e)) /\
  (forall src, always (@same_params St Env) (draw src)) /\
  (forall A m (h : hook A), always (@same_params St Env) (call m h)) /\
  (forall s, always (@same_params St Env) (assign (set_state s))) /\
  (forall t, always (@same_params St Env) (assign (set_start t))) /\
  (forall b, always (@same_params St Env) (assign (set_best_state b))) /\
  (forall b, always (@same_params St Env) (assign (set_best_energy b))).
Proof.
  repeat split; intros; intros w; unfold same_params, draw, call; cbn;
    try reflexivity.
  - now destruct (src (env w)).
  - now destruct (h (state (self w)) (env w)) as [[r s] e].
Qed.

Lemma same_params_anneal_start f : always same_params (anneal_start P f).
Proof.
  destruct same_params_effects as (He & Hd & Hc & Hs & Ht & Hbs & Hbe).
  apply always_anneal_start; try typeclasses eauto; auto.
Qed.

Lemma same_params_anneal_step l : always same_params (anneal_step P l).
Proof.
  destruct same_params_effects as (He & Hd & Hc & Hs & Ht & Hbs & Hbe).
  apply always_anneal_step; try typeclasses eauto; auto.
  intros E1. apply always_keep_best'; try typeclasses eauto; auto.
Qed.

(** The loop is entered at step 0 with [T = tmax] (line 163) and the
    factor of line 160. *)
Lemma anneal_init_schedule (p : AnnealerParams) (l0 : Locals St) (w w0 : World St Env) :
  anneal_init P (Some p) w = (Ok l0, w0) ->
  step l0 = 0%Z /\ T l0 = tmax p /\
  cooling_factor (tmax p) (tmin p) = Ok (Tfactor l0) /\
  params (self w0) = p.
Proof.
  intros H. unfold anneal_init, open_trace in H. invert_runs.
  match goal with
  | Hopen : (if ?c then _ else _) _ = (Ok _, ?w1),
    Hstart : anneal_start _ _ _ = (Ok _, _) |- _ =>
      assert (Hp : params (self w1) = p) by (destruct c; invert_runs; reflexivity);
      pose proof (always_run _ _ _ _ _ (same_params_anneal_start _) Hstart) as Hsame;
      unfold same_params in Hsame; rewrite Hp in Hsame;
      unfold anneal_start in Hstart; invert_runs
  end.
  match goal with
  | H : (if ?c then _ else _) _ = (Ok _, _) |- _ =>
      destruct c; [discriminate H |]; invert_runs
  end.
  now repeat split.
Qed.

(** Each turn of the loop advances the step by one and sets [T] by the
    formula of line 178. *)
Lemma anneal_step_schedule (l l' : Locals St) (w w' : World St Env) :
  anneal_step P l w = (Ok l', w') ->
  step l' = (step l + 1)%Z /\ Tfactor l' = Tfactor l /\
  params (self w') = params (self w) /\
  temperature (tmax (params (self w))) (Tfactor l) (step l + 1)
    (steps (params (self w))) = Ok (T l').
Proof.
  intros H.
  pose proof (always_run _ _ _ _ _ (same_params_anneal_step l) H) as Hsame.
  unfold anneal_step in H. invert_runs.
  match goal with
  | Hbranch : (if ?rej then _ else _) _ = (Ok ?l1, _),
    Hrep : report _ _ _ = (Ok _, _) |- _ =>
      assert (Hl1 : step l1 = (step l + 1)%Z /\ Tfactor l1 = Tfactor l /\
                    temperature (tmax (params (self w))) (Tfactor l) (step l + 1)
                      (steps (params (self w))) = Ok (T l1))
        by (destruct rej; [unfold reject in Hbranch | unfold accept in Hbranch];
            invert_runs; now repeat split);
      unfold report in Hrep; invert_runs
  end.
  destruct Hl1 as (H1 & H2 & H3).
  repeat match goal with
         | H : (if ?c then _ else _) _ = (Ok _, _) |- _ => destruct c; invert_runs
         end;
    now repeat split.
Qed.

(** C8: for [tmax > 0], [tmin > 0] and a step count other than 0, the
    temperature [tmax * exp(k * step / steps)] with [k = -ln(tmax / tmin)]
    is [tmax] at step 0 and [tmin] at step [steps]; it is positive, and
    from one step to the next it is multiplied by the constant
    [exp(k / steps)], which lies below 1 when [tmin < tmax]: an exponential
    decay.  This is the schedule of the driver: the loop is entered at
    step 0 with [T = tmax] and the factor [k], and a turn that completes
    has advanced [step] by one and set [T] to the formula's value at the
    new step. *)
Theorem temperature_schedule (p : AnnealerParams) :
  0 < tmax p -> 0 < tmin p -> steps p <> 0%Z ->
  let k := - ln (tmax p / tmin p) in
  let schedule := fun n : Z => tmax p * exp (k * IZR n / IZR (steps p)) in
  schedule 0%Z = tmax p /\
  schedule (steps p) = tmin p /\
  (forall n, schedule (n + 1)%Z = schedule n * exp (k / IZR (steps p))) /\
  (forall n, 0 < schedule n) /\
  ((0 < steps p)%Z -> tmin p < tmax p -> 0 < exp (k / IZR (steps p)) < 1) /\
  (forall w l0 w0,
      anneal_init P (Some p) w = (Ok l0, w0) ->
      step l0 = 0%Z /\ T l0 = tmax p /\ Tfactor l0 = k /\ params (self w0) = p) /\
  (forall l w l' w',
      params (self w) = p -> Tfactor l = k ->
      anneal_step P l w = (Ok l', w') ->
      step l' = (step l + 1)%Z /\ Tfactor l' = k /\ params (self w') = p /\
      T l' = schedule (step l')).
Proof.
  intros Hmax Hmin Hsteps k schedule.
  assert (HsR : IZR (steps p) <> 0).
  { intros H. now apply eq_IZR_R0 in H. }
  split; [| split; [| split; [| split; [| split; [| split]]]]].
  - unfold schedule. replace (k * 0 / IZR (steps p)) with 0 by (field; assumption).
    rewrite exp_0. ring.
  - unfold schedule.
    replace (k * IZR (steps p) / IZR (steps p)) with k by (field; assumption).
    unfold k. rewrite exp_cooling by assumption. field. lra.
  - intros n. unfold schedule.
    rewrite plus_IZR, Rmult_assoc, <- exp_plus. f_equal. f_equal. field. assumption.
  - intros n. unfold schedule.
    apply Rmult_lt_0_compat; [assumption | apply exp_pos].
  - intros Hpos Hlt. split; [apply exp_pos |].
    rewrite <- exp_0. apply exp_increasing.
    assert (Hln : 0 < ln (tmax p / tmin p)).
    { rewrite <- ln_1. apply ln_increasing; [lra |].
      apply Rmult_lt_reg_r with (tmin p); [assumption |].
      unfold Rdiv. rewrite Rmult_assoc, Rinv_l by lra. lra. }
    assert (Hinv : 0 < / IZR (steps p)).
    { apply Rinv_0_lt_compat. now apply IZR_lt. }
    unfold k, Rdiv. rewrite <- Ropp_mult_distr_l.
    assert (0 < ln (tmax p / tmin p) * / IZR (steps p))
      by now apply Rmult_lt_0_compat.
    lra.
  - intros w l0 w0 H.
    destruct (anneal_init_schedule _ _ _ _ H) as (H1 & H2 & H3 & H4).
    rewrite cooling_factor_Ok in H3 by assumption. injection H3 as H3.
    now repeat split.
  - intros l w l' w' Hp Hk H.
    destruct (anneal_step_schedule _ _ _ _ H) as (H1 & H2 & H3 & H4).
    rewrite Hp in H3, H4. rewrite temperature_Ok in H4 by assumption.
    injection H4 as H4. rewrite Hk in H2, H4.
    repeat split; try assumption. rewrite H1. unfold schedule. now rewrite <- H4.
Qed.

End ScheduleInTheDriver.

Lemma temperature_schedule_witness :
  (10 * exp (- ln (10 / (1 / 10)) * 0 / 1000) = 10)%R /\
  (10 * exp (- ln (10 / (1 / 10)) * 1000 / 1000) = 1 / 10)%R.
Proof.
  destruct (temperature_schedule Walk.problem
              {| steps := 1000; tmax := 10; tmin := 1 / 10;
                 copy_strategy := "deepcopy"; pos := 0; updates := 100;
                 output_file := "" |}) as (H0 & Hn & _);
    [cbn; lra | cbn; lra | discriminate |].
  split; [exact H0 | exact Hn].
Defined.

(** ** The loop of [anneal] ends *)

Section Termination.

Context {St Env : Type}.
Variable P : Problem St Env.
Hypothesis Hterm : terminating P.

Lemma total_ret {A} (a : A) : total (@ret St Env A a).
Proof. intros w. discriminate. Qed.

Lemma total_raise {A} (e : exn) : total (@raise St Env A e).
Proof. intros w. discriminate. Qed.

Lemma total_gets {A} (f : Annealer St -> A) : total (@gets St Env A f).
Proof. intros w. discriminate. Qed.

Lemma total_assign (f : Annealer St -> Annealer St) : total (@assign St Env f).
Proof. intros w. discriminate. Qed.

Lemma total_emit (e : event) : total (@emit St Env e).
Proof. intros w. discriminate. Qed.

Lemma total_draw (src : Env -> R * Env) : total (@draw St Env src).
Proof. intros w. unfold draw. destruct (src (env w)). discriminate. Qed.

Lemma total_lift {A} (r : result A) : r <> Diverge -> total (@lift St Env A r).
Proof. intros H w. exact H. Qed.

Lemma total_bind {A B} (m : M St Env A) (k : A -> M St Env B) :
  total m -> (forall a, total (k a)) -> total (bind m k).
Proof.
  intros Hm Hk w. unfold bind. specialize (Hm w).
  destruct (m w) as [[a | e |] w1]; cbn in *;
    [apply Hk | discriminate | contradiction].
Qed.

Lemma truediv_total a b : truediv a b <> Diverge.
Proof. unfold truediv. destruct (Reqb b 0); discriminate. Qed.

Lemma floordiv_total a b : floordiv a b <> Diverge.
Proof. unfold floordiv. destruct (Reqb b 0); discriminate. Qed.

Lemma number_total {A} (v : option A) : number v <> Diverge.
Proof. destruct v; discriminate. Qed.

Lemma temperature_total tmax k n steps : temperature tmax k n steps <> Diverge.
Proof.
  unfold temperature, truediv. destruct (Reqb _ 0); discriminate.
Qed.

Lemma cooling_factor_total tmax tmin : cooling_factor tmax tmin <> Diverge.
Proof.
  unfold cooling_factor, truediv, math_log.
  destruct (Reqb _ 0); [discriminate |]. destruct (Rleb _ 0); discriminate.
Qed.

Ltac total_step :=
  first [ apply total_ret | apply total_raise | apply total_gets | apply total_assign
        | apply total_emit | apply total_draw
        | apply total_lift;
          first [ apply truediv_total | apply floordiv_total | apply number_total
                | apply temperature_total | apply cooling_factor_total
                | apply Hterm ] ].

Ltac total_seq tac :=
  repeat first
    [ apply total_bind; [first [total_step | tac] | intros]
    | total_step | tac ].

Lemma total_call_move : total (call Move (move P)).
Proof.
  intros w. unfold call.
  destruct (move P (state (self w)) (env w)) as [[r s] e] eqn:H. cbn.
  destruct Hterm as (Hmove & _). specialize (Hmove (state (self w)) (env w)).
  now rewrite H in Hmove.
Qed.

Lemma total_call_energy : total (call Energy (energy P)).
Proof.
  intros w. unfold call.
  destruct (energy P (state (self w)) (env w)) as [[r s] e] eqn:H. cbn.
  destruct Hterm as (_ & Henergy & _). specialize (Henergy (state (self w)) (env w)).
  now rewrite H in Henergy.
Qed.

Lemma total_call_revert : total (call_revert P).
Proof.
  unfold call_revert. destruct (revert P) as [h |] eqn:Hh; [| apply total_raise].
  intros w. unfold call.
  destruct (h (state (self w)) (env w)) as [[r s] e] eqn:H. cbn.
  destruct Hterm as (_ & _ & Hrevert & _).
  specialize (Hrevert h (state (self w)) (env w) Hh). now rewrite H in Hrevert.
Qed.

Lemma total_copy_state (s : St) : total (copy_state P s).
Proof.
  destruct Hterm as (_ & _ & _ & Hcopy). destruct (Hcopy s) as (H1 & H2 & H3).
  unfold copy_state. apply total_bind; [apply total_gets | intros c].
  repeat (destruct (_ =? _)%string; [now apply total_lift |]).
  apply total_raise.
Qed.

Lemma total_copy_own_state : total (copy_own_state P).
Proof.
  unfold copy_own_state. apply total_bind; [apply total_gets | apply total_copy_state].
Qed.

Lemma total_update n T1 E1 acc imp : total (update P n T1 E1 acc imp).
Proof.
  unfold update, default_update. total_seq fail.
  destruct (n =? 0)%Z; total_seq fail.
Qed.

Lemma total_trace_write f t : total (@trace_write St Env f t).
Proof. unfold trace_write. destruct f; total_step. Qed.

Lemma total_trace_row (l : Locals St) n T1 E1 : total (@trace_row St Env l n T1 E1).
Proof. unfold trace_row. destruct (f l); total_seq fail. Qed.

Lemma total_metropolis dE T1 : total (metropolis P dE T1).
Proof. unfold metropolis. destruct (Rltb 0 dE); total_seq fail. Qed.

Lemma total_keep_best E1 : total (keep_best P E1).
Proof.
  unfold keep_best. total_seq fail.
  destruct (Rltb _ _); total_seq ltac:(apply total_copy_own_state).
Qed.

Lemma total_reject l n T1 E1 k : total (reject P l n T1 E1 k).
Proof.
  unfold reject.
  total_seq ltac:(first [apply total_trace_write | apply total_copy_state
                        | apply total_call_revert]).
Qed.

Lemma total_accept l n T1 E1 dE k : total (accept P l n T1 E1 dE k).
Proof.
  unfold accept.
  total_seq ltac:(first [apply total_trace_write | apply total_copy_own_state
                        | apply total_keep_best]).
Qed.

Lemma total_report l : total (report P l).
Proof.
  unfold report. total_seq fail.
  destruct (1 <? _)%Z; [| total_step].
  apply total_bind.
  { apply total_lift. destruct (updateWavelength l); discriminate. }
  intros wavelength. total_seq fail.
  destruct (Rltb _ _); total_seq ltac:(apply total_update).
Qed.

Lemma total_anneal_step l : total (anneal_step P l).
Proof.
  unfold anneal_step.
  total_seq ltac:(first [apply total_call_move | apply total_trace_row
                        | apply total_metropolis]).
  apply total_bind; [| intros; apply total_report].
  match goal with |- total (if ?b then _ else _) => destruct b end;
    [apply total_reject | apply total_accept].
Qed.

(** [step] grows by one each turn (and [self.params] stays), so the turns
    the loop is given are enough: it stops because [step] has reached
    [steps], or because a turn raised. *)
Lemma anneal_loop_ends (n : nat) :
  forall (l : Locals St) (w : World St Env),
    (steps (params (self w)) - step l <= Z.of_nat n)%Z ->
    fst (anneal_loop P n l w) <> Diverge.
Proof.
  induction n as [| n IH]; intros l w Hle; cbn [anneal_loop];
    unfold bind at 1, gets at 1; cbv beta iota;
    destruct (step l <? steps (params (self w)))%Z eqn:Hlt;
    try (cbn; discriminate).
  - apply Z.ltb_lt in Hlt. lia.
  - apply Z.ltb_lt in Hlt. unfold bind.
    destruct (anneal_step P l w) as [[l' | e |] w'] eqn:Hstep.
    + destruct (anneal_step_schedule P _ _ _ _ Hstep) as (Hs & _ & Hp & _).
      apply IH. rewrite Hp, Hs. lia.
    + cbn. discriminate.
    + exfalso. apply (total_anneal_step l w). now rewrite Hstep.
Qed.

Lemma total_anneal_start f : total (anneal_start P f).
Proof.
  unfold anneal_start. total_seq fail.
  destruct (Rleb _ _); [total_step |].
  total_seq ltac:(first [apply total_call_energy | apply total_copy_own_state]).
  apply total_bind.
  - unfold first_update. destruct (0 <? _)%Z; total_seq ltac:(apply total_update).
  - intros wavelength. total_seq fail.
Qed.

Lemma total_anneal_init params' : total (anneal_init P params').
Proof.
  unfold anneal_init. destruct params' as [p |]; total_seq fail;
    (apply total_bind; [| intros; apply total_anneal_start]);
    unfold open_trace; destruct (negb _); total_seq fail.
Qed.

Lemma total_anneal_finish : total (anneal_finish P).
Proof.
  unfold anneal_finish. apply total_bind; [apply total_gets | intros [b |]].
  - total_seq ltac:(apply total_copy_state).
  - apply total_raise.
Qed.

(** With a problem whose methods answer, [anneal] answers: it returns or
    raises. *)
Lemma anneal_ends (params' : option AnnealerParams) (w : World St Env) :
  fst (anneal P params' w) <> Diverge.
Proof.
  unfold anneal, bind.
  destruct (anneal_init P params' w) as [[l0 | e |] w0] eqn:Hinit;
    [| cbn; discriminate
     | exfalso; apply (total_anneal_init params' w); now rewrite Hinit].
  destruct params' as [p |]; [| discriminate Hinit].
  destruct (anneal_init_schedule P _ _ _ _ Hinit) as (Hstep & _ & _ & Hp).
  unfold gets. cbv beta iota.
  pose proof (anneal_loop_ends (Z.to_nat (steps (params (self w0)))) l0 w0) as Hloop.
  destruct (anneal_loop P (Z.to_nat (steps (params (self w0)))) l0 w0)
    as [[l1 | e |] w1];
    [apply total_anneal_finish | cbn; discriminate |].
  exfalso. apply Hloop; [| reflexivity]. rewrite Hstep. lia.
Qed.

End Termination.

(** ** Rounding *)

Section Rounding.

Local Open Scope R_scope.

Lemma py_round_near (x : R) (z : Z) :
  IZR z - 1 / 2 < x < IZR z + 1 / 2 -> py_round x = z.
Proof.
  intros [Hlo Hhi]. unfold py_round.
  destruct (Rlt_dec x (IZR z)) as [Hlt | Hge].
  - assert (Hf : Zfloor x = (z - 1)%Z).
    { apply Zfloor_eq. rewrite minus_IZR. lra. }
    rewrite Hf, minus_IZR.
    rewrite (proj2 (Rltb_false (x - (IZR z - 1)) (1 / 2))) by lra.
    rewrite (proj2 (Rltb_true (1 / 2) (x - (IZR z - 1)))) by lra.
    lia.
  - assert (Hf : Zfloor x = z) by (apply Zfloor_eq; lra).
    rewrite Hf.
    now rewrite (proj2 (Rltb_true (x - IZR z) (1 / 2))) by lra.
Qed.

Lemma py_round_tie (z : Z) :
  py_round (IZR z + 1 / 2) = if Z.even z then z else (z + 1)%Z.
Proof.
  unfold py_round.
  assert (Hf : Zfloor (IZR z + 1 / 2) = z) by (apply Zfloor_eq; lra).
  rewrite Hf.
  rewrite (proj2 (Rltb_false (IZR z + 1 / 2 - IZR z) (1 / 2))) by lra.
  now rewrite (proj2 (Rltb_false (1 / 2) (IZR z + 1 / 2 - IZR z))) by lra.
Qed.

Lemma py_round_error (x : R) : Rabs (IZR (py_round x) - x) <= 1 / 2.
Proof.
  unfold py_round. pose proof (Zfloor_bound x) as [Hlo Hhi].
  destruct (Rltb (x - IZR (Zfloor x)) (1 / 2)) eqn:Hd.
  - apply Rltb_true in Hd. apply Rabs_le. lra.
  - apply Rltb_false in Hd.
    destruct (Rltb (1 / 2) (x - IZR (Zfloor x))) eqn:Hu.
    + rewrite plus_IZR. apply Rabs_le. lra.
    + apply Rltb_false in Hu.
      destruct (Z.even (Zfloor x)); [| rewrite plus_IZR]; apply Rabs_le; lra.
Qed.

Lemma py_round_to_error (x : R) (d : Z) :
  Rabs (py_round_to x d - x) <= powerRZ 10 (- d) / 2.
Proof.
  unfold py_round_to.
  assert (Hp : 0 < powerRZ 10 d) by (apply powerRZ_lt; lra).
  rewrite powerRZ_neg'.
  replace (IZR (py_round (x * powerRZ 10 d)) / powerRZ 10 d - x)
    with ((IZR (py_round (x * powerRZ 10 d)) - x * powerRZ 10 d) * / powerRZ 10 d)
    by (field; lra).
  rewrite Rabs_mult, (Rabs_pos_eq (/ powerRZ 10 d))
    by (left; now apply Rinv_0_lt_compat).
  pose proof (py_round_error (x * powerRZ 10 d)) as He.
  assert (Hi : 0 < / powerRZ 10 d) by now apply Rinv_0_lt_compat.
  nra.
Qed.

(** [x] is above the power of ten below its decade. *)
Lemma decade_below (x : R) :
  0 < x -> powerRZ 10 (Zceil (ln x / ln 10) - 1) < x.
Proof.
  intros Hx.
  assert (H10 : 0 < ln 10) by (rewrite <- ln_1; apply ln_increasing; lra).
  rewrite powerRZ_Rpower by lra. unfold Rpower.
  apply Rlt_le_trans with (exp (ln x)); [| right; now apply exp_ln].
  apply exp_increasing. rewrite minus_IZR.
  pose proof (Zceil_bound (ln x / ln 10)) as [Hlo _].
  apply (Rmult_lt_compat_r (ln 10)) in Hlo; [| assumption].
  replace (ln x / ln 10 * ln 10) with (ln x) in Hlo by (field; lra).
  exact Hlo.
Qed.

Lemma round_figures_Ok (x : R) (n : Z) :
  x <> 0 ->
  round_figures x n = Ok (py_round_to x (n - Zceil (ln (Rabs x) / ln 10))).
Proof.
  intros Hx. unfold round_figures, math_log10.
  now rewrite (proj2 (Rleb_false (Rabs x) 0)) by now apply Rabs_pos_lt.
Qed.

(** The error of [round_figures], relative to [x]. *)
Lemma round_figures_relative (x : R) (n : Z) :
  x <> 0 ->
  exists r,
    round_figures x n = Ok r /\
    Rabs (r - x) < Rabs x * (5 * powerRZ 10 (- n)).
Proof.
  intros Hx. rewrite round_figures_Ok by assumption.
  eexists; split; [reflexivity |].
  set (c := Zceil (ln (Rabs x) / ln 10)).
  eapply Rle_lt_trans; [apply py_round_to_error |].
  assert (Hax : 0 < Rabs x) by now apply Rabs_pos_lt.
  pose proof (decade_below (Rabs x) Hax) as Hlow. fold c in Hlow.
  replace (- (n - c))%Z with ((c - 1) + (1 + - n))%Z by lia.
  rewrite powerRZ_add by lra.
  rewrite (powerRZ_add 10 1 (- n)) by lra.
  change (powerRZ 10 1) with (10 * 1).
  assert (Hn : 0 < powerRZ 10 (- n)) by (apply powerRZ_lt; lra).
  assert (Hc : 0 < powerRZ 10 (c - 1)) by (apply powerRZ_lt; lra).
  nra.
Qed.

End Rounding.

(** X1: [round_figures(x, n)] raises the math domain error of
    [math.log10] for [x = 0], whatever [n], and returns a number for every
    other [x]. *)
Theorem round_figures_domain (x : R) (n : Z) :
  (x = 0%R -> round_figures x n = Raise ValueError) /\
  (x <> 0%R -> exists r, round_figures x n = Ok r) /\
  ((exists r, round_figures x n = Ok r) <-> x <> 0%R).
Proof.
  assert (Hzero : x = 0%R -> round_figures x n = Raise ValueError).
  { intros ->. unfold round_figures, math_log10. rewrite Rabs_R0.
    now rewrite (proj2 (Rleb_true 0 0)) by lra. }
  assert (Hother : x <> 0%R -> exists r, round_figures x n = Ok r).
  { intros Hx. eexists. now apply round_figures_Ok. }
  repeat split; try assumption.
  intros [r Hr] Hx. rewrite (Hzero Hx) in Hr. discriminate.
Qed.

Lemma round_figures_domain_witness :
  round_figures 0 2 = Raise ValueError /\ exists r, round_figures 1234 2 = Ok r.
Proof.
  split.
  - apply (proj1 (round_figures_domain 0 2)). reflexivity.
  - apply (proj1 (proj2 (round_figures_domain 1234 2))). lra.
Defined.

(** X2: for [x <> 0], [round_figures(x, n)] is a whole multiple of the unit
    of the [n]-th significant figure of [x], within half that unit of
    [x], which is less than [5 * 10^-n] of [|x|]. *)
Theorem round_figures_accuracy (x : R) (n : Z) :
  x <> 0%R ->
  let unit := powerRZ 10 (Zceil (ln (Rabs x) / ln 10) - n) in
  exists r k,
    round_figures x n = Ok r /\
    r = (IZR k * unit)%R /\
    (Rabs (r - x) <= unit / 2)%R /\
    (Rabs (r - x) < Rabs x * (5 * powerRZ 10 (- n)))%R.
Proof.
  intros Hx unit.
  destruct (round_figures_relative x n Hx) as (r & Hr & Hrel).
  exists r, (py_round (x * powerRZ 10 (n - Zceil (ln (Rabs x) / ln 10)))).
  rewrite round_figures_Ok in Hr by assumption. injection Hr as <-.
  split; [now apply round_figures_Ok |].
  assert (Hunit : unit = powerRZ 10 (- (n - Zceil (ln (Rabs x) / ln 10)))).
  { unfold unit. f_equal. lia. }
  repeat split.
  - unfold py_round_to. rewrite Hunit, powerRZ_neg'. reflexivity.
  - rewrite Hunit. apply py_round_to_error.
  - exact Hrel.
Qed.

Lemma round_figures_accuracy_witness :
  exists r k,
    round_figures (2 / 3) 2 = Ok r /\
    r = (IZR k * powerRZ 10 (Zceil (ln (Rabs (2 / 3)) / ln 10) - 2))%R /\
    (Rabs (r - 2 / 3) <= powerRZ 10 (Zceil (ln (Rabs (2 / 3)) / ln 10) - 2) / 2)%R /\
    (Rabs (r - 2 / 3) < Rabs (2 / 3) * (5 * powerRZ 10 (- (2))))%R.
Proof. apply (round_figures_accuracy (2 / 3) 2). lra. Defined.

(** ** The fields of [time_string] *)

Lemma below_spec (n : nat) (f : Z -> bool) :
  below n f = true -> forall z, 0 <= z < Z.of_nat n -> f z = true.
Proof.
  induction n as [| n IH]; intros Hb z Hz; [lia |].
  cbn [below] in Hb. apply andb_prop in Hb as [Hn Hrest].
  destruct (Z.eq_dec z (Z.of_nat n)) as [-> | Hne]; [assumption |].
  apply IH; [assumption | lia].
Qed.

Lemma length_append (s1 s2 : string) :
  String.length (s1 ++ s2) = (String.length s1 + String.length s2)%nat.
Proof. induction s1 as [| c s1 IH]; cbn; [reflexivity | now rewrite IH]. Qed.

Lemma pct_0i_two_columns (z : Z) :
  0 <= z < 60 -> String.length (Fmt.pct_0i 2 z) = 2%nat.
Proof.
  intros Hz. apply Nat.eqb_eq.
  apply (below_spec (Z.to_nat 60) (fun z => Nat.eqb (String.length (Fmt.pct_0i 2 z)) 2));
    [now vm_compute | lia].
Qed.

Lemma pct_i_four_columns (z : Z) :
  0 <= z < 10000 -> String.length (Fmt.pct_i 4 z) = 4%nat.
Proof.
  intros Hz. apply Nat.eqb_eq.
  apply (below_spec (Z.to_nat 10000) (fun z => Nat.eqb (String.length (Fmt.pct_i 4 z)) 4));
    [now vm_compute | lia].
Qed.

(** X3: for a whole number of seconds, of either sign, [time_string] prints
    hours, minutes and seconds that add up to it, minutes and seconds
    within 0..59 and in two columns each; from 0 seconds up to 9999:59:59
    the string is ten characters long. *)
Theorem time_string_fields (z : Z) :
  exists h m s,
    time_string (IZR z)
    = Fmt.pct_i 4 h ++ ":" ++ Fmt.pct_0i 2 m ++ ":" ++ Fmt.pct_0i 2 s /\
    z = 3600 * h + 60 * m + s /\
    0 <= m < 60 /\ 0 <= s < 60 /\
    String.length (Fmt.pct_0i 2 m) = 2%nat /\
    String.length (Fmt.pct_0i 2 s) = 2%nat /\
    (0 <= z < 36000000 -> String.length (time_string (IZR z)) = 10%nat).
Proof.
  exists (z / 3600), (z mod 3600 / 60), ((z mod 3600) mod 60).
  pose proof (Z.div_mod z 3600 ltac:(lia)) as Hz.
  pose proof (Z.mod_pos_bound z 3600 ltac:(lia)) as Hr.
  pose proof (Z.div_mod (z mod 3600) 60 ltac:(lia)) as Hm.
  pose proof (Z.mod_pos_bound (z mod 3600) 60 ltac:(lia)) as Hs.
  assert (Hmin : 0 <= z mod 3600 / 60 < 60).
  { split; [apply Z.div_pos; lia | apply Z.div_lt_upper_bound; lia]. }
  split; [apply time_string_int |].
  split; [lia |].
  split; [exact Hmin |].
  split; [exact Hs |].
  split; [now apply pct_0i_two_columns |].
  split; [now apply pct_0i_two_columns |].
  intros Hbound. rewrite time_string_int.
  assert (Hh : 0 <= z / 3600 < 10000).
  { split; [apply Z.div_pos; lia | apply Z.div_lt_upper_bound; lia]. }
  rewrite !length_append.
  rewrite pct_i_four_columns, !pct_0i_two_columns by assumption.
  reflexivity.
Qed.

(** X4: [time_string] rounds to the nearest second: every [x] less than half
    a second away from a whole number of seconds prints as that number;
    exactly half-way between two, it prints as the even one. *)
Theorem time_string_rounds (x : R) (z : Z) :
  ((IZR z - 1 / 2 < x < IZR z + 1 / 2)%R -> time_string x = time_string (IZR z)) /\
  (x = (IZR z + 1 / 2)%R ->
   time_string x = time_string (IZR (if Z.even z then z else z + 1))).
Proof.
  split.
  - intros Hx. unfold time_string.
    now rewrite (py_round_near x z Hx), py_round_IZR.
  - intros ->. unfold time_string.
    now rewrite py_round_tie, py_round_IZR.
Qed.

Lemma time_string_rounds_witness :
  time_string (7 / 5) = time_string 1 /\ time_string (5 / 2) = time_string 2.
Proof.
  split.
  - apply (proj1 (time_string_rounds (7 / 5) 1)). lra.
  - apply (proj2 (time_string_rounds (5 / 2) 2)). lra.
Defined.

(** ** The turns of [anneal], taken apart *)

Section Turns.

Context {St Env : Type}.
Variable P : Problem St Env.
Local Open Scope R_scope.

Lemma number_Ok {A} (v : option A) (x : A) : number v = Ok x -> v = Some x.
Proof. destruct v; [intros H; now inversion H | discriminate]. Qed.

Lemma truediv_Ok (a b q : R) : truediv a b = Ok q -> b <> 0 /\ q = a / b.
Proof.
  unfold truediv. destruct (Reqb b 0) eqn:Hb; [discriminate |].
  intros H. apply Reqb_false in Hb. now inversion H.
Qed.

(** What a call of [update] that returned has done (lines 117-132). *)
Lemma update_Ok n T1 E1 acc imp (w w' : World St Env) (u : unit) :
  update P n T1 E1 acc imp w = (Ok u, w') ->
  self w' = self w /\ env w' = snd (time P (env w)) /\
  exists began,
    start (self w) = Some began /\
    ((n = 0%Z /\ trace w' = trace w) \/
     (n <> 0%Z /\
      exists a i,
        acc = Some a /\ imp = Some i /\
        let elapsed := fst (time P (env w)) - began in
        trace w'
        = (trace w
           ++ [Info (Progress T1 E1 (100 * a) (100 * i) (time_string elapsed)
                       (time_string (IZR (steps (params (self w)) - n)
                                     * (elapsed / IZR n))))])%list)).
Proof.
  unfold update, default_update. intros H. invert_runs.
  match goal with
  | Hn : number _ = Ok _ |- _ => apply number_Ok in Hn; cbn in Hn
  end.
  destruct (n =? 0)%Z eqn:Hn.
  - invert_runs. cbn. repeat split. eexists; split; [eassumption |].
    left. split; [now apply Z.eqb_eq | reflexivity].
  - invert_runs.
    repeat match goal with
           | Hv : number _ = Ok _ |- _ => apply number_Ok in Hv; subst
           end.
    match goal with
    | Hd : truediv _ _ = Ok _ |- _ => apply truediv_Ok in Hd as [_ ->]
    end.
    cbn. repeat split. eexists; split; [eassumption |].
    right. split; [now apply Z.eqb_neq |]. now eexists _, _.
Qed.

Lemma trace_row_events (l : Locals St) n T1 E1 (w w' : World St Env) (u : unit) :
  trace_row l n T1 E1 w = (Ok u, w') ->
  self w' = self w /\ env w' = env w /\
  exists b,
    (f l <> None -> best_energy (self w) = Some b) /\
    trace w'
    = (trace w
       ++ file_records (f l)
            [Row n (py_round_to T1 4) (py_round_to (prevEnergy l) 3) (py_round_to E1 3);
             Best (py_round_to b 2)])%list.
Proof.
  unfold trace_row. intros H. destruct (f l) as [path |].
  - invert_runs.
    match goal with
    | Hn : number _ = Ok _ |- _ => apply number_Ok in Hn; cbn in Hn
    end.
    cbn. repeat split. eexists; split; [intros _; eassumption |].
    now rewrite <- app_assoc.
  - invert_runs. repeat split. exists 0. split; [congruence |].
    cbn. now rewrite app_nil_r.
Qed.

Lemma metropolis_Ok (dE T1 : R) (w w' : World St Env) (rej : bool) :
  metropolis P dE T1 w = (Ok rej, w') ->
  self w' = self w /\ trace w' = trace w /\ (rej = true -> 0 < dE /\ T1 <> 0).
Proof.
  unfold metropolis. intros H. destruct (Rltb 0 dE) eqn:HdE.
  - invert_runs.
    match goal with
    | Hd : truediv _ _ = Ok _ |- _ => apply truediv_Ok in Hd as [HT _]
    end.
    apply Rltb_true in HdE. cbn. now repeat split.
  - invert_runs. repeat split; discriminate.
Qed.

Lemma trace_write_events fl t (w w' : World St Env) (u : unit) :
  trace_write fl t w = (Ok u, w') ->
  self w' = self w /\ env w' = env w /\
  trace w' = (trace w ++ file_records fl [t])%list.
Proof.
  unfold trace_write. intros H. destruct fl; invert_runs; cbn; repeat split.
  now rewrite app_nil_r.
Qed.

Lemma call_revert_Ok (w w' : World St Env) (u : unit) :
  call_revert P w = (Ok u, w') ->
  params (self w') = params (self w) /\ start (self w') = start (self w) /\
  best_state (self w') = best_state (self w) /\
  best_energy (self w') = best_energy (self w) /\
  trace w' = (trace w ++ [Call Revert])%list.
Proof.
  unfold call_revert. intros H. destruct (revert P); [| discriminate H].
  invert_runs. cbn. now repeat split.
Qed.

(** What a rejection that completed has done (lines 186-192). *)
Lemma reject_events (l l1 : Locals St) n T1 E1 k (w w' : World St Env) :
  reject P l n T1 E1 k w = (Ok l1, w') ->
  l1 = {| f := f l; Tfactor := Tfactor l; updateWavelength := updateWavelength l;
          step := n; T := T1; E := prevEnergy l;
          prevState := prevState l; prevEnergy := prevEnergy l;
          trials := k; accepts := accepts l; improves := improves l |} /\
  params (self w') = params (self w) /\ start (self w') = start (self w) /\
  best_state (self w') = best_state (self w) /\
  best_energy (self w') = best_energy (self w) /\
  trace w'
  = (trace w
     ++ [Debug (StepLine n (py_round_to (prevEnergy l) 2) (py_round_to E1 2) REJ)]
     ++ file_records (f l) [Accepted false] ++ [Call Revert])%list.
Proof.
  unfold reject. intros H. invert_runs.
  match goal with
  | Hw : trace_write _ _ _ = (Ok _, _) |- _ =>
      apply trace_write_events in Hw as (Hself & _ & Htrace); cbn in Hself, Htrace
  end.
  match goal with
  | Hc : copy_state _ _ _ = (Ok _, _) |- _ => apply copy_state_Ok in Hc; subst
  end.
  match goal with
  | Hr : call_revert _ _ = (Ok _, _) |- _ =>
      apply call_revert_Ok in Hr as (Hp & Hs & Hbs & Hbe & Htr); cbn in Hp, Hs, Hbs, Hbe, Htr
  end.
  split; [reflexivity |].
  rewrite Hp, Hs, Hbs, Hbe, Htr, Htrace, Hself.
  repeat split. now rewrite <- !app_assoc.
Qed.

Lemma keep_best_Ok (E1 : R) (w w' : World St Env) (u : unit) :
  keep_best P E1 w = (Ok u, w') ->
  params (self w') = params (self w) /\ start (self w') = start (self w) /\
  state (self w') = state (self w) /\
  env w' = env w /\ trace w' = trace w /\
  exists b,
    best_energy (self w) = Some b /\
    best_energy (self w') = Some (if Rltb E1 b then E1 else b) /\
    (best_state (self w) <> None -> best_state (self w') <> None).
Proof.
  unfold keep_best. intros H. invert_runs.
  match goal with
  | Hn : number _ = Ok _ |- _ => apply number_Ok in Hn
  end.
  match goal with
  | Hb : (if Rltb E1 ?b then _ else _) _ = (Ok _, _) |- _ =>
      destruct (Rltb E1 b) eqn:Hlt
  end.
  - invert_runs.
    match goal with
    | Hc : copy_own_state _ _ = (Ok _, _) |- _ => apply copy_own_state_Ok in Hc; subst
    end.
    cbn. repeat split. eexists. split; [eassumption |]. rewrite Hlt.
    split; [reflexivity | discriminate].
  - invert_runs. repeat split. eexists. split; [eassumption |]. rewrite Hlt.
    split; [assumption | trivial].
Qed.

(** What an acceptance that completed has done (lines 194-205). *)
Lemma accept_events (l l1 : Locals St) n T1 E1 dE k (w w' : World St Env) :
  accept P l n T1 E1 dE k w = (Ok l1, w') ->
  (exists s,
      l1 = {| f := f l; Tfactor := Tfactor l; updateWavelength := updateWavelength l;
              step := n; T := T1; E := E1; prevState := s; prevEnergy := E1;
              trials := k; accepts := (accepts l + 1)%Z;
              improves := if Rltb dE 0 then (improves l + 1)%Z else improves l |}) /\
  params (self w') = params (self w) /\ start (self w') = start (self w) /\
  (best_state (self w) <> None -> best_state (self w') <> None) /\
  (exists b,
      best_energy (self w) = Some b /\
      best_energy (self w') = Some (if Rltb E1 b then E1 else b)) /\
  trace w'
  = (trace w
     ++ [Debug (StepLine n (py_round_to (prevEnergy l) 2) (py_round_to E1 2) ACC)]
     ++ file_records (f l) [Accepted true])%list.
Proof.
  unfold accept. intros H. invert_runs.
  match goal with
  | Hw : trace_write _ _ _ = (Ok _, _) |- _ =>
      apply trace_write_events in Hw as (Hself & _ & Htrace); cbn in Hself, Htrace
  end.
  match goal with
  | Hc : copy_own_state _ _ = (Ok _, _) |- _ => apply copy_own_state_Ok in Hc; subst
  end.
  match goal with
  | Hb : keep_best _ _ _ = (Ok _, _) |- _ =>
      apply keep_best_Ok in Hb as (Hp & Hs & _ & _ & Htr & b & Hb0 & Hb1 & Hbs)
  end.
  split; [eexists; reflexivity |].
  rewrite Hp, Hs, Htr, Htrace, Hself.
  repeat split.
  - rewrite Hself in Hbs. exact Hbs.
  - exists b. rewrite Hself in Hb0. now split.
  - now rewrite <- !app_assoc.
Qed.

(** What lines 206-209 have done when they completed. *)
Lemma report_events (l l' : Locals St) (w w' : World St Env) :
  report P l w = (Ok l', w') ->
  self w' = self w /\
  ((l' = l /\ trace w' = trace w) \/
   (l' = {| f := f l; Tfactor := Tfactor l; updateWavelength := updateWavelength l;
            step := step l; T := T l; E := E l;
            prevState := prevState l; prevEnergy := prevEnergy l;
            trials := 0; accepts := 0; improves := 0 |} /\
    trials l <> 0%Z /\
    ((step l = 0%Z /\ trace w' = trace w) \/
     exists elapsed remain,
       trace w'
       = (trace w
          ++ [Info (Progress (T l) (E l)
                      (100 * (IZR (accepts l) / IZR (trials l)))
                      (100 * (IZR (improves l) / IZR (trials l)))
                      elapsed remain)])%list))).
Proof.
  unfold report. intros H. invert_runs.
  match goal with
  | Hb : (if (1 <? ?n)%Z then _ else _) _ = (Ok _, _) |- _ => destruct (1 <? n)%Z
  end; [| invert_runs; split; [reflexivity | now left]].
  invert_runs.
  match goal with
  | Hb : (if Rltb ?a ?b then _ else _) _ = (Ok _, _) |- _ => destruct (Rltb a b)
  end; [| invert_runs; split; [reflexivity | now left]].
  invert_runs.
  repeat match goal with
         | Hd : truediv _ _ = Ok _ |- _ => apply truediv_Ok in Hd as [? ->]
         end.
  assert (Htrials : IZR (trials l) <> 0) by assumption.
  match goal with
  | Hu : update _ _ _ _ _ _ _ = (Ok _, _) |- _ =>
      apply update_Ok in Hu as (Hself & _ & began & _ & Hcases)
  end.
  split; [assumption |]. right. split; [reflexivity |].
  split; [intros Hzero; apply Htrials; now rewrite Hzero |].
  destruct Hcases as [[Hz Htr] | (_ & acc0 & imp0 & Ha & Hi & Htr)].
  - now left.
  - right. injection Ha as <-. injection Hi as <-. cbv zeta in Htr.
    eexists _, _. exact Htr.
Qed.

Lemma temperature_inv (tmax0 k : R) (n total : Z) (T1 : R) :
  temperature tmax0 k n total = Ok T1 ->
  total <> 0%Z /\ T1 = tmax0 * exp (k * IZR n / IZR total).
Proof.
  unfold temperature. destruct (truediv _ _) as [x | |] eqn:Hd; try discriminate.
  apply truediv_Ok in Hd as [Hnz ->]. intros H. inversion H. split; [| reflexivity].
  intros ->. now apply Hnz.
Qed.

(** A turn that completed, taken apart: the runs of its parts. *)
Lemma anneal_step_parts (l l' : Locals St) (w w' : World St Env) :
  anneal_step P l w = (Ok l', w') ->
  exists dE s1 e1 w2 rej w3 l1 w4,
    let p := params (self w) in
    let n := (step l + 1)%Z in
    let T1 := tmax p * exp (Tfactor l * IZR n / IZR (steps p)) in
    let w1 := {| self := set_state s1 (self w); env := e1;
                 trace := (trace w ++ [Call Move])%list |} in
    steps p <> 0%Z /\
    move P (state (self w)) (env w) = (Ok dE, s1, e1) /\
    trace_row l n T1 (E l + dE) w1 = (Ok tt, w2) /\
    metropolis P dE T1 w2 = (Ok rej, w3) /\
    (if rej then reject P l n T1 (E l + dE) (trials l + 1)
     else accept P l n T1 (E l + dE) dE (trials l + 1)) w3 = (Ok l1, w4) /\
    report P l1 w4 = (Ok l', w').
Proof.
  intros H. unfold anneal_step in H. invert_runs.
  match goal with
  | Ht : temperature _ _ _ _ = Ok _ |- _ => apply temperature_inv in Ht as [Hnz ->]
  end.
  match goal with
  | Hrow : trace_row _ _ _ _ _ = (Ok ?u, _) |- _ => destruct u
  end.
  match goal with
  | Hmove : move P _ _ = (Ok ?dE, ?s1, ?e1),
    Hrow : trace_row _ _ _ _ _ = (Ok _, ?w2),
    Hmet : metropolis _ _ _ _ = (Ok ?rej, ?w3),
    Hbranch : (if ?rej then _ else _) _ = (Ok ?l1, ?w4),
    Hrep : report _ _ _ = (Ok _, _) |- _ =>
      exists dE, s1, e1, w2, rej, w3, l1, w4; cbv zeta;
      split; [exact Hnz |]; split; [reflexivity |]; split; [exact Hrow |];
      split; [exact Hmet |]; split; [exact Hbranch | exact Hrep]
  end.
Qed.

(** The events of a turn that completed, and what it leaves of the
    variables that do not change in the loop. *)
Lemma anneal_step_events (l l' : Locals St) (w w' : World St Env) :
  anneal_step P l w = (Ok l', w') ->
  (f l' = f l /\ Tfactor l' = Tfactor l /\
   updateWavelength l' = updateWavelength l /\ step l' = (step l + 1)%Z) /\
  (params (self w') = params (self w) /\ start (self w') = start (self w) /\
   (best_state (self w) <> None -> best_state (self w') <> None)) /\
  steps (params (self w)) <> 0%Z /\
  exists d, trace w' = (trace w ++ d)%list /\ turn (f l) (step l + 1) d.
Proof.
  intros H.
  apply anneal_step_parts in H
    as (dE & s1 & e1 & w2 & rej & w3 & l1 & w4 & Hnz & Hmove & Hrow & Hmet & Hbranch & Hrep).
  apply trace_row_events in Hrow as (Hs2 & _ & b & _ & Ht2). cbn in Hs2, Ht2.
  apply metropolis_Ok in Hmet as (Hs3 & Ht3 & _).
  apply report_events in Hrep as (Hs5 & Hrep).
  assert (Hframe :
    (f l1 = f l /\ Tfactor l1 = Tfactor l /\
     updateWavelength l1 = updateWavelength l /\ step l1 = (step l + 1)%Z) /\
    (params (self w4) = params (self w) /\ start (self w4) = start (self w) /\
     (best_state (self w) <> None -> best_state (self w4) <> None)) /\
    exists v,
      trace w4
      = (trace w3
         ++ [Debug (StepLine (step l + 1) (py_round_to (prevEnergy l) 2)
                      (py_round_to (E l + dE) 2) v)]
         ++ file_records (f l) [Accepted (flag v)]
         ++ match v with REJ => [Call Revert] | ACC => [] end)%list).
  { destruct rej.
    - apply reject_events in Hbranch as (-> & Hp & Hst & Hbs & Hbe & Htr).
      rewrite Hp, Hst, Hbs, Hs3, Hs2. cbn.
      split; [now repeat split |]. split; [now repeat split |].
      exists REJ. exact Htr.
    - apply accept_events in Hbranch as ([s ->] & Hp & Hst & Hbs & _ & Htr).
      rewrite Hp, Hst, Hs3, Hs2. cbn.
      split; [now repeat split |]. split.
      + repeat split. intros Hb. apply Hbs. rewrite Hs3, Hs2. exact Hb.
      + exists ACC. rewrite Htr. cbn. now rewrite app_nil_r. }
  destruct Hframe as ((Hf & Hk & Hu & Hn) & (Hp & Hst & Hbs) & v & Htr).
  assert (Hl' : f l' = f l1 /\ Tfactor l' = Tfactor l1 /\
                updateWavelength l' = updateWavelength l1 /\ step l' = step l1).
  { destruct Hrep as [[-> _] | (-> & _)]; now repeat split. }
  destruct Hl' as (Hf' & Hk' & Hu' & Hn').
  split; [repeat split; congruence |].
  split; [rewrite Hs5; now repeat split |].
  split; [assumption |].
  assert (Hinfo : exists info, trace w' = (trace w4 ++ info)%list /\ at_most_one_info info).
  { destruct Hrep as [[_ Htr'] | (_ & _ & [[_ Htr'] | (el & rm & Htr')])].
    - exists []. rewrite app_nil_r. split; [assumption | now left].
    - exists []. rewrite app_nil_r. split; [assumption | now left].
    - eexists. split; [eassumption | right; now eexists]. }
  destruct Hinfo as (info & Htr' & Hinfo).
  eexists. split.
  - rewrite Htr', Htr, Ht3, Ht2. rewrite <- !app_assoc. reflexivity.
  - exists (tmax (params (self w))
            * exp (Tfactor l * IZR (step l + 1) / IZR (steps (params (self w))))),
      (prevEnergy l), (E l + dE), b, v, info.
    split; [| assumption]. unfold turn_events. rewrite <- ?app_assoc. reflexivity.
Qed.

(** The events of the loop, when it ends: one block for each turn still
    to be made. *)
Lemma anneal_loop_events (n : nat) :
  forall (l l' : Locals St) (w w' : World St Env),
    anneal_loop P n l w = (Ok l', w') ->
    f l' = f l /\
    (params (self w') = params (self w) /\ start (self w') = start (self w) /\
     (best_state (self w) <> None -> best_state (self w') <> None)) /\
    exists ds,
      trace w' = (trace w ++ List.concat ds)%list /\
      turns (f l) (step l) ds /\
      List.length ds = Z.to_nat (steps (params (self w)) - step l).
Proof.
  induction n as [| n IH]; intros l l' w w' H; cbn [anneal_loop] in H; invert_runs;
    destruct (step l <? steps (params (self w)))%Z eqn:Hlt;
    try (apply Z.ltb_lt in Hlt); try (apply Z.ltb_ge in Hlt); invert_runs;
    try discriminate.
  - split; [reflexivity |]. split; [now repeat split |].
    exists []. cbn. rewrite app_nil_r. repeat split. lia.
  - match goal with
    | Hstep : anneal_step _ _ _ = (Ok ?l1, ?w1), Hloop : anneal_loop _ _ _ _ = _ |- _ =>
        apply anneal_step_events in Hstep
          as ((Hf & _ & _ & Hn) & (Hp & Hs & Hb) & _ & d & Hd & Hturn);
        apply IH in Hloop as (Hf' & (Hp' & Hs' & Hb') & ds & Hds & Hturns & Hlen)
    end.
    split; [congruence |]. split; [repeat split; try congruence; auto |].
    exists (d :: ds). cbn [List.concat turns List.length].
    split; [rewrite Hds, Hd; now rewrite <- app_assoc |].
    split; [split; [assumption |]; now rewrite <- Hf, <- Hn |].
    rewrite Hlen, Hp, Hn. lia.
  - split; [reflexivity |]. split; [now repeat split |].
    exists []. cbn. rewrite app_nil_r. repeat split. lia.
Qed.

Lemma cooling_factor_inv (tmax0 tmin0 k : R) :
  cooling_factor tmax0 tmin0 = Ok k ->
  tmin0 <> 0 /\ 0 < tmax0 / tmin0 /\ k = - ln (tmax0 / tmin0).
Proof.
  unfold cooling_factor. destruct (truediv _ _) as [q | |] eqn:Hq; try discriminate.
  apply truediv_Ok in Hq as [Hnz ->].
  unfold math_log. destruct (Rleb _ _) eqn:Hle; [discriminate |].
  apply Rleb_false in Hle. intros H. now inversion H.
Qed.

Lemma first_update_Ok p T1 E1 (w w' : World St Env) (x : option R) :
  first_update P p 0 T1 E1 w = (Ok x, w') ->
  self w' = self w /\ trace w' = trace w /\
  x = if (0 <? updates p)%Z then Some (IZR (steps p) / IZR (updates p)) else None.
Proof.
  unfold first_update. intros H. destruct (0 <? updates p)%Z.
  - invert_runs.
    match goal with
    | Hd : truediv _ _ = Ok _ |- _ => apply truediv_Ok in Hd as [_ ->]
    end.
    match goal with
    | Hu : update _ _ _ _ _ _ _ = (Ok _, _) |- _ =>
        apply update_Ok in Hu as (Hself & _ & began & _ & [[_ Htr] | [Hz _]])
    end; [now repeat split | now contradiction Hz].
  - invert_runs. now repeat split.
Qed.

(** What the code before the loop has done when it reaches the loop
    (lines 143-174). *)
Lemma anneal_init_events (p : AnnealerParams) (l0 : Locals St) (w w0 : World St Env) :
  anneal_init P (Some p) w = (Ok l0, w0) ->
  (params (self w0) = p /\ start (self w0) <> None /\ best_state (self w0) <> None /\
   best_energy (self w0) = Some (E l0)) /\
  (0 < tmin p /\ 0 < tmax p) /\
  (f l0 = (if output_file p =? "" then None else Some (output_file p)) /\
   Tfactor l0 = - ln (tmax p / tmin p) /\
   updateWavelength l0
   = (if (0 <? updates p)%Z then Some (IZR (steps p) / IZR (updates p)) else None) /\
   step l0 = 0%Z /\ prevEnergy l0 = E l0 /\
   trials l0 = 0%Z /\ accepts l0 = 0%Z /\ improves l0 = 0%Z) /\
  trace w0 = (trace w ++ prologue (f l0) (E l0))%list.
Proof.
  intros H. unfold anneal_init, open_trace in H. invert_runs.
  assert (Hstart : exists fl w1,
             anneal_start P fl w1 = (Ok l0, w0) /\
             params (self w1) = p /\
             fl = (if output_file p =? "" then None else Some (output_file p)) /\
             trace w1
             = (trace w ++ (match fl with Some path => [Open path] | None => [] end)
                ++ file_records fl [Header])%list).
  { match goal with
    | Hopen : (if negb ?c then _ else _) _ = (Ok ?fl, ?w1) |- _ =>
        exists fl, w1; destruct c; cbn [negb] in Hopen; invert_runs; cbn;
        (split; [assumption |]); repeat split;
        rewrite <- ?app_assoc, ?app_nil_r; reflexivity
    end. }
  clear - Hstart. destruct Hstart as (fl & w1 & H & Hp & Hfl & Htrace).
  revert Hp Hfl Htrace. unfold anneal_start in H. invert_runs.
  match goal with
  | Hb : (if Rleb ?a 0 then _ else _) _ = (Ok _, _) |- _ =>
      destruct (Rleb a 0) eqn:Hmin; [discriminate Hb |]; apply Rleb_false in Hmin
  end.
  invert_runs.
  match goal with
  | Hk : cooling_factor _ _ = Ok _ |- _ => apply cooling_factor_inv in Hk as (_ & Hq & ->)
  end.
  repeat match goal with
         | Hc : copy_own_state _ _ = (Ok _, _) |- _ => apply copy_own_state_Ok in Hc; subst
         end.
  match goal with
  | Hu : first_update _ _ _ _ _ _ = (Ok _, _) |- _ =>
      apply first_update_Ok in Hu as (Hself & Htr & ->)
  end.
  intros Hp Hfl Htrace.
  cbn in *. rewrite Hself, Htr. cbn. rewrite Hp in *.
  assert (Hmax : 0 < tmax p).
  { replace (tmax p) with (tmax p / tmin p * tmin p) by (field; lra).
    now apply Rmult_lt_0_compat. }
  split; [repeat split; discriminate |].
  split; [now split |].
  split; [now repeat split |].
  rewrite Htrace. unfold prologue. rewrite <- !app_assoc. reflexivity.
Qed.

(** What lines 211-214 have done when they returned. *)
Lemma anneal_finish_events (w w' : World St Env) (bs : option St) (be : option R) :
  anneal_finish P w = (Ok (bs, be), w') ->
  trace w' = trace w /\ env w' = env w /\
  bs = best_state (self w) /\ be = best_energy (self w) /\
  best_state (self w') = bs /\ best_energy (self w') = be /\
  params (self w') = params (self w) /\ start (self w') = start (self w) /\
  exists b, bs = Some b /\ copy_state P b w = (Ok (state (self w')), w).
Proof.
  unfold anneal_finish. intros H.
  apply bind_Ok in H as (best & w1 & Hg & H). invert_run Hg.
  destruct (best_state (self w)) as [b |] eqn:Hb; [| discriminate H].
  invert_runs.
  match goal with
  | Hc : copy_state _ _ _ = (Ok _, ?w1) |- _ =>
      pose proof Hc as Hw; apply copy_state_Ok in Hw; subst w1; rename Hc into Hcopy
  end.
  subst w'. repeat (split; [first [reflexivity | assumption] |]).
  exists b. split; [assumption | exact Hcopy].
Qed.

(** The trace of a run of [anneal] that returned. *)
Lemma anneal_events (p : AnnealerParams) (w w' : World St Env) r :
  anneal P (Some p) w = (Ok r, w') ->
  let fl := if output_file p =? "" then None else Some (output_file p) in
  (0 < tmin p /\ 0 < tmax p) /\
  params (self w') = p /\
  exists E0 ds,
    trace w' = (trace w ++ prologue fl E0 ++ List.concat ds)%list /\
    turns fl 0 ds /\
    List.length ds = Z.to_nat (steps p).
Proof.
  intros H fl. unfold anneal in H. invert_runs.
  match goal with
  | Hi : anneal_init _ _ _ = (Ok ?l0, ?w0),
    Hl : anneal_loop _ _ _ _ = (Ok _, _),
    Hr : anneal_finish _ _ = (Ok _, _) |- _ =>
      apply anneal_init_events in Hi
        as ((Hp & _) & Hpos & (Hf & _ & _ & Hn & _) & Htr);
      apply anneal_loop_events in Hl as (_ & (Hp' & _) & ds & Hds & Hturns & Hlen);
      destruct r as [bs be];
      apply anneal_finish_events in Hr as (Hfin & _ & _ & _ & _ & _ & Hp'' & _)
  end.
  split; [assumption |]. split; [congruence |].
  eexists _, ds. rewrite Hfin, Hds, Htr, <- app_assoc.
  fold fl in Hf. rewrite Hf in *. rewrite Hn in *.
  split; [reflexivity |]. split; [assumption |].
  rewrite Hlen, Hp. f_equal. lia.
Qed.

Lemma count_app (Q : event -> bool) (a b : list event) :
  count Q (a ++ b) = (count Q a + count Q b)%nat.
Proof. unfold count. now rewrite filter_app, length_app. Qed.

Lemma count_never (tr : list event) : count (fun _ => false) tr = 0%nat.
Proof. unfold count. induction tr; [reflexivity | assumption]. Qed.

Lemma count_concat (Q1 Q2 : event -> bool) (c : nat) (ds : list (list event)) :
  Forall (fun d => count Q1 d = (c + count Q2 d)%nat) ds ->
  count Q1 (List.concat ds) = (c * List.length ds + count Q2 (List.concat ds))%nat.
Proof.
  induction 1 as [| d ds Hd _ IH]; [cbn; lia |].
  cbn [List.concat List.length]. rewrite !count_app, Hd, IH. lia.
Qed.

Lemma turns_Forall (fl : option string) (ds : list (list event)) :
  forall n, turns fl n ds -> Forall (fun d => exists k, turn fl k d) ds.
Proof.
  induction ds as [| d ds IH]; intros n H; constructor.
  - destruct H as [H _]. exists (n + 1)%Z. exact H.
  - destruct H as [_ H]. now apply IH in H.
Qed.

(** The calls, the logger's lines and the file records of one turn. *)
Lemma turn_counts (fl : option string) (k : Z) (d : list event) :
  turn fl k d ->
  count (is_call Move) d = 1%nat /\ count (is_call Energy) d = 0%nat /\
  count is_step_line d = 1%nat /\
  count (is_call Revert) d = count is_REJ_line d /\
  count is_write d = (match fl with Some _ => 3 | None => 0 end)%nat.
Proof.
  intros (T1 & pe & e & b & v & info & -> & Hinfo).
  destruct fl, v, Hinfo as [-> | [r ->]]; repeat split.
Qed.

Lemma written_app (a b : list event) : written (a ++ b) = (written a ++ written b)%list.
Proof. unfold written. apply flat_map_app. Qed.

Lemma written_turns (path : string) (ds : list (list event)) :
  forall n, turns (Some path) n ds ->
    exists rows,
      written (List.concat ds) = List.concat rows /\
      rows_from n rows /\ List.length rows = List.length ds.
Proof.
  induction ds as [| d ds IH]; intros n H.
  - now exists [].
  - destruct H as [(T1 & pe & e & b & v & info & -> & Hinfo) H].
    apply IH in H as (rows & Hrows & Hfrom & Hlen).
    exists ([Row (n + 1) (py_round_to T1 4) (py_round_to pe 3) (py_round_to e 3);
             Best (py_round_to b 2); Accepted (flag v)] :: rows).
    cbn [List.concat rows_from List.length]. rewrite written_app, Hrows, Hlen.
    split; [| split; [split; [now eexists _, _, _, _, _ | assumption] | reflexivity]].
    f_equal. destruct v, Hinfo as [-> | [r ->]]; reflexivity.
Qed.

Lemma written_without_file (ds : list (list event)) :
  forall n, turns None n ds -> written (List.concat ds) = [].
Proof.
  induction ds as [| d ds IH]; intros n H; [reflexivity |].
  destruct H as [(T1 & pe & e & b & v & info & -> & Hinfo) H].
  cbn [List.concat]. rewrite written_app, (IH _ H), app_nil_r.
  destruct v, Hinfo as [-> | [r ->]]; reflexivity.
Qed.

End Turns.

(** X5: a call of [anneal] that returns has called [energy] once and
    [move] once for each of the [steps] turns (not at all for
    [steps <= 0]); the logger got one line for each turn, and [revert] was
    called once for each line that says REJ. *)
Theorem anneal_call_counts {St Env : Type} (P : Problem St Env) (p : AnnealerParams)
    (w w' : World St Env) (r : option St * option R) (d : list event) :
  anneal P (Some p) w = (Ok r, w') ->
  trace w' = (trace w ++ d)%list ->
  count (is_call Energy) d = 1%nat /\
  count (is_call Move) d = Z.to_nat (steps p) /\
  count is_step_line d = Z.to_nat (steps p) /\
  count (is_call Revert) d = count is_REJ_line d.
Proof.
  intros Hrun Hd.
  apply anneal_events in Hrun as (_ & _ & E0 & ds & Htrace & Hturns & Hlen).
  rewrite Htrace in Hd. apply app_inv_head in Hd. subst d.
  apply turns_Forall in Hturns.
  assert (Hmove : count (is_call Move) (List.concat ds)
                  = (1 * List.length ds + count (fun _ => false) (List.concat ds))%nat).
  { apply count_concat. eapply Forall_impl; [| exact Hturns].
    intros d [k Hk]. apply turn_counts in Hk as (-> & _). now rewrite count_never. }
  assert (Hline : count is_step_line (List.concat ds)
                  = (1 * List.length ds + count (fun _ => false) (List.concat ds))%nat).
  { apply count_concat. eapply Forall_impl; [| exact Hturns].
    intros d [k Hk]. apply turn_counts in Hk as (_ & _ & -> & _). now rewrite count_never. }
  assert (Henergy : count (is_call Energy) (List.concat ds)
                    = (0 * List.length ds + count (fun _ => false) (List.concat ds))%nat).
  { apply count_concat. eapply Forall_impl; [| exact Hturns].
    intros d [k Hk]. apply turn_counts in Hk as (_ & -> & _). now rewrite count_never. }
  assert (Hrevert : count (is_call Revert) (List.concat ds)
                    = (0 * List.length ds + count is_REJ_line (List.concat ds))%nat).
  { apply count_concat. eapply Forall_impl; [| exact Hturns].
    intros d [k Hk]. now apply turn_counts in Hk as (_ & _ & _ & -> & _). }
  rewrite !count_app, Hmove, Hline, Henergy, Hrevert, !count_never, Hlen.
  destruct (output_file p =? ""); cbn; repeat split; lia.
Qed.

(** X6: when [anneal] returns, the trace file, if one was configured,
    holds the header and then, for each of the [steps] turns in order,
    the row with the number of the turn, the best energy and the flag, and
    nothing else; without a trace file nothing is written. *)
Theorem anneal_file_content {St Env : Type} (P : Problem St Env) (p : AnnealerParams)
    (w w' : World St Env) (r : option St * option R) (d : list event) :
  anneal P (Some p) w = (Ok r, w') ->
  trace w' = (trace w ++ d)%list ->
  (output_file p = "" -> written d = []) /\
  (output_file p <> "" ->
   exists rows,
     written d = Header :: List.concat rows /\
     rows_from 0 rows /\
     List.length rows = Z.to_nat (steps p) /\
     count is_write d = (1 + 3 * Z.to_nat (steps p))%nat).
Proof.
  intros Hrun Hd.
  apply anneal_events in Hrun as (_ & _ & E0 & ds & Htrace & Hturns & Hlen).
  rewrite Htrace in Hd. apply app_inv_head in Hd. subst d.
  rewrite written_app, count_app. split.
  - intros Hout. rewrite Hout in *. cbn [String.eqb] in *.
    now rewrite (written_without_file ds 0 Hturns).
  - intros Hout. apply String.eqb_neq in Hout. rewrite Hout in *.
    destruct (written_turns _ ds 0 Hturns) as (rows & Hrows & Hfrom & Hrlen).
    exists rows. rewrite Hrows.
    split; [reflexivity |]. split; [assumption |]. split; [congruence |].
    apply turns_Forall in Hturns.
    assert (Hw : count is_write (List.concat ds)
                 = (3 * List.length ds + count (fun _ => false) (List.concat ds))%nat).
    { apply count_concat. eapply Forall_impl; [| exact Hturns].
      intros d [k Hk]. apply turn_counts in Hk as (_ & _ & _ & _ & ->).
      now rewrite count_never. }
    rewrite Hw, count_never, Hlen. cbn. lia.
Qed.

(** ** The acceptance statistics *)

Section Statistics.

Context {St Env : Type}.
Variable P : Problem St Env.
Local Open Scope R_scope.

Lemma rates_in_range (improved accepted tried : Z) :
  (0 <= improved <= accepted)%Z -> (accepted <= tried)%Z -> tried <> 0%Z ->
  0 <= 100 * (IZR improved / IZR tried) <= 100 * (IZR accepted / IZR tried) /\
  100 * (IZR accepted / IZR tried) <= 100.
Proof.
  intros [H0 Hia] Hat Hnz.
  assert (Ht : 0 < IZR tried) by (apply IZR_lt; lia).
  assert (Hi : 0 <= IZR improved) by (apply IZR_le; lia).
  assert (Hia' : IZR improved <= IZR accepted) by now apply IZR_le.
  assert (Hat' : IZR accepted <= IZR tried) by now apply IZR_le.
  assert (Hinv : 0 < / IZR tried) by now apply Rinv_0_lt_compat.
  unfold Rdiv. repeat split.
  - apply Rmult_le_pos; [lra |]. apply Rmult_le_pos; lra.
  - apply Rmult_le_compat_l; [lra |]. apply Rmult_le_compat_r; lra.
  - replace 100 with (100 * (IZR tried * / IZR tried)) at 2 by (field; lra).
    apply Rmult_le_compat_l; [lra |]. apply Rmult_le_compat_r; lra.
Qed.

Ltac rates_effects :=
  try typeclasses eauto;
  intros;
  first [ apply emits_draw | apply emits_assign | apply emits_keep_best
        | apply emits_call | apply emits_emit ];
  exact I.

Lemma rates_trace_row (l : Locals St) n T1 E1 :
  always (@emits St Env rates_ok) (trace_row l n T1 E1).
Proof. apply always_trace_row; rates_effects. Qed.

Lemma rates_metropolis dE T1 : always (emits rates_ok) (metropolis P dE T1).
Proof. apply always_metropolis; rates_effects. Qed.

Lemma rates_reject l n T1 E1 k : always (emits rates_ok) (reject P l n T1 E1 k).
Proof. apply always_reject; rates_effects. Qed.

Lemma rates_accept l n T1 E1 dE k : always (emits rates_ok) (accept P l n T1 E1 dE k).
Proof. apply always_accept; rates_effects. Qed.

Lemma rates_report (l l' : Locals St) (w w' : World St Env) :
  counters_ok l -> report P l w = (Ok l', w') ->
  counters_ok l' /\ emits rates_ok w w'.
Proof.
  intros (Hia & Hat) H.
  apply report_events in H
    as (_ & [[-> Htr] | (-> & Hnz & [[_ Htr] | (el & rm & Htr)])]).
  - split; [now split |]. exists []. rewrite app_nil_r. now split.
  - split; [unfold counters_ok; cbn; lia |].
    exists []. rewrite app_nil_r. now split.
  - split; [unfold counters_ok; cbn; lia |].
    eexists. split; [exact Htr |]. constructor; [| constructor].
    cbn. now apply rates_in_range.
Qed.

(** A turn keeps the counters in order and logs percentages in range. *)
Lemma rates_anneal_step (l l' : Locals St) (w w' : World St Env) :
  counters_ok l -> anneal_step P l w = (Ok l', w') ->
  counters_ok l' /\ emits rates_ok w w'.
Proof.
  intros (Hia & Hat) H.
  apply anneal_step_parts in H
    as (dE & s1 & e1 & w2 & rej & w3 & l1 & w4 & _ & _ & Hrow & Hmet & Hbranch & Hrep).
  assert (Hl1 : counters_ok l1 /\ emits rates_ok w3 w4).
  { destruct rej.
    - split; [| exact (always_run _ _ _ _ _ (rates_reject _ _ _ _ _) Hbranch)].
      apply reject_events in Hbranch as (-> & _). unfold counters_ok. cbn. lia.
    - split; [| exact (always_run _ _ _ _ _ (rates_accept _ _ _ _ _ _) Hbranch)].
      apply accept_events in Hbranch as ([s ->] & _). unfold counters_ok. cbn.
      destruct (Rltb dE 0); lia. }
  destruct Hl1 as [Hl1 Hb].
  apply (rates_report _ _ _ _ Hl1) in Hrep as [Hl' Hr].
  split; [assumption |].
  apply (always_run _ _ _ _ _ (rates_trace_row _ _ _ _)) in Hrow.
  apply (always_run _ _ _ _ _ (rates_metropolis _ _)) in Hmet.
  etransitivity; [| exact Hr]. etransitivity; [| exact Hb].
  etransitivity; [| exact Hmet]. etransitivity; [| exact Hrow].
  exists [Call Move]. split; [reflexivity |]. now repeat constructor.
Qed.

Lemma rates_anneal_loop (n : nat) :
  forall (l l' : Locals St) (w w' : World St Env),
    counters_ok l -> anneal_loop P n l w = (Ok l', w') ->
    counters_ok l' /\ emits rates_ok w w'.
Proof.
  induction n as [| n IH]; intros l l' w w' Hl H; cbn [anneal_loop] in H; invert_runs;
    destruct (step l <? steps (params (self w)))%Z; invert_runs; try discriminate;
    try (split; [assumption | reflexivity]).
  match goal with
  | Hstep : anneal_step _ _ _ = (Ok _, _), Hloop : anneal_loop _ _ _ _ = _ |- _ =>
      apply (rates_anneal_step _ _ _ _ Hl) in Hstep as [Hl1 Hs];
      apply (IH _ _ _ _ Hl1) in Hloop as [Hl' Hr]
  end.
  split; [assumption | etransitivity; eassumption].
Qed.

End Statistics.

(** X7: every progress line of a call of [anneal] that returns shows an
    acceptance rate between 0 and 100 percent and an improvement rate
    between 0 and the acceptance rate. *)
Theorem anneal_rates_in_range {St Env : Type} (P : Problem St Env) (p : AnnealerParams)
    (w w' : World St Env) (r : option St * option R) (d : list event)
    (T1 E1 acc imp : R) (elapsed remain : string) :
  anneal P (Some p) w = (Ok r, w') ->
  trace w' = (trace w ++ d)%list ->
  In (Info (Progress T1 E1 acc imp elapsed remain)) d ->
  (0 <= imp <= acc)%R /\ (acc <= 100)%R.
Proof.
  intros Hrun Hd Hin. unfold anneal in Hrun. invert_runs.
  match goal with
  | Hi : anneal_init _ _ _ = (Ok ?l0, ?w0),
    Hl : anneal_loop _ _ _ _ = (Ok _, _),
    Hr : anneal_finish _ _ = (Ok _, _) |- _ =>
      apply anneal_init_events in Hi
        as (_ & _ & (_ & _ & _ & _ & _ & Ht & Ha & Hi') & Htr);
      assert (Hl0 : counters_ok l0) by (unfold counters_ok; lia);
      apply (rates_anneal_loop P _ _ _ _ _ Hl0) in Hl as (_ & dl & Hdl & Hrates);
      destruct r as [bs be];
      apply anneal_finish_events in Hr as (Hfin & _)
  end.
  rewrite Hfin, Hdl, Htr, <- app_assoc in Hd. apply app_inv_head in Hd. subst d.
  apply in_app_or in Hin as [Hin | Hin].
  - exfalso. unfold prologue, file_records in Hin.
    match type of Hin with
    | context [f ?l0] => destruct (f l0)
    end; cbn in Hin;
      repeat (destruct Hin as [Hin | Hin]; [discriminate Hin |]); exact Hin.
  - rewrite Forall_forall in Hrates. exact (Hrates _ Hin).
Qed.

(** ** The best energy and the running energy *)

Section BestTracks.

Context {St Env : Type}.
Variable P : Problem St Env.
Local Open Scope R_scope.

Lemma best_tracks_init (p : AnnealerParams) (l0 : Locals St) (w w0 : World St Env) :
  anneal_init P (Some p) w = (Ok l0, w0) -> best_tracks l0 w0.
Proof.
  intros H.
  apply anneal_init_events in H as ((_ & _ & _ & Hbe) & _ & (_ & _ & _ & _ & Hprev & _) & _).
  split; [now rewrite Hprev |]. exists (E l0). split; [assumption | rewrite Hprev; lra].
Qed.

Lemma best_tracks_step (l l' : Locals St) (w w' : World St Env) :
  best_tracks l w -> anneal_step P l w = (Ok l', w') -> best_tracks l' w'.
Proof.
  intros (_ & b & Hb & Hle) H.
  apply anneal_step_parts in H
    as (dE & s1 & e1 & w2 & rej & w3 & l1 & w4 & _ & _ & Hrow & Hmet & Hbranch & Hrep).
  apply trace_row_events in Hrow as (Hs2 & _). cbn in Hs2.
  apply metropolis_Ok in Hmet as (Hs3 & _).
  assert (Hb3 : best_energy (self w3) = Some b) by now rewrite Hs3, Hs2.
  assert (H1 : best_tracks l1 w4).
  { destruct rej.
    - apply reject_events in Hbranch as (-> & _ & _ & _ & Hbe & _).
      split; [reflexivity |]. exists b. rewrite Hbe. now split.
    - apply accept_events in Hbranch as ([s ->] & _ & _ & _ & (b0 & Hb0 & Hb1) & _).
      split; [reflexivity |]. eexists. split; [exact Hb1 |]. cbn.
      destruct (Rltb (E l + dE) b0) eqn:Hlt; [lra | now apply Rltb_false in Hlt]. }
  apply report_events in Hrep as (Hs5 & Hl').
  destruct H1 as (HE & b1 & Hb1 & Hle1).
  destruct Hl' as [[-> _] | (-> & _)]; (split; [assumption |]);
    exists b1; rewrite Hs5; now split.
Qed.

(** X8: the best energy on record is never above the energy of the last
    accepted state: this holds when the loop of [anneal] is reached and
    every turn that completes keeps it, together with the running energy
    being the last accepted one at the end of the turn. *)
Theorem best_energy_tracks_accepted :
  (forall p l0 (w w0 : World St Env),
      anneal_init P (Some p) w = (Ok l0, w0) -> best_tracks l0 w0) /\
  (forall l l' (w w' : World St Env),
      best_tracks l w -> anneal_step P l w = (Ok l', w') -> best_tracks l' w').
Proof.
  split.
  - intros p l0 w w0 H. now apply best_tracks_init in H.
  - intros l l' w w' Hl H. now apply (best_tracks_step l l' w w' Hl).
Qed.

End BestTracks.

Lemma best_energy_tracks_accepted_witness :
  best_tracks (Walk.at_loop 1) (Walk.started 1 [false] []) /\
  exists l' w',
    anneal_step Walk.problem (Walk.at_loop 1) (Walk.started 1 [false] []) = (Ok l', w') /\
    best_tracks l' w'.
Proof.
  assert (H0 : best_tracks (Walk.at_loop 1) (Walk.started 1 [false] []))
    by exact (proj1 (best_energy_tracks_accepted Walk.problem) _ _ _ _
                (walk_reaches_loop None 1 [false] [])).
  split; [exact H0 |].
  do 2 eexists. split; [apply walk_step_down |].
  exact (proj2 (best_energy_tracks_accepted Walk.problem) _ _ _ _ H0
           (walk_step_down None [])).
Defined.

(** ** Runs that return *)

Section Completes.

Context {St Env : Type}.
Variable P : Problem St Env.
Local Open Scope R_scope.

Lemma bind_gets {A B} (g : Annealer St -> A) (k : A -> M St Env B) (w : World St Env) :
  bind (gets g) k w = k (g (self w)) w.
Proof. reflexivity. Qed.

Lemma bind_lift_Ok {A B} (r : result A) (a : A) (k : A -> M St Env B) (w : World St Env) :
  r = Ok a -> bind (lift r) k w = k a w.
Proof. now intros ->. Qed.

Lemma bind_draw {B} (src : Env -> R * Env) (k : R -> M St Env B) (w : World St Env) :
  bind (draw src) k w
  = k (fst (src (env w)))
      {| self := self w; env := snd (src (env w)); trace := trace w |}.
Proof. unfold bind, draw. now destruct (src (env w)). Qed.

Lemma bind_call {A B} (m : method) (h : hook A) (a : A) (s' : St) (e' : Env)
    (k : A -> M St Env B) (w : World St Env) :
  h (state (self w)) (env w) = (Ok a, s', e') ->
  bind (call m h) k w
  = k a {| self := set_state s' (self w); env := e';
           trace := (trace w ++ [Call m])%list |}.
Proof. unfold bind, call. now intros ->. Qed.

Variable c : string.
Hypothesis Hreturns : returns P c.

Lemma copy_state_runs (s : St) (w : World St Env) :
  copy_strategy (params (self w)) = c ->
  exists s', copy_state P s w = (Ok s', w).
Proof.
  intros Hc. destruct Hreturns as (_ & _ & _ & copy & Hcopy & Hruns).
  destruct (Hruns s) as [s' Hs']. exists s'.
  unfold copy_state. rewrite bind_gets, Hc.
  unfold copier in Hcopy.
  destruct (c =? "deepcopy"); [injection Hcopy as <-; unfold lift; now rewrite Hs' |].
  destruct (c =? "slice"); [injection Hcopy as <-; unfold lift; now rewrite Hs' |].
  destruct (c =? "method"); [injection Hcopy as <-; unfold lift; now rewrite Hs' |].
  discriminate Hcopy.
Qed.

Lemma copy_own_state_runs (w : World St Env) :
  copy_strategy (params (self w)) = c ->
  exists s', copy_own_state P w = (Ok s', w).
Proof.
  intros Hc. unfold copy_own_state. rewrite bind_gets. now apply copy_state_runs.
Qed.

Lemma update_runs n T1 E1 acc imp (w : World St Env) :
  start (self w) <> None ->
  n = 0%Z \/ (acc <> None /\ imp <> None) ->
  exists w', update P n T1 E1 acc imp w = (Ok tt, w').
Proof.
  intros Hstart Hn. unfold update, default_update.
  rewrite bind_draw, bind_gets. cbn [self].
  destruct (start (self w)) as [began |]; [| contradiction].
  erewrite bind_lift_Ok by reflexivity.
  destruct (n =? 0)%Z eqn:Hz; [now eexists |].
  destruct Hn as [-> | [Hacc Himp]]; [discriminate Hz |].
  apply Z.eqb_neq in Hz.
  rewrite bind_gets.
  erewrite bind_lift_Ok.
  2:{ unfold truediv. rewrite (proj2 (Reqb_false (IZR n) 0)); [reflexivity |].
      intros H0. now apply eq_IZR_R0 in H0. }
  destruct acc as [a |]; [| contradiction]. destruct imp as [i |]; [| contradiction].
  erewrite !bind_lift_Ok by reflexivity. now eexists.
Qed.

Lemma metropolis_runs (dE T1 : R) (w : World St Env) :
  T1 <> 0 -> exists rej w', metropolis P dE T1 w = (Ok rej, w').
Proof.
  intros HT. destruct (Rlt_dec 0 dE) as [Hpos | Hneg].
  - rewrite metropolis_positive by assumption. now eexists _, _.
  - rewrite metropolis_nonpositive by lra. now eexists _, _.
Qed.

Lemma trace_write_runs fl t (w : World St Env) :
  exists w', trace_write fl t w = (Ok tt, w').
Proof. destruct fl; now eexists. Qed.

Lemma call_revert_runs (w : World St Env) :
  exists w', call_revert P w = (Ok tt, w').
Proof.
  destruct Hreturns as (_ & _ & (h & Hh & Hruns) & _).
  unfold call_revert. rewrite Hh. unfold call.
  destruct (Hruns (state (self w)) (env w)) as (s' & e' & ->). now eexists.
Qed.

Lemma reject_runs (l : Locals St) n T1 E1 k (w : World St Env) :
  copy_strategy (params (self w)) = c ->
  exists l1 w', reject P l n T1 E1 k w = (Ok l1, w').
Proof.
  intros Hc. unfold reject.
  unfold bind at 1, emit.
  destruct (trace_write_runs (f l) (Accepted false)
              {| self := self w; env := env w;
                 trace := (trace w ++ [Debug (StepLine n (py_round_to (prevEnergy l) 2)
                                                (py_round_to E1 2) REJ)])%list |})
    as [w1 Hw1].
  pose proof (trace_write_events _ _ _ _ _ Hw1) as (Hs1 & _). cbn in Hs1.
  rewrite (bind_run_Ok _ _ _ _ _ Hw1).
  destruct (copy_state_runs (prevState l) w1) as [s Hs]; [now rewrite Hs1 |].
  rewrite (bind_run_Ok _ _ _ _ _ Hs).
  unfold bind at 1, assign.
  destruct (call_revert_runs
              {| self := set_state s (self w1); env := env w1; trace := trace w1 |})
    as [w2 Hw2].
  rewrite (bind_run_Ok _ _ _ _ _ Hw2). now eexists _, _.
Qed.

Lemma keep_best_runs (E1 : R) (w : World St Env) :
  copy_strategy (params (self w)) = c -> best_energy (self w) <> None ->
  exists w', keep_best P E1 w = (Ok tt, w').
Proof.
  intros Hc Hb. unfold keep_best. rewrite bind_gets.
  destruct (best_energy (self w)) as [b |]; [| contradiction].
  erewrite bind_lift_Ok by reflexivity.
  destruct (Rltb E1 b); [| now eexists].
  destruct (copy_own_state_runs w Hc) as [s Hs].
  rewrite (bind_run_Ok _ _ _ _ _ Hs). now eexists.
Qed.

Lemma accept_runs (l : Locals St) n T1 E1 dE k (w : World St Env) :
  copy_strategy (params (self w)) = c -> best_energy (self w) <> None ->
  exists l1 w', accept P l n T1 E1 dE k w = (Ok l1, w').
Proof.
  intros Hc Hb. unfold accept.
  unfold bind at 1, emit.
  destruct (trace_write_runs (f l) (Accepted true)
              {| self := self w; env := env w;
                 trace := (trace w ++ [Debug (StepLine n (py_round_to (prevEnergy l) 2)
                                                (py_round_to E1 2) ACC)])%list |})
    as [w1 Hw1].
  pose proof (trace_write_events _ _ _ _ _ Hw1) as (Hs1 & _). cbn in Hs1.
  rewrite (bind_run_Ok _ _ _ _ _ Hw1).
  destruct (copy_own_state_runs w1) as [s Hs]; [now rewrite Hs1 |].
  rewrite (bind_run_Ok _ _ _ _ _ Hs).
  destruct (keep_best_runs E1 w1) as [w2 Hw2]; [now rewrite Hs1 | now rewrite Hs1 |].
  rewrite (bind_run_Ok _ _ _ _ _ Hw2). now eexists _, _.
Qed.

Lemma report_runs (l : Locals St) (w : World St Env) :
  start (self w) <> None ->
  updateWavelength l
  = (if (0 <? updates (params (self w)))%Z
     then Some (IZR (steps (params (self w))) / IZR (updates (params (self w))))
     else None) ->
  steps (params (self w)) <> 0%Z -> trials l <> 0%Z ->
  exists l' w', report P l w = (Ok l', w').
Proof.
  intros Hstart Hwave Hsteps Htrials. unfold report. rewrite bind_gets.
  destruct (1 <? updates (params (self w)))%Z eqn:Hu; [| now eexists _, _].
  apply Z.ltb_lt in Hu.
  rewrite (proj2 (Z.ltb_lt 0 (updates (params (self w))))) in Hwave by lia.
  rewrite Hwave.
  assert (Hnz : IZR (steps (params (self w))) / IZR (updates (params (self w))) <> 0).
  { assert (Hs : IZR (steps (params (self w))) <> 0)
      by (intros H0; now apply eq_IZR_R0 in H0).
    assert (Hup : 0 < IZR (updates (params (self w)))) by (apply IZR_lt; lia).
    unfold Rdiv. apply Rmult_integral_contrapositive_currified; [assumption |].
    apply Rinv_neq_0_compat. lra. }
  erewrite bind_lift_Ok by reflexivity.
  unfold floordiv. rewrite (proj2 (Reqb_false _ 0) Hnz).
  erewrite !bind_lift_Ok by reflexivity.
  destruct (Rltb _ _); [| now eexists _, _].
  unfold truediv.
  rewrite (proj2 (Reqb_false (IZR (trials l)) 0))
    by (intros H0; now apply eq_IZR_R0 in H0).
  erewrite !bind_lift_Ok by reflexivity.
  destruct (update_runs (step l) (T l) (E l)
              (Some (IZR (accepts l) / IZR (trials l)))
              (Some (IZR (improves l) / IZR (trials l))) w Hstart) as [w1 Hw1];
    [right; split; discriminate |].
  rewrite (bind_run_Ok _ _ _ _ _ Hw1). now eexists _, _.
Qed.

Variable p : AnnealerParams.
Hypothesis Hstrategy : copy_strategy p = c.
Hypothesis Htmax : 0 < tmax p.
Hypothesis Htmin : 0 < tmin p.

(** A turn of the loop completes. *)
Lemma anneal_step_runs (l : Locals St) (w : World St Env) :
  loop_ready p l w -> (step l < steps p)%Z ->
  exists l' w', anneal_step P l w = (Ok l', w') /\ loop_ready p l' w'.
Proof.
  intros (Hp & Hstart & Hbe & Hbs & Hwave & Hstep & Hcount) Hlt.
  assert (Hrun : exists l' w', anneal_step P l w = (Ok l', w')).
  { destruct Hreturns as (Hmove & _).
    destruct (Hmove (state (self w)) (env w)) as (dE & s1 & e1 & Hm).
    rewrite (anneal_step_after_move P l w dE s1 e1) by (rewrite ?Hp; first [lia | exact Hm]).
    rewrite Hp.
    set (T1 := tmax p * exp (Tfactor l * IZR (step l + 1) / IZR (steps p))).
    assert (HT : T1 <> 0).
    { unfold T1. pose proof (exp_pos (Tfactor l * IZR (step l + 1) / IZR (steps p))).
      apply Rgt_not_eq. now apply Rmult_lt_0_compat. }
    set (w1 := {| self := set_state s1 (self w); env := e1;
                  trace := (trace w ++ [Call Move])%list |}).
    destruct (trace_row_runs l (step l + 1) T1 (E l + dE) w1) as (w2 & Hrow & Hs2 & _).
    { right. cbn. destruct (best_energy (self w)); [now eexists | contradiction]. }
    rewrite (bind_run_Ok _ _ _ _ _ Hrow).
    destruct (metropolis_runs dE T1 w2 HT) as (rej & w3 & Hmet).
    rewrite (bind_run_Ok _ _ _ _ _ Hmet).
    apply metropolis_Ok in Hmet as (Hs3 & _).
    assert (Hself3 : self w3 = set_state s1 (self w)) by now rewrite Hs3, Hs2.
    assert (Hbranch : exists l1 w4,
               (if rej then reject P l (step l + 1) T1 (E l + dE) (trials l + 1)
                else accept P l (step l + 1) T1 (E l + dE) dE (trials l + 1)) w3
               = (Ok l1, w4)).
    { destruct rej.
      - apply reject_runs. now rewrite Hself3, <- Hstrategy, <- Hp.
      - apply accept_runs; rewrite Hself3; cbn;
          [now rewrite <- Hstrategy, <- Hp | assumption]. }
    destruct Hbranch as (l1 & w4 & Hbranch).
    rewrite (bind_run_Ok _ _ _ _ _ Hbranch).
    assert (H4 : params (self w4) = p /\ start (self w4) <> None /\
                 updateWavelength l1 = updateWavelength l /\
                 trials l1 = (trials l + 1)%Z).
    { destruct rej.
      - apply reject_events in Hbranch as (-> & Hp4 & Hst4 & _).
        rewrite Hp4, Hst4, Hself3. cbn. now repeat split.
      - apply accept_events in Hbranch as ([s ->] & Hp4 & Hst4 & _).
        rewrite Hp4, Hst4, Hself3. cbn. now repeat split. }
    destruct H4 as (Hp4 & Hst4 & Hw4 & Ht4).
    apply report_runs; rewrite ?Hp4, ?Hw4, ?Ht4; try assumption; try lia.
    destruct Hcount as (? & ?). lia. }
  destruct Hrun as (l' & w' & Hrun). exists l', w'. split; [exact Hrun |].
  pose proof (anneal_step_events P _ _ _ _ Hrun)
    as ((_ & _ & Hw' & Hn') & (Hp' & Hs' & Hb') & _).
  pose proof (rates_anneal_step P _ _ _ _ Hcount Hrun) as (Hc' & _).
  pose proof (always_run _ _ _ _ _ (best_down_anneal_step P l) Hrun) as Hdown.
  unfold loop_ready. rewrite Hp', Hs', Hw', Hn'.
  repeat split; try assumption; try lia; auto.
  - destruct (best_energy (self w)) as [b |] eqn:Hb; [| contradiction].
    destruct (Hdown b Hb) as (b' & -> & _). discriminate.
  - now destruct Hc'.
  - now destruct Hc'.
  - now destruct Hc'.
Qed.

(** The loop ends within the turns [anneal] allows it. *)
Lemma anneal_loop_runs (n : nat) :
  forall (l : Locals St) (w : World St Env),
    loop_ready p l w -> (Z.to_nat (steps p - step l) <= n)%nat ->
    exists l' w', anneal_loop P n l w = (Ok l', w') /\ loop_ready p l' w'.
Proof.
  induction n as [| n IH]; intros l w Hready Hn; cbn [anneal_loop];
    rewrite bind_gets; rewrite (proj1 Hready);
    destruct (step l <? steps p)%Z eqn:Hlt;
    try (apply Z.ltb_lt in Hlt); try (now eexists _, _); [lia |].
  destruct (anneal_step_runs l w Hready Hlt) as (l1 & w1 & Hstep & Hready1).
  rewrite (bind_run_Ok _ _ _ _ _ Hstep).
  apply IH; [assumption |].
  apply anneal_step_events in Hstep as ((_ & _ & _ & ->) & _). lia.
Qed.

Lemma first_update_runs T1 E1 (w : World St Env) :
  start (self w) <> None ->
  exists x w', first_update P p 0 T1 E1 w = (Ok x, w').
Proof.
  intros Hstart. unfold first_update.
  destruct (0 <? updates p)%Z eqn:Hu; [| now eexists _, _].
  apply Z.ltb_lt in Hu.
  erewrite bind_lift_Ok.
  2:{ unfold truediv. rewrite (proj2 (Reqb_false (IZR (updates p)) 0)); [reflexivity |].
      intros H0. apply eq_IZR_R0 in H0. lia. }
  destruct (update_runs 0 T1 E1 None None w Hstart) as [w1 Hw1]; [now left |].
  rewrite (bind_run_Ok _ _ _ _ _ Hw1). now eexists _, _.
Qed.

Lemma anneal_start_runs fl (w : World St Env) :
  params (self w) = p -> exists l0 w0, anneal_start P fl w = (Ok l0, w0).
Proof.
  intros Hp. unfold anneal_start.
  rewrite bind_draw. unfold bind at 1, assign. rewrite bind_gets. cbn [self params set_start].
  rewrite Hp, (proj2 (Rleb_false (tmin p) 0)) by assumption.
  erewrite bind_lift_Ok by now apply cooling_factor_Ok.
  destruct Hreturns as (_ & Henergy & _).
  match goal with
  | |- context [bind (call Energy (energy P)) _ ?w1] =>
      destruct (Henergy (state (self w1)) (env w1)) as (E0 & s1 & e1 & HE);
      rewrite (bind_call Energy (energy P) E0 s1 e1 _ w1 HE)
  end.
  unfold bind at 1, emit.
  match goal with
  | |- context [bind (copy_own_state P) _ ?w2] =>
      destruct (copy_own_state_runs w2) as [s Hs];
      [cbn; now rewrite Hp |];
      rewrite (bind_run_Ok _ _ _ _ _ Hs);
      destruct (copy_own_state_runs w2) as [b Hb];
      [cbn; now rewrite Hp |];
      rewrite (bind_run_Ok _ _ _ _ _ Hb)
  end.
  unfold bind at 1, assign. unfold bind at 1, assign.
  match goal with
  | |- context [bind (first_update P p 0 ?T1 ?E1) _ ?w3] =>
      destruct (first_update_runs T1 E1 w3) as (x & w4 & Hx);
      [cbn; discriminate |];
      rewrite (bind_run_Ok _ _ _ _ _ Hx)
  end.
  now eexists _, _.
Qed.

Lemma anneal_init_runs (w : World St Env) :
  exists l0 w0, anneal_init P (Some p) w = (Ok l0, w0).
Proof.
  unfold anneal_init. unfold bind at 1, assign. unfold bind at 1, ret.
  unfold open_trace.
  destruct (negb (output_file p =? "")).
  - unfold bind at 2, emit. unfold bind at 2, emit. unfold bind at 1, ret.
    now apply anneal_start_runs.
  - unfold bind at 1, ret. now apply anneal_start_runs.
Qed.

Lemma anneal_finish_runs (w : World St Env) :
  params (self w) = p -> best_state (self w) <> None -> best_energy (self w) <> None ->
  exists b E1 w', anneal_finish P w = (Ok (Some b, Some E1), w').
Proof.
  intros Hp Hbs Hbe. unfold anneal_finish. rewrite bind_gets.
  destruct (best_state (self w)) as [b |] eqn:Hb; [| contradiction].
  destruct (best_energy (self w)) as [E1 |] eqn:HE; [| contradiction].
  destruct (copy_state_runs b w) as [s Hs]; [now rewrite Hp |].
  rewrite (bind_run_Ok _ _ _ _ _ Hs).
  exists b, E1. unfold bind, assign, gets, ret. cbn. rewrite Hb, HE. now eexists.
Qed.

(** [anneal(p)] returns a state and an energy. *)
Lemma anneal_runs (w : World St Env) :
  exists b E1 w', anneal P (Some p) w = (Ok (Some b, Some E1), w').
Proof.
  unfold anneal.
  destruct (anneal_init_runs w) as (l0 & w0 & Hinit).
  rewrite (bind_run_Ok _ _ _ _ _ Hinit). rewrite bind_gets.
  apply anneal_init_events in Hinit
    as ((Hp & Hst & Hbs & Hbe) & _ & (_ & _ & Hwave & Hn & _ & Ht & Ha & Hi) & _).
  assert (Hready : loop_ready p l0 w0).
  { unfold loop_ready, counters_ok. rewrite Hbe, Hn, Ht, Ha, Hi.
    repeat split; try assumption; try lia; discriminate. }
  destruct (anneal_loop_runs (Z.to_nat (steps (params (self w0)))) l0 w0 Hready)
    as (l' & w1 & Hloop & (Hp1 & _ & Hbe1 & Hbs1 & _)).
  { rewrite Hp, Hn. apply Nat.eq_le_incl. f_equal. lia. }
  rewrite (bind_run_Ok _ _ _ _ _ Hloop).
  now apply anneal_finish_runs.
Qed.

End Completes.


(** ** [default_update] *)

(** X10: [default_update] reads the clock once and never changes the
    object.  Before a run has set [self.start] it raises a [TypeError];
    at step 0 it logs nothing, whatever the rates are; at any other step
    it logs one line with the rates as percentages, the time elapsed and
    the time remaining for [steps - step] more steps at the pace so far,
    and raises a [TypeError] if a rate is [None]. *)
Theorem default_update_outcomes {St Env : Type} (P : Problem St Env)
    (n : Z) (T1 E1 : R) (acc imp : option R) (w : World St Env) :
  let now := fst (time P (env w)) in
  let w1 := {| self := self w; env := snd (time P (env w)); trace := trace w |} in
  (start (self w) = None ->
   default_update P n T1 E1 acc imp w = (Raise TypeError, w1)) /\
  (forall began,
      start (self w) = Some began ->
      (n = 0 -> default_update P n T1 E1 acc imp w = (Ok tt, w1)) /\
      (n <> 0 -> acc = None \/ imp = None ->
       default_update P n T1 E1 acc imp w = (Raise TypeError, w1)) /\
      (n <> 0 -> forall a i, acc = Some a -> imp = Some i ->
       default_update P n T1 E1 acc imp w
       = (Ok tt,
          {| self := self w; env := snd (time P (env w));
             trace := (trace w
                       ++ [Info (Progress T1 E1 (100 * a) (100 * i)
                                   (time_string (now - began))
                                   (time_string (IZR (steps (params (self w)) - n)
                                                 * ((now - began) / IZR n))))])%list
          |}))).
Proof.
  intros now w1. unfold default_update. rewrite bind_draw, bind_gets. fold w1.
  cbn [self w1]. split.
  - intros ->. reflexivity.
  - intros began ->. erewrite bind_lift_Ok by reflexivity.
    split; [intros ->; reflexivity |].
    assert (Hdiv : n <> 0 ->
                   truediv (now - began) (IZR n) = Ok ((now - began) / IZR n)%R).
    { intros Hn. unfold truediv. rewrite (proj2 (Reqb_false (IZR n) 0)); [reflexivity |].
      intros H0. now apply eq_IZR_R0 in H0. }
    split.
    + intros Hn Hnone. rewrite (proj2 (Z.eqb_neq n 0) Hn), bind_gets.
      erewrite bind_lift_Ok by now apply Hdiv.
      destruct Hnone as [-> | ->]; [reflexivity |].
      destruct acc; reflexivity.
    + intros Hn a i -> ->. rewrite (proj2 (Z.eqb_neq n 0) Hn), bind_gets.
      erewrite bind_lift_Ok by now apply Hdiv.
      reflexivity.
Qed.

Lemma default_update_outcomes_witness :
  default_update Walk.problem 0 1 1 None None (Walk.world 1 [] [])
  = (Raise TypeError,
     {| self := Walk.init 1;
        env := {| Walk.coins := []; Walk.draws := []; Walk.clock := 0 + 1 |};
        trace := [] |}) /\
  default_update Walk.problem 0 1 1 None None (Walk.started 1 [] [])
  = (Ok tt,
     {| self := self (Walk.started 1 [] []);
        env := {| Walk.coins := []; Walk.draws := []; Walk.clock := 0 + 1 + 1 |};
        trace := trace (Walk.started 1 [] []) |}).
Proof.
  split.
  - apply (proj1 (default_update_outcomes Walk.problem 0 1 1 None None
                    (Walk.world 1 [] []))).
    reflexivity.
  - apply (proj1 (proj2 (default_update_outcomes Walk.problem 0 1 1 None None
                           (Walk.started 1 [] [])) 0%R eq_refl)).
    reflexivity.
Defined.

(** ** [anneal]: what it refuses, what it returns *)

Section Outcome.

Context {St Env : Type}.
Variable P : Problem St Env.
Local Open Scope R_scope.

(** X11: [anneal(p)] with [tmin > 0] and [tmax <= 0] raises the math
    domain error of [math.log] at line 160, in the same world as for
    [tmin <= 0]: [self.params] and [self.start] are set, the trace
    file, if any, is open with its header in it, and neither [energy] nor
    [move] has been called. *)
Theorem anneal_refuses_tmax (p : AnnealerParams) (w : World St Env) :
  0 < tmin p -> tmax p <= 0 ->
  anneal P (Some p) w = (Raise ValueError, refused P p w).
Proof.
  intros Hmin Hmax.
  assert (Hq : tmax p / tmin p <= 0).
  { unfold Rdiv. assert (0 < / tmin p) by now apply Rinv_0_lt_compat. nra. }
  assert (Hk : cooling_factor (tmax p) (tmin p) = Raise ValueError).
  { unfold cooling_factor, truediv, math_log.
    rewrite (proj2 (Reqb_false (tmin p) 0)) by lra.
    now rewrite (proj2 (Rleb_true (tmax p / tmin p) 0)). }
  apply Rleb_false in Hmin.
  unfold anneal, anneal_init, anneal_start, open_trace, refused, bind, assign, ret, gets,
    emit, draw, raise, lift.
  cbn. destruct (negb (output_file p =? "")); cbn;
    destruct (time P (env w)) as [now e]; cbn; now rewrite Hmin, Hk.
Qed.

Lemma anneal_init_best (p : AnnealerParams) (l0 : Locals St) (w w0 : World St Env) :
  exact_copies P -> anneal_init P (Some p) w = (Ok l0, w0) ->
  best_state (self w0) = Some (state (self w0)) /\
  state (self w0) = snd (fst (energy P (state (self w)) (snd (time P (env w))))).
Proof.
  intros Hexact H. unfold anneal_init, open_trace in H. invert_runs.
  assert (Hstart : exists fl w1,
             anneal_start P fl w1 = (Ok l0, w0) /\
             state (self w1) = state (self w) /\ env w1 = env w).
  { match goal with
    | Hopen : (if negb ?c then _ else _) _ = (Ok ?fl, ?w1) |- _ =>
        exists fl, w1; destruct c; cbn [negb] in Hopen; invert_runs; cbn;
        (split; [assumption |]); now split
    end. }
  clear - Hstart Hexact. destruct Hstart as (fl & w1 & H & Hs & He).
  revert Hs He. unfold anneal_start in H. invert_runs.
  match goal with
  | Hb : (if Rleb ?a 0 then _ else _) _ = (Ok _, _) |- _ =>
      destruct (Rleb a 0); [discriminate Hb |]
  end.
  invert_runs.
  repeat match goal with
         | Hc : copy_own_state _ _ = (Ok _, _) |- _ =>
             unfold copy_own_state in Hc; rewrite bind_gets in Hc;
             apply (copy_state_exact P _ _ _ _ Hexact) in Hc as [-> ->]
         end.
  match goal with
  | Hu : first_update _ _ _ _ _ _ = (Ok _, _) |- _ =>
      apply first_update_Ok in Hu as (Hself & _)
  end.
  intros Hs He. cbn in *. rewrite Hself. cbn. split; [reflexivity |].
  rewrite <- Hs, <- He.
  match goal with
  | Ht : time P _ = _, HE : energy P _ _ = _ |- _ =>
      rewrite Ht; cbn [snd]; now rewrite HE
  end.
Qed.

(** X12: the pair [anneal] returns is [(self.best_state, self.best_energy)]
    as the object holds them afterwards, both set; and for a problem whose
    copies are exact, the working state [self.state] is left equal to the
    best state. *)
Theorem anneal_returns_best (p : AnnealerParams) (w w' : World St Env)
    (bs : option St) (be : option R) :
  anneal P (Some p) w = (Ok (bs, be), w') ->
  bs = best_state (self w') /\ be = best_energy (self w') /\
  exists b E1,
    bs = Some b /\ be = Some E1 /\
    (exact_copies P -> state (self w') = b).
Proof.
  intros H. unfold anneal in H. invert_runs.
  match goal with
  | Hi : anneal_init _ _ _ = (Ok ?l0, ?w0),
    Hl : anneal_loop _ _ _ _ = (Ok _, ?w1),
    Hr : anneal_finish _ _ = (Ok _, _) |- _ =>
      apply anneal_init_events in Hi as ((_ & _ & _ & Hbe0) & _);
      pose proof (always_run _ _ _ _ _ (best_down_anneal_loop P _ l0) Hl) as Hdown;
      destruct (Hdown _ Hbe0) as (E1 & HE1 & _);
      apply anneal_finish_events in Hr
        as (_ & _ & Hbs & Hbe & Hbs' & Hbe' & _ & _ & b & Hb & Hcopy)
  end.
  split; [now symmetry |]. split; [now symmetry |].
  exists b, E1. split; [assumption |]. split; [congruence |].
  intros Hexact. now apply (copy_state_exact P _ _ _ _ Hexact) in Hcopy as [-> _].
Qed.

(** X13: with [steps <= 0] no move is made: a call of [anneal] that returns
    has only run the code before the loop, and returns the energy of the
    initial state; for a problem whose copies are exact it returns the
    state [energy] left and leaves it as the working state. *)
Theorem anneal_without_steps (p : AnnealerParams) (w w' : World St Env)
    (bs : option St) (be : option R) :
  (steps p <= 0)%Z ->
  anneal P (Some p) w = (Ok (bs, be), w') ->
  let started := energy P (state (self w)) (snd (time P (env w))) in
  exists E0,
    fst (fst started) = Ok E0 /\ be = Some E0 /\
    trace w'
    = (trace w
       ++ prologue (if output_file p =? "" then None else Some (output_file p)) E0)%list /\
    (exact_copies P ->
     bs = Some (snd (fst started)) /\ state (self w') = snd (fst started)).
Proof.
  intros Hsteps H started. unfold anneal in H. invert_runs.
  match goal with
  | Hi : anneal_init _ _ _ = (Ok ?l0, ?w0),
    Hl : anneal_loop _ _ _ _ = (Ok _, ?w1),
    Hr : anneal_finish _ _ = (Ok _, _) |- _ =>
      pose proof (anneal_init_Ok P _ _ _ _ Hi) as (_ & HE0);
      pose proof (fun Hexact => anneal_init_best _ _ _ _ Hexact Hi) as Hbest;
      apply anneal_init_events in Hi
        as ((Hp & _ & _ & Hbe0) & _ & (Hf & _ & _ & Hn & _) & Htr);
      assert (Hsame : w1 = w0);
      [ destruct (Z.to_nat (steps (params (self w0)))); cbn [anneal_loop] in Hl;
        rewrite bind_gets, Hp, Hn in Hl;
        rewrite (proj2 (Z.ltb_ge 0 (steps p)) Hsteps) in Hl;
        now inversion Hl
      | subst w1;
        apply anneal_finish_events in Hr
          as (Hfin & _ & Hbs & Hbe & _ & _ & _ & _ & b & Hb & Hcopy) ]
  end.
  eexists. split; [exact HE0 |]. split; [congruence |].
  split; [rewrite Hfin, Htr, Hf; reflexivity |].
  intros Hexact. destruct (Hbest Hexact) as (Hbs0 & Hs0).
  apply (copy_state_exact P _ _ _ _ Hexact) in Hcopy as [Hst _].
  fold started in Hs0. rewrite <- Hs0. split; congruence.
Qed.

End Outcome.

(** ** [auto]: the seed temperature, [run] and the searches *)

Section AutoParts.

Context {St Env : Type}.
Variable P : Problem St Env.
Local Open Scope R_scope.

(** The loop of lines 254-257, when it ends. *)
Lemma seed_temperature_Ok (fuel : nat) :
  forall (E0 : R) (n : Z) (T0 : R) (w w' : World St Env) (n' : Z) (T' : R),
    0 <= T0 ->
    seed_temperature P fuel E0 n T0 w = (Ok (n', T'), w') ->
    0 < T' /\ (n <= n' <= n + Z.of_nat fuel)%Z /\ (T0 = 0 -> (n < n')%Z) /\
    exists d,
      trace w' = (trace w ++ d)%list /\
      count (is_call Move) d = Z.to_nat (n' - n) /\
      count (is_call Energy) d = Z.to_nat (n' - n) /\
      count (is_call Revert) d = 0%nat.
Proof.
  assert (Hbase : forall (n : Z) (T0 : R) (w : World St Env) (k : nat),
             0 <= T0 -> T0 <> 0 ->
             0 < T0 /\ (n <= n <= n + Z.of_nat k)%Z /\ (T0 = 0 -> (n < n)%Z) /\
             exists d,
               trace w = (trace w ++ d)%list /\
               count (is_call Move) d = Z.to_nat (n - n) /\
               count (is_call Energy) d = Z.to_nat (n - n) /\
               count (is_call Revert) d = 0%nat).
  { intros n T0 w k HT Hz. split; [lra |]. split; [lia |]. split; [contradiction |].
    exists []. rewrite app_nil_r, Z.sub_diag. now repeat split. }
  induction fuel as [| fuel IH]; intros E0 n T0 w w' n' T' HT H;
    cbn [seed_temperature] in H; destruct (Reqb T0 0) eqn:Hz.
  - discriminate H.
  - apply Reqb_false in Hz. inversion H; subst. now apply Hbase.
  - invert_runs.
    match goal with
    | Hrec : seed_temperature _ _ _ _ _ _ = _ |- _ =>
        apply IH in Hrec as (Hpos & Hn & _ & d & Hd & Hmv & Hen & Hrv);
        [| apply Rabs_pos]
    end.
    split; [assumption |]. split; [lia |]. split; [lia |].
    exists ([Call Move; Call Energy] ++ d)%list. cbn [trace] in Hd.
    split; [rewrite Hd, <- !app_assoc; reflexivity |].
    rewrite !count_app, Hmv, Hen, Hrv. cbn. repeat split; lia.
  - apply Reqb_false in Hz. inversion H; subst. now apply Hbase.
Qed.

(** On a plateau the loop of lines 254-257 uses up any number of turns. *)
Lemma seed_temperature_plateau (E0 : R) (fuel : nat) :
  plateau P E0 ->
  forall (n : Z) (w : World St Env), fst (seed_temperature P fuel E0 n 0 w) = Diverge.
Proof.
  intros (Hmove & Henergy). induction fuel as [| fuel IH]; intros n w;
    cbn [seed_temperature]; rewrite (proj2 (Reqb_true 0 0) eq_refl); [reflexivity |].
  destruct (Hmove (state (self w)) (env w)) as (dE & s1 & e1 & Hm).
  rewrite (bind_call Move (move P) dE s1 e1 _ w Hm).
  match goal with
  | |- context [bind (call Energy (energy P)) _ ?w1] =>
      destruct (Henergy (state (self w1)) (env w1)) as (s2 & e2 & HE);
      rewrite (bind_call Energy (energy P) E0 s2 e2 _ w1 HE)
  end.
  replace (Rabs (E0 - E0)) with 0; [apply IH |].
  replace (E0 - E0) with 0 by ring. now rewrite Rabs_R0.
Qed.

(** One turn of the loop of [run] (lines 231-243). *)
Lemma run_step_Ok (T1 : R) (l l' : RunLocals St) (w w' : World St Env) :
  run_step P T1 l w = (Ok l', w') ->
  ((run_accepts l' = run_accepts l /\ run_improves l' = run_improves l) \/
   (run_accepts l' = run_accepts l + 1 /\
    run_improves l <= run_improves l' <= run_improves l + 1)%Z) /\
  run_E l' = run_prevEnergy l' /\
  exists undo,
    trace w' = (trace w ++ [Call Move; Call Energy] ++ undo)%list /\
    (undo = [] \/ undo = [Call Revert]).
Proof.
  unfold run_step. intros H. invert_runs.
  match goal with
  | Hmet : metropolis _ _ _ _ = (Ok ?rej, _) |- _ =>
      apply metropolis_Ok in Hmet as (_ & Htr & _); destruct rej
  end; invert_runs.
  - match goal with
    | Hc : copy_state _ _ _ = (Ok _, _) |- _ => apply copy_state_Ok in Hc; subst
    end.
    match goal with
    | Hr : call_revert _ _ = (Ok _, _) |- _ =>
        apply call_revert_Ok in Hr as (_ & _ & _ & _ & Hrv); cbn in Hrv
    end.
    cbn. split; [left; now split |]. split; [reflexivity |].
    exists [Call Revert]. rewrite Hrv, Htr. cbn.
    split; [now rewrite <- !app_assoc | now right].
  - match goal with
    | Hc : copy_own_state _ _ = (Ok _, _) |- _ => apply copy_own_state_Ok in Hc; subst
    end.
    cbn. split; [right; split; [reflexivity | destruct (Rltb _ _); lia] |].
    split; [reflexivity |].
    exists []. rewrite Htr. cbn. split; [now rewrite <- !app_assoc | now left].
Qed.

Lemma run_loop_Ok (k : nat) (T1 : R) :
  forall (l l' : RunLocals St) (w w' : World St Env),
    run_loop P k T1 l w = (Ok l', w') ->
    (0 <= run_improves l <= run_accepts l)%Z ->
    (0 <= run_improves l' <= run_accepts l')%Z /\
    (run_accepts l' <= run_accepts l + Z.of_nat k)%Z /\
    exists d,
      trace w' = (trace w ++ d)%list /\
      count (is_call Move) d = k /\ count (is_call Energy) d = k.
Proof.
  induction k as [| k IH]; intros l l' w w' H Hl; cbn [run_loop] in H; invert_runs.
  - split; [assumption |]. split; [lia |]. exists []. now rewrite app_nil_r.
  - match goal with
    | Hstep : run_step _ _ _ _ = (Ok ?l1, _), Hloop : run_loop _ _ _ _ _ = _ |- _ =>
        apply run_step_Ok in Hstep as (Hcount & _ & undo & Htr & Hundo);
        apply IH in Hloop as (Hl' & Hacc & d & Hd & Hmv & Hen); [| lia]
    end.
    split; [assumption |]. split; [lia |].
    eexists. split; [rewrite Hd, Htr, <- !app_assoc; reflexivity |].
    rewrite !count_app, Hmv, Hen.
    destruct Hundo as [-> | ->]; now split.
Qed.

Lemma fractions (improved accepted tried : Z) :
  (0 <= improved <= accepted)%Z -> (accepted <= Z.of_nat (Z.to_nat tried))%Z ->
  tried <> 0%Z ->
  0 <= IZR improved / IZR tried <= IZR accepted / IZR tried /\
  IZR accepted / IZR tried <= 1.
Proof.
  intros Himp Hacc Hnz.
  destruct (Z.lt_ge_cases 0 tried) as [Hpos | Hneg].
  - assert (Hs : 0 < IZR tried) by now apply IZR_lt.
    assert (Hi : 0 < / IZR tried) by now apply Rinv_0_lt_compat.
    assert (H1 : 0 <= IZR improved) by (apply IZR_le; lia).
    assert (H2 : IZR improved <= IZR accepted) by (apply IZR_le; lia).
    assert (H3 : IZR accepted <= IZR tried) by (apply IZR_le; lia).
    unfold Rdiv. repeat split.
    + apply Rmult_le_pos; lra.
    + apply Rmult_le_compat_r; lra.
    + replace 1 with (IZR tried * / IZR tried) by (field; lra).
      apply Rmult_le_compat_r; lra.
  - assert (Ha : accepted = 0%Z) by lia.
    assert (Hi : improved = 0%Z) by lia.
    rewrite Ha, Hi. unfold Rdiv. rewrite Rmult_0_l. lra.
Qed.

End AutoParts.

(** X14: the seed temperature of [auto] (lines 251-257), when the loop
    finds one, is strictly positive, and at least one move was made for
    it: [move] and [energy] were each called once for every turn
    counted, [revert] never. *)
Theorem seed_temperature_positive {St Env : Type} (P : Problem St Env) (fuel : nat)
    (E0 : R) (w w' : World St Env) (n : Z) (T1 : R) (d : list event) :
  seed_temperature P fuel E0 0 0 w = (Ok (n, T1), w') ->
  trace w' = (trace w ++ d)%list ->
  (0 < T1)%R /\ 1 <= n /\
  count (is_call Move) d = Z.to_nat n /\
  count (is_call Energy) d = Z.to_nat n /\
  count (is_call Revert) d = 0%nat.
Proof.
  intros H Hd.
  apply seed_temperature_Ok in H as (Hpos & _ & Hn & d' & Hd' & Hmv & Hen & Hrv);
    [| lra].
  rewrite Hd' in Hd. apply app_inv_head in Hd. subst d'.
  rewrite Z.sub_0_r in Hmv, Hen.
  specialize (Hn eq_refl). repeat split; try assumption. lia.
Qed.

(** X15: where every state has the same energy, [auto] never gets past
    the search for a seed temperature (lines 254-257): whatever the
    number of turns its loops are allowed, it neither returns nor
    raises. *)
Theorem auto_diverges_on_plateau {St Env : Type} (P : Problem St Env) (E0 : R)
    (fuel : nat) (minutes : R) (steps : Z) (w : World St Env) :
  plateau P E0 -> fst (auto P fuel minutes steps w) = Diverge.
Proof.
  intros Hflat. pose proof Hflat as (_ & Henergy).
  unfold auto. rewrite bind_draw. unfold bind at 1, assign.
  match goal with
  | |- context [bind (call Energy (energy P)) _ ?w1] =>
      destruct (Henergy (state (self w1)) (env w1)) as (s1 & e1 & HE);
      rewrite (bind_call Energy (energy P) E0 s1 e1 _ w1 HE)
  end.
  match goal with
  | |- context [bind (update P 0 0 E0 None None) _ ?w2] =>
      destruct (update_runs P 0 0 E0 None None w2) as [w3 Hw3];
      [cbn; discriminate | now left |];
      rewrite (bind_run_Ok _ _ _ _ _ Hw3)
  end.
  pose proof (seed_temperature_plateau P E0 fuel Hflat 0 w3) as Hseed.
  unfold bind at 1.
  destruct (seed_temperature P fuel E0 0 0 w3) as [[x | e |] w4];
    cbn in Hseed; try discriminate Hseed.
  reflexivity.
Qed.

(** X16: [run(T, steps)] (lines 223-244) with [steps = 0] does not return:
    the rates divide by [steps].  With any other [steps], when it returns,
    it has called [move] once for each step of [range(steps)] and
    [energy] once more than that, and its rates are fractions: the
    improvement between 0 and the acceptance, the acceptance at most 1. *)
Theorem run_rates {St Env : Type} (P : Problem St Env) (T1 : R) (steps : Z)
    (w w' : World St Env) (E1 acceptance improvement : R) (d : list event) :
  run P T1 steps w = (Ok (E1, acceptance, improvement), w') ->
  trace w' = (trace w ++ d)%list ->
  steps <> 0 /\
  (0 <= improvement <= acceptance)%R /\ (acceptance <= 1)%R /\
  count (is_call Move) d = Z.to_nat steps /\
  count (is_call Energy) d = S (Z.to_nat steps).
Proof.
  intros H Hd. unfold run in H. invert_runs.
  match goal with
  | Hc : copy_own_state _ _ = (Ok _, _) |- _ => apply copy_own_state_Ok in Hc; subst
  end.
  match goal with
  | Hloop : run_loop _ _ _ _ _ = (Ok ?l, _) |- _ =>
      apply run_loop_Ok in Hloop as (Himp & Hacc & d' & Hd' & Hmv & Hen);
      [| cbn; lia]; cbn in Hacc, Hd'
  end.
  repeat match goal with
         | Hdiv : truediv _ _ = Ok _ |- _ => apply truediv_Ok in Hdiv as [? ->]
         end.
  assert (Hnz : steps <> 0) by (intros ->; auto).
  rewrite Hd', <- app_assoc in Hd. apply app_inv_head in Hd. subst d.
  split; [assumption |].
  match goal with
  | |- context [(IZR (run_accepts ?lr) / IZR steps)%R] =>
      destruct (fractions (run_improves lr) (run_accepts lr) steps Himp Hacc Hnz)
        as ((? & ?) & ?)
  end.
  rewrite !count_app, Hmv, Hen. cbn. repeat split; try assumption; lia.
Qed.

(** ** The temperatures [auto] tries *)

Section Searches.

Context {St Env : Type}.
Variable P : Problem St Env.
Local Open Scope R_scope.

Lemma hundredth : powerRZ 10 (- (2)) = / 100.
Proof. unfold powerRZ. simpl. f_equal. lra. Qed.

(** Rounding to two figures moves a positive number by less than a
    twentieth of it. *)
Lemma round_figures_two (x r : R) :
  0 < x -> round_figures x 2 = Ok r -> 95 / 100 * x < r < 105 / 100 * x.
Proof.
  intros Hx Hr.
  destruct (round_figures_relative x 2) as (r' & Hr' & Hbound); [lra |].
  rewrite Hr in Hr'. injection Hr' as <-.
  rewrite hundredth, (Rabs_pos_eq x) in Hbound by lra.
  apply Rabs_def2 in Hbound. lra.
Qed.

Lemma cooler (x r : R) :
  0 < x -> round_figures (x / (15 / 10)) 2 = Ok r -> 0 < r < x.
Proof.
  intros Hx Hr. apply round_figures_two in Hr; lra.
Qed.

Lemma hotter (x r : R) :
  0 < x -> round_figures (x * (15 / 10)) 2 = Ok r -> x < r.
Proof.
  intros Hx Hr. apply round_figures_two in Hr; lra.
Qed.

(** A probe that returned (lines 264-267, 269-272, 277-280). *)
Lemma probe_Ok (scale : R -> R) (steps : Z) (s s' : Search) (w w' : World St Env) :
  probe P scale steps s w = (Ok s', w') ->
  round_figures (scale (s_T s)) 2 = Ok (s_T s') /\
  s_step s' = (s_step s + steps)%Z /\
  exists w1 w2,
    run P (s_T s') steps w = (Ok (s_E s', s_acceptance s', s_improvement s'), w1) /\
    update P (s_step s') (s_T s') (s_E s') (Some (s_acceptance s'))
      (Some (s_improvement s')) w1 = (Ok tt, w2) /\
    w' = w2.
Proof.
  unfold probe. intros H.
  apply bind_Ok in H as (T1 & w0 & HT & H). apply lift_Ok in HT as [HT ->].
  apply bind_Ok in H as ([[E1 acc] imp] & w1 & Hrun & H).
  apply bind_Ok in H as ([] & w2 & Hup & H).
  unfold ret in H. injection H as <- <-. cbn.
  split; [assumption |]. split; [reflexivity |].
  exists w1, w2. now repeat split.
Qed.

(** A search keeps what each of its probes keeps, and ends where its
    condition fails. *)
Lemma search_Ok (Inv : Search -> Prop) (continue : Search -> bool) (scale : R -> R)
    (steps : Z) :
  (forall s s' (w w' : World St Env),
      Inv s -> probe P scale steps s w = (Ok s', w') -> Inv s') ->
  forall (fuel : nat) (s s' : Search) (w w' : World St Env),
    Inv s -> search P fuel continue scale steps s w = (Ok s', w') ->
    Inv s' /\ continue s' = false.
Proof.
  intros Hprobe. induction fuel as [| fuel IH]; intros s s' w w' Hs H;
    cbn [search] in H; destruct (continue s) eqn:Hc.
  - discriminate H.
  - inversion H; subst. now split.
  - apply bind_Ok in H as (s1 & w1 & Hp & H).
    apply (Hprobe _ _ _ _ Hs) in Hp. now apply (IH _ _ _ _ Hp) in H.
  - inversion H; subst. now split.
Qed.

Lemma cooling_search (fuel : nat) (continue : Search -> bool) (steps : Z) (bound : R)
    (s s' : Search) (w w' : World St Env) :
  0 < s_T s <= bound ->
  search P fuel continue (fun T => T / (15 / 10)) steps s w = (Ok s', w') ->
  0 < s_T s' <= bound /\ continue s' = false.
Proof.
  apply (search_Ok (fun s => 0 < s_T s <= bound)).
  intros s0 s1 w0 w1 [Hpos Hle] Hp. apply probe_Ok in Hp as (HT & _).
  apply cooler in HT; lra.
Qed.

Lemma heating_search (fuel : nat) (continue : Search -> bool) (steps : Z)
    (s s' : Search) (w w' : World St Env) :
  0 < s_T s ->
  search P fuel continue (fun T => T * (15 / 10)) steps s w = (Ok s', w') ->
  0 < s_T s' /\ continue s' = false.
Proof.
  apply (search_Ok (fun s => 0 < s_T s)).
  intros s0 s1 w0 w1 Hpos Hp. apply probe_Ok in Hp as (HT & _).
  apply hotter in HT; lra.
Qed.

(** What [auto] has found when it returns. *)
Lemma auto_Ok (fuel : nat) (minutes : R) (steps : Z) (w w' : World St Env)
    (sched : Schedule) :
  auto P fuel minutes steps w = (Ok sched, w') ->
  0 < sched_tmin sched <= sched_tmax sched /\
  updates_attr P = Some (sched_updates sched).
Proof.
  unfold auto. intros H.
  apply bind_Ok in H as (now & w1 & _ & H).
  apply bind_Ok in H as ([] & w2 & _ & H).
  apply bind_Ok in H as (E0 & w3 & _ & H).
  apply bind_Ok in H as ([] & w4 & _ & H).
  apply bind_Ok in H as ([n T1] & w5 & Hseed & H).
  apply seed_temperature_Ok in Hseed as (HT1 & _); [| lra].
  apply bind_Ok in H as ([[E1 acc] imp] & w6 & _ & H).
  apply bind_Ok in H as (s1 & w7 & Hs1 & H).
  apply (cooling_search _ _ _ T1) in Hs1 as ((Hpos1 & _) & _); [| cbn; lra].
  apply bind_Ok in H as (s2 & w8 & Hs2 & H).
  apply heating_search in Hs2 as (Hpos2 & _); [| assumption].
  apply bind_Ok in H as (s3 & w9 & Hs3 & H).
  apply (cooling_search _ _ _ (s_T s2)) in Hs3 as (Hpos3 & _); [| lra].
  apply bind_Ok in H as (now' & w10 & _ & H).
  apply bind_Ok in H as (began & w11 & _ & H).
  apply bind_Ok in H as (began' & w12 & _ & H).
  apply bind_Ok in H as (per_run & w13 & _ & H).
  apply bind_Ok in H as (duration & w14 & _ & H).
  apply bind_Ok in H as (u & w15 & Hu & H).
  unfold ret in H. injection H as <- _. cbn.
  split; [assumption |].
  destruct (updates_attr P); [| discriminate Hu].
  unfold ret in Hu. now injection Hu as <- _.
Qed.

End Searches.

(** X17: each probe of a search of [auto] moves the temperature: dividing
    by 1.5 and rounding to two figures gives a temperature that is still
    positive and strictly lower, multiplying by 1.5 and rounding one that
    is strictly higher; the probe adds [steps] to the step count. *)
Theorem probe_moves_temperature {St Env : Type} (P : Problem St Env) (steps : Z)
    (s s' : Search) (w w' : World St Env) :
  (0 < s_T s)%R ->
  (probe P (fun T => (T / (15 / 10))%R) steps s w = (Ok s', w') ->
   (0 < s_T s' < s_T s)%R /\ s_step s' = s_step s + steps) /\
  (probe P (fun T => (T * (15 / 10))%R) steps s w = (Ok s', w') ->
   (s_T s < s_T s')%R /\ s_step s' = s_step s + steps).
Proof.
  intros Hpos. split; intros H; apply probe_Ok in H as (HT & Hstep & _);
    (split; [| exact Hstep]).
  - now apply cooler in HT.
  - now apply hotter in HT.
Qed.

(** X18: the schedule [auto] returns, when it returns one, has
    [0 < tmin <= tmax], so that [anneal] accepts it, and its [updates]
    is the attribute [updates] of the object. *)
Theorem auto_schedule {St Env : Type} (P : Problem St Env) (fuel : nat) (minutes : R)
    (steps : Z) (w w' : World St Env) (sched : Schedule) :
  auto P fuel minutes steps w = (Ok sched, w') ->
  (0 < sched_tmin sched <= sched_tmax sched)%R /\
  updates_attr P = Some (sched_updates sched).
Proof. intros H. now apply auto_Ok in H. Qed.

(** ** A run of the walk with a trace file and progress lines *)

Section LoggedRun.

Local Open Scope R_scope.

Lemma floor_two : Zfloor (1 / (1 / 2)) = 2%Z.
Proof. apply Zfloor_eq. lra. Qed.

Lemma floor_zero : Zfloor (0 / (1 / 2)) = 0%Z.
Proof. apply Zfloor_eq. lra. Qed.

(** One step down from [x = 1], with the trace file and two updates. *)
Lemma walk_logged_run :
  exists w' elapsed remain,
    anneal Walk.problem (Some Walk.logged) (Walk.world 1 [false] [])
    = (Ok (Some 0%Z, Some (1 + -1)), w') /\
    trace w'
    = [Open "trace.csv"; Write "trace.csv" Header; Call Energy;
       Debug (StartEnergy (py_round_to 1 2)); Debug ColumnNames; Call Move;
       Write "trace.csv"
         (Row 1 (py_round_to 1 4) (py_round_to 1 3) (py_round_to (1 + -1) 3));
       Write "trace.csv" (Best (py_round_to 1 2));
       Debug (StepLine 1 (py_round_to 1 2) (py_round_to (1 + -1) 2) ACC);
       Write "trace.csv" (Accepted true);
       Info (Progress 1 (1 + -1) (100 * (1 / 1)) (100 * (1 / 1)) elapsed remain)].
Proof.
  do 3 eexists. unfold anneal.
  unfold anneal_init, open_trace, anneal_start, copy_own_state, copy_state,
    first_update, update, default_update.
  unfold_M. cbn -[time_string].
  rewrite (proj2 (Rleb_false 1 0)) by lra.
  rewrite cooling_factor_Ok by lra. cbn -[time_string].
  unfold truediv at 1. rewrite (proj2 (Reqb_false 2 0)) by lra. cbn -[time_string].
  change (PosDef.Pos.to_nat 1) with 1%nat. cbn [anneal_loop].
  unfold anneal_step. unfold_M. cbn -[time_string].
  rewrite temperature_Ok by lia. cbn -[time_string]. rewrite one_step_temperature.
  unfold trace_row, metropolis. unfold_M. cbn -[time_string].
  rewrite (proj2 (Rltb_false 0 (-1))) by lra.
  unfold accept, trace_write, copy_own_state, copy_state, keep_best, report.
  unfold_M. cbn -[time_string].
  rewrite (proj2 (Rltb_true (1 + -1) 1)) by lra.
  rewrite (proj2 (Rltb_true (-1) 0)) by lra.
  cbn -[time_string].
  unfold floordiv. rewrite (proj2 (Reqb_false (1 / 2) 0)) by lra.
  rewrite floor_two, floor_zero.
  rewrite (proj2 (Rltb_true 0 2)) by lra.
  unfold truediv. rewrite (proj2 (Reqb_false 1 0)) by lra. cbn -[time_string].
  split; reflexivity.
Qed.

End LoggedRun.

(** ** The properties above, on the walk *)

Section OnTheWalk.

Local Open Scope R_scope.

Lemma time_string_fields_witness : String.length (time_string 3661) = 10%nat.
Proof.
  destruct (time_string_fields 3661) as (h & m & s & _ & _ & _ & _ & _ & _ & H).
  apply H. lia.
Defined.

Lemma anneal_call_counts_witness :
  exists w',
    anneal Walk.problem (Some Walk.one_step) (Walk.world 1 [false] [])
    = (Ok (Some 0%Z, Some (1 + -1)), w') /\
    count (is_call Energy) (trace w') = 1%nat /\
    count (is_call Move) (trace w') = Z.to_nat (steps Walk.one_step) /\
    count is_step_line (trace w') = Z.to_nat (steps Walk.one_step) /\
    count (is_call Revert) (trace w') = count is_REJ_line (trace w').
Proof.
  destruct (walk_down_run None []) as [w' Hrun]. exists w'.
  split; [exact Hrun |].
  apply (anneal_call_counts Walk.problem Walk.one_step _ w' _ (trace w') Hrun).
  reflexivity.
Defined.

Lemma anneal_file_content_witness :
  exists w' rows,
    anneal Walk.problem (Some Walk.logged) (Walk.world 1 [false] [])
    = (Ok (Some 0%Z, Some (1 + -1)), w') /\
    written (trace w') = Header :: List.concat rows /\
    rows_from 0 rows /\ List.length rows = 1%nat /\
    count is_write (trace w') = 4%nat.
Proof.
  destruct walk_logged_run as (w' & elapsed & remain & Hrun & _).
  destruct (proj2 (anneal_file_content Walk.problem Walk.logged _ w' _ (trace w')
                     Hrun eq_refl))
    as (rows & Hrows & Hfrom & Hlen & Hcount); [discriminate |].
  exists w', rows. repeat split; assumption.
Defined.

Lemma anneal_rates_in_range_witness :
  exists w' elapsed remain,
    anneal Walk.problem (Some Walk.logged) (Walk.world 1 [false] [])
    = (Ok (Some 0%Z, Some (1 + -1)), w') /\
    In (Info (Progress 1 (1 + -1) (100 * (1 / 1)) (100 * (1 / 1)) elapsed remain))
      (trace w') /\
    (0 <= 100 * (1 / 1) <= 100 * (1 / 1)) /\ 100 * (1 / 1) <= 100.
Proof.
  destruct walk_logged_run as (w' & elapsed & remain & Hrun & Htrace).
  assert (Hin : In (Info (Progress 1 (1 + -1) (100 * (1 / 1)) (100 * (1 / 1))
                            elapsed remain)) (trace w')).
  { rewrite Htrace. do 10 right. now left. }
  exists w', elapsed, remain.
  split; [exact Hrun |]. split; [exact Hin |].
  exact (anneal_rates_in_range Walk.problem Walk.logged _ w' _ (trace w')
           _ _ _ _ _ _ Hrun eq_refl Hin).
Defined.


Lemma anneal_refuses_tmax_witness :
  anneal Walk.problem (Some Walk.cold) (Walk.world 3 [true] [])
  = (Raise ValueError, refused Walk.problem Walk.cold (Walk.world 3 [true] [])).
Proof. apply anneal_refuses_tmax; cbn; lra. Defined.

Lemma anneal_returns_best_witness :
  exists w',
    anneal Walk.problem (Some Walk.one_step) (Walk.world 1 [false] [])
    = (Ok (Some 0%Z, Some (1 + -1)), w') /\
    best_state (self w') = Some 0%Z /\ best_energy (self w') = Some (1 + -1) /\
    state (self w') = 0%Z.
Proof.
  destruct (walk_down_run None []) as [w' Hrun]. exists w'.
  destruct (anneal_returns_best Walk.problem _ _ _ _ _ Hrun)
    as (Hbs & Hbe & b & E1 & Hb & _ & Hstate).
  injection Hb as <-.
  split; [exact Hrun |]. split; [now symmetry |]. split; [now symmetry |].
  apply Hstate. apply walk_exact_copies.
Defined.

Lemma anneal_without_steps_witness :
  exists E0,
    fst (fst (Walk.square 0%Z (snd (Walk.now (env (Walk.world 0 [] []))))))
    = Ok E0 /\
    trace (snd (anneal Walk.problem (Some Walk.traced) (Walk.world 0 [] [])))
    = prologue (Some "trace.csv") E0.
Proof.
  destruct (anneal_without_steps Walk.problem Walk.traced _ _ _ _
              (Z.le_refl 0) walk_traced_run)
    as (E0 & HE0 & _ & Htrace & _).
  exists E0. split; [exact HE0 |]. rewrite walk_traced_run. exact Htrace.
Defined.

Lemma seed_temperature_positive_witness :
  0 < 1 /\ (1 <= 1)%Z /\
  count (is_call Move) [Call Move; Call Energy] = Z.to_nat 1 /\
  count (is_call Energy) [Call Move; Call Energy] = Z.to_nat 1 /\
  count (is_call Revert) [Call Move; Call Energy] = 0%nat.
Proof.
  exact (seed_temperature_positive Walk.with_revert 1 0 _ _ 1 1
           [Call Move; Call Energy] (walk_seed [] [] 0 []) eq_refl).
Defined.

Lemma auto_diverges_on_plateau_witness :
  fst (auto Walk.level 3 1 10 (Walk.world 0 [true; false; true] [])) = Diverge.
Proof.
  apply (auto_diverges_on_plateau Walk.level 0).
  split; intros s e; [now eexists _, _, _ | now eexists _, _].
Defined.

Lemma run_rates_witness :
  (1 <> 0)%Z /\ (0 <= 1 / 1 <= 1 / 1) /\ 1 / 1 <= 1 /\
  count (is_call Move) [Call Energy; Call Move; Call Energy] = Z.to_nat 1 /\
  count (is_call Energy) [Call Energy; Call Move; Call Energy] = S (Z.to_nat 1).
Proof.
  exact (run_rates Walk.with_revert 1 1 _ _ 0 (1 / 1) (1 / 1)
           [Call Energy; Call Move; Call Energy] (walk_run_down 1 [] [] 0 []) eq_refl).
Defined.

(** The probe of [auto] at [1 / 1.5]: the move up is rejected. *)
Lemma walk_probe_cooler cs ds k tr :
  exists w',
    probe Walk.with_revert (fun T => T / (15 / 10)) 1
      {| s_step := 2; s_T := 1; s_E := 0; s_acceptance := 1 / 1;
         s_improvement := 1 / 1 |}
      (Walk.probing 0 (true :: cs) (1 / 2 :: ds) k tr)
    = (Ok {| s_step := 2 + 1; s_T := 67 / 100; s_E := 0; s_acceptance := 0 / 1;
             s_improvement := 0 / 1 |}, w').
Proof.
  eexists. unfold probe. cbn [s_T s_step].
  erewrite bind_run_Ok
    by (unfold lift; rewrite round_figures_two_thirds by field; reflexivity).
  erewrite bind_run_Ok by (apply walk_run_up_rejected; lra).
  cbv beta iota.
  erewrite bind_run_Ok by (apply walk_update; lia).
  reflexivity.
Qed.

Lemma probe_moves_temperature_witness :
  0 < 67 / 100 < 1 /\ (2 + 1 = 2 + 1)%Z.
Proof.
  destruct (walk_probe_cooler [] [] 0 []) as [w' Hprobe].
  apply (fun Hpos => proj1 (probe_moves_temperature Walk.with_revert 1 _ _ _ _ Hpos)
                         Hprobe).
  cbn. lra.
Defined.

(** [run], [update] and the seed loop do not read the attribute
    [updates]. *)
Lemma scheduled_run T n w :
  run Walk.scheduled T n w = run Walk.with_revert T n w.
Proof. reflexivity. Qed.

Lemma scheduled_update n T E1 acc imp w :
  update Walk.scheduled n T E1 acc imp w = update Walk.with_revert n T E1 acc imp w.
Proof. reflexivity. Qed.

Lemma scheduled_seed fuel E0 n T w :
  seed_temperature Walk.scheduled fuel E0 n T w
  = seed_temperature Walk.with_revert fuel E0 n T w.
Proof. reflexivity. Qed.

(** [auto(minutes=1/60, steps=1)] on the walk with [revert] and
    [updates]: the searches end with [Tmax = Tmin = 1]. *)
Lemma walk_auto_returns :
  exists w',
    auto Walk.scheduled 1 (1 / 60) 1
      (Walk.world 0 [true; false; true; true] [1 / 2; 0])
    = (Ok {| sched_tmax := 1; sched_tmin := 1; sched_steps := 1;
             sched_updates := 100 |}, w').
Proof.
  eexists. unfold auto.
  erewrite bind_run_Ok by reflexivity.
  erewrite bind_run_Ok by reflexivity.
  erewrite bind_run_Ok by reflexivity.
  erewrite bind_run_Ok
    by (unfold update, default_update; unfold_M; cbn -[time_string]; reflexivity).
  erewrite bind_run_Ok by (rewrite scheduled_seed; apply walk_seed).
  cbv beta iota.
  erewrite bind_run_Ok by (rewrite scheduled_run; apply walk_run_down).
  cbv beta iota.
  erewrite bind_run_Ok.
  2:{ cbn [search s_acceptance].
      rewrite (proj2 (Rltb_true (98 / 100) (1 / 1))) by lra.
      erewrite bind_run_Ok.
      2:{ unfold probe. cbn [s_T s_step].
          erewrite bind_run_Ok
            by (unfold lift; rewrite round_figures_two_thirds by field; reflexivity).
          erewrite bind_run_Ok
            by (rewrite scheduled_run; apply walk_run_up_rejected; lra).
          cbv beta iota.
          erewrite bind_run_Ok by (rewrite scheduled_update; apply walk_update; lia).
          reflexivity. }
      cbn [s_acceptance].
      rewrite (proj2 (Rltb_false (98 / 100) (0 / 1))) by lra. reflexivity. }
  erewrite bind_run_Ok.
  2:{ cbn [search s_acceptance].
      rewrite (proj2 (Rltb_true (0 / 1) (98 / 100))) by lra.
      erewrite bind_run_Ok.
      2:{ unfold probe. cbn [s_T s_step].
          erewrite bind_run_Ok
            by (unfold lift; rewrite round_figures_1005 by field; reflexivity).
          erewrite bind_run_Ok
            by (rewrite scheduled_run; apply walk_run_up_accepted; lra).
          cbv beta iota.
          erewrite bind_run_Ok by (rewrite scheduled_update; apply walk_update; lia).
          reflexivity. }
      cbn [s_acceptance].
      rewrite (proj2 (Rltb_false (1 / 1) (98 / 100))) by lra. reflexivity. }
  erewrite bind_run_Ok.
  2:{ cbn [search s_improvement].
      rewrite (proj2 (Rltb_false 0 (0 / 1))) by lra. reflexivity. }
  erewrite bind_run_Ok by reflexivity.
  erewrite bind_run_Ok by reflexivity.
  erewrite bind_run_Ok by reflexivity.
  cbn [s_step]. change (1 + 1 + 1 + 1)%Z with 4%Z.
  assert (Hrate : 60 * (1 / 60) * 4 / (0 + 1 + 1 + 1 + 1 - 0) = 1) by field.
  erewrite bind_run_Ok.
  2:{ unfold lift, truediv. cbn [Walk.clock env Walk.probing].
      rewrite (proj2 (Reqb_false (0 + 1 + 1 + 1 + 1 - 0) 0)) by lra.
      rewrite Hrate. reflexivity. }
  erewrite bind_run_Ok.
  2:{ unfold lift. rewrite round_figures_one; [reflexivity |].
      unfold py_int. rewrite (proj2 (Rltb_false 1 0)) by lra.
      now rewrite (ZfloorZ 1). }
  reflexivity.
Qed.

Lemma auto_schedule_witness :
  0 < 1 <= 1 /\ updates_attr Walk.scheduled = Some 100%Z.
Proof.
  destruct walk_auto_returns as [w' Hauto].
  exact (auto_schedule Walk.scheduled _ _ _ _ _ _ Hauto).
Defined.

End OnTheWalk.
